(** * Wordle Ranked: the daily results pipeline

    A shallow embedding of the bot's daily pipeline and the proofs of its
    specified properties.  The embedding comes first:
    - [Elo]: the pairwise rating engine ([services/eloService.ts]), read
      in exact arithmetic;
    - [Elo64]: the same engine in the double-precision arithmetic in which
      it runs;
    - [Js], [JsDate]: the strings, regular-expression loops and [Date]
      operations of JavaScript that the parser uses;
    - [Parser]: the announcement parser ([services/messageParser.ts], the
      revision that reads mentions and plain names and dates the results
      one day back);
    - [Repo]: the SQLite tables and the repository functions
      ([database/playerRepository.ts], [database/gameRepository.ts]);
    - [Pipeline]: [processDailyResults], the activity update and the
      message handler ([events/messageCreate.ts]).
    The properties follow, one section per component.

    Numbers.  A JavaScript [number] that the program only ever uses as an
    integer (row ids, guess counts, ratings stored in INTEGER columns, the
    K-factor and default rating that [getNumericEnv] reads with [parseInt])
    is a [Z].  The fractional quantities of the rating engine (scaled
    K-factor, expected scores, accumulated changes) are read twice.  In
    [Elo] they are real numbers and [Math.round] is [floor (x + 1/2)]: this
    reading carries the bounds and comparisons that the rounding of a
    double cannot break, and it is the engine of [Pipeline].  In [Elo64]
    they are binary64 numbers, added in the order of the loops: this
    reading carries what depends on that order.

    Strings are sequences of UTF-16 code units.  A [Date] is its time value
    in milliseconds; the local time zone of the host is a parameter.

    The database is the four tables as lists of rows in insertion order,
    with the UNIQUE constraints that make an insert fail; a repository
    call is a function from the database to a result, or an exception, and
    the database after the call.  The FOREIGN KEY constraints are not
    checked: the pipeline passes the ids of stored players only. *)

From Stdlib Require Import Reals Lra Lia ZArith List String Ascii.
From Stdlib Require PrimFloat Uint63.
From stdpp Require Import gmap list.
Import ListNotations.

(** ** The rating engine: [services/eloService.ts] *)

Module Elo.

Local Open Scope R_scope.

Record EloConfig := {
  kFactor : Z;
  defaultRating : Z
}.

Record Participant := {
  playerId : Z;
  currentElo : Z;
  guessCount : Z
}.

(** [Math.round]: the nearest integer, halves towards plus infinity. *)
Definition Math_round (x : R) : Z := Int_part (x + 1 / 2).

(** [Math.pow(10, x)]. *)
Definition Math_pow10 (x : R) : R := Rpower 10 x.

Definition calculateExpectedScore (ratingA ratingB : Z) : R :=
  1 / (1 + Math_pow10 ((IZR ratingB - IZR ratingA) / 400)).

Definition determineMatchResult (guessCount1 guessCount2 : Z) : R * R :=
  if (guessCount1 <? guessCount2)%Z then (1, 0)
  else if (guessCount1 >? guessCount2)%Z then (0, 1)
  else (1 / 2, 1 / 2).

(** [eloChanges.get(id) || 0]. *)
Definition getOr0 (eloChanges : gmap Z R) (id : Z) : R :=
  default 0 (eloChanges !! id).

(** The first loop: every participant's change starts at 0. *)
Definition initChanges (participants : list Participant) : gmap Z R :=
  foldl (fun m p => <[playerId p := 0]> m) ∅ participants.

(** One matchup of the inner loop body: [player1 = participants[i]],
    [player2 = participants[j]]. *)
Definition matchup (scaledK : R) (player1 player2 : Participant)
    (eloChanges : gmap Z R) : gmap Z R :=
  let '(score1, score2) :=
    determineMatchResult (guessCount player1) (guessCount player2) in
  let expected1 :=
    calculateExpectedScore (currentElo player1) (currentElo player2) in
  let expected2 :=
    calculateExpectedScore (currentElo player2) (currentElo player1) in
  let change1 := scaledK * (score1 - expected1) in
  let change2 := scaledK * (score2 - expected2) in
  let eloChanges1 :=
    <[playerId player1 := getOr0 eloChanges (playerId player1) + change1]>
      eloChanges in
  <[playerId player2 := getOr0 eloChanges1 (playerId player2) + change2]>
    eloChanges1.

(** [for (let j = i + 1; j < participants.length; j++)]: [later] is the
    part of the list after position [i]. *)
Fixpoint innerLoop (scaledK : R) (player1 : Participant)
    (later : list Participant) (eloChanges : gmap Z R) : gmap Z R :=
  match later with
  | [] => eloChanges
  | player2 :: later' =>
      innerLoop scaledK player1 later' (matchup scaledK player1 player2 eloChanges)
  end.

(** [for (let i = 0; i < participants.length; i++)]. *)
Fixpoint outerLoop (scaledK : R) (participants : list Participant)
    (eloChanges : gmap Z R) : gmap Z R :=
  match participants with
  | [] => eloChanges
  | player1 :: later =>
      outerLoop scaledK later (innerLoop scaledK player1 later eloChanges)
  end.

Definition scaledKFactor (config : EloConfig) (participants : list Participant) : R :=
  IZR (kFactor config) / IZR (Z.of_nat (length participants) - 1).

(** The accumulated changes before the final rounding loop. *)
Definition accumulatedChanges (participants : list Participant)
    (config : EloConfig) : gmap Z R :=
  outerLoop (scaledKFactor config participants) participants
    (initChanges participants).

(** The result maps a player id to an integer.  With fewer than two
    participants the map of zeros is returned as it is; it is written with
    the same rounding here ([Math_round 0 = 0], lemma [Math_round_0]) so that
    both branches have integer entries. *)
Definition calculatePairwiseElo (participants : list Participant)
    (config : EloConfig) : gmap Z Z :=
  let eloChanges := initChanges participants in
  if (length participants <? 2)%nat then Math_round <$> eloChanges
  else Math_round <$> accumulatedChanges participants config.

(** [simulateEloCalculation]. *)
Record Simulated := {
  sim_playerId : Z;
  sim_currentElo : Z;
  sim_newElo : Z;
  sim_change : Z
}.

Definition simulateEloCalculation (participants : list Participant)
    (config : EloConfig) : list Simulated :=
  let eloChanges := calculatePairwiseElo participants config in
  map (fun p =>
         {| sim_playerId := playerId p;
            sim_currentElo := currentElo p;
            sim_newElo := (currentElo p + default 0 (eloChanges !! playerId p))%Z;
            sim_change := default 0%Z (eloChanges !! playerId p) |})
      participants.

(** Vocabulary of the proofs: what [p] gains from the matchup with [q]
    (the [change1] of the pair [(p, q)], the [change2] of the pair [(q, p)]),
    and the total of [p] against a list of opponents. *)
Definition contrib (scaledK : R) (p q : Participant) : R :=
  scaledK * (fst (determineMatchResult (guessCount p) (guessCount q))
             - calculateExpectedScore (currentElo p) (currentElo q)).

Fixpoint against (scaledK : R) (p : Participant) (qs : list Participant) : R :=
  match qs with
  | [] => 0
  | q :: qs' => contrib scaledK p q + against scaledK p qs'
  end.

(** What the entry of player [x] receives when participant [p] gains [c]. *)
Definition credit (x : Z) (p : Participant) (c : R) : R :=
  if decide (playerId p = x) then c else 0.

(** What the entry of [x] receives from the opponents [later] of one round
    of the inner loop against [player1]. *)
Fixpoint owed (scaledK : R) (x : Z) (player1 : Participant)
    (later : list Participant) : R :=
  match later with
  | [] => 0
  | q :: later' => credit x q (contrib scaledK q player1) + owed scaledK x player1 later'
  end.

(** What the entry of [x] receives in total: the totals, against all of
    [everyone], of the participants of [ps] that carry the id [x]. *)
Fixpoint share (scaledK : R) (x : Z) (ps everyone : list Participant) : R :=
  match ps with
  | [] => 0
  | p :: ps' => credit x p (against scaledK p everyone) + share scaledK x ps' everyone
  end.

(** Participant [p] with the rating and the guess count of [q]. *)
Definition withData (p q : Participant) : Participant :=
  {| playerId := playerId p; currentElo := currentElo q; guessCount := guessCount q |}.

(** The list in which the participants at positions [i] and [j] have
    exchanged their (rating, guess count) pairs and kept their ids. *)
Definition exchange (i j : nat) (ps : list Participant) : list Participant :=
  match ps !! i, ps !! j with
  | Some a, Some b => <[i := withData a b]> (<[j := withData b a]> ps)
  | _, _ => ps
  end.

(** Scenario A of the specification: four players at 1000 with 2, 3, 4 and
    5 guesses, K-factor 32. *)
Definition scenarioA : list Participant :=
  [ {| playerId := 1; currentElo := 1000; guessCount := 2 |};
    {| playerId := 2; currentElo := 1000; guessCount := 3 |};
    {| playerId := 3; currentElo := 1000; guessCount := 4 |};
    {| playerId := 4; currentElo := 1000; guessCount := 5 |} ].

Definition config32 : EloConfig := {| kFactor := 32; defaultRating := 1000 |}.



(** Scenario B of the specification: two players tie at 3/6 with equal
    ratings. *)
Definition scenarioB : list Participant :=
  [ {| playerId := 1; currentElo := 1000; guessCount := 3 |};
    {| playerId := 2; currentElo := 1000; guessCount := 3 |} ].

End Elo.

(** ** The rating engine in double precision *)

Module Elo64.

Import PrimFloat.
Import Elo (EloConfig, kFactor, defaultRating, Participant, playerId, currentElo,
            guessCount).

Local Open Scope float_scope.

(** The number of an integer: exact up to [2^53] in absolute value, which
    holds the row ids, guess counts, ratings and K-factors of the program. *)
Definition ofZ (z : Z) : float :=
  if (z <? 0)%Z then - of_uint63 (Uint63.of_Z (- z)) else of_uint63 (Uint63.of_Z z).

(** [x || 0]: NaN and the two zeros count as false. *)
Definition orZero (x : float) : float := if is_nan x || is_zero x then 0 else x.

Definition two52 : float := 4503599627370496.

(** [Math.round]: NaN, the infinities, the zeros and the numbers from
    [2^52] on come back as they are (they are integral); a number from
    [-0.5] up to zero gives [-0]; otherwise the nearest integer, halves
    towards plus infinity.  Adding and subtracting [2^52] rounds to an
    integer next to [x], from which the floor of [x] is taken. *)
Definition Math_round (x : float) : float :=
  if is_nan x || is_infinity x || is_zero x || (two52 <=? abs x) then x
  else if (x <? 0) && (-0.5 <=? x) then -0
  else
    let nearest := if 0 <? x then (x + two52) - two52 else (x - two52) + two52 in
    let floor := if x <? nearest then nearest - 1 else nearest in
    if 0.5 <=? x - floor then floor + 1 else floor.

(** [Math.pow(base, exponent)]: ECMAScript fixes the result for an exponent
    that is NaN or a zero; elsewhere it is an approximation that the engine
    chooses, the parameter [approx]. *)
Definition Math_pow (approx : float -> float -> float) (base exponent : float) : float :=
  if is_nan exponent then nan
  else if is_zero exponent then 1
  else approx base exponent.

Definition calculateExpectedScore (approx : float -> float -> float)
    (ratingA ratingB : Z) : float :=
  1 / (1 + Math_pow approx 10 ((ofZ ratingB - ofZ ratingA) / 400)).

Definition determineMatchResult (guessCount1 guessCount2 : Z) : float * float :=
  if (guessCount1 <? guessCount2)%Z then (1, 0)
  else if (guessCount1 >? guessCount2)%Z then (0, 1)
  else (0.5, 0.5).

(** [eloChanges.get(id) || 0]. *)
Definition getOr0 (eloChanges : gmap Z float) (id : Z) : float :=
  match eloChanges !! id with
  | Some change => orZero change
  | None => 0
  end.

(** The first loop: every participant's change starts at 0. *)
Definition initChanges (participants : list Participant) : gmap Z float :=
  foldl (fun m p => <[playerId p := 0]> m) ∅ participants.

(** One matchup of the inner loop body. *)
Definition matchup (approx : float -> float -> float) (scaledK : float)
    (player1 player2 : Participant) (eloChanges : gmap Z float) : gmap Z float :=
  let '(score1, score2) :=
    determineMatchResult (guessCount player1) (guessCount player2) in
  let expected1 :=
    calculateExpectedScore approx (currentElo player1) (currentElo player2) in
  let expected2 :=
    calculateExpectedScore approx (currentElo player2) (currentElo player1) in
  let change1 := scaledK * (score1 - expected1) in
  let change2 := scaledK * (score2 - expected2) in
  let eloChanges1 :=
    <[playerId player1 := getOr0 eloChanges (playerId player1) + change1]>
      eloChanges in
  <[playerId player2 := getOr0 eloChanges1 (playerId player2) + change2]>
    eloChanges1.

(** [for (let j = i + 1; j < participants.length; j++)]. *)
Fixpoint innerLoop (approx : float -> float -> float) (scaledK : float)
    (player1 : Participant) (later : list Participant)
    (eloChanges : gmap Z float) : gmap Z float :=
  match later with
  | [] => eloChanges
  | player2 :: later' =>
      innerLoop approx scaledK player1 later'
        (matchup approx scaledK player1 player2 eloChanges)
  end.

(** [for (let i = 0; i < participants.length; i++)]. *)
Fixpoint outerLoop (approx : float -> float -> float) (scaledK : float)
    (participants : list Participant) (eloChanges : gmap Z float) : gmap Z float :=
  match participants with
  | [] => eloChanges
  | player1 :: later =>
      outerLoop approx scaledK later (innerLoop approx scaledK player1 later eloChanges)
  end.

Definition scaledKFactor (config : EloConfig) (participants : list Participant) : float :=
  ofZ (kFactor config) / ofZ (Z.of_nat (length participants) - 1).

(** With fewer than two participants the map of zeros is returned before
    the rounding loop. *)
Definition calculatePairwiseElo (approx : float -> float -> float)
    (participants : list Participant) (config : EloConfig) : gmap Z float :=
  let eloChanges := initChanges participants in
  if (length participants <? 2)%nat then eloChanges
  else
    Math_round <$>
      outerLoop approx (scaledKFactor config participants) participants eloChanges.

(** Vocabulary of the proofs: what [p] gains from the matchup with [q], and
    the entry of a player that starts at [start] and receives [changes] in
    this order. *)
Definition contrib (approx : float -> float -> float) (scaledK : float)
    (p q : Participant) : float :=
  scaledK * (fst (determineMatchResult (guessCount p) (guessCount q))
             - calculateExpectedScore approx (currentElo p) (currentElo q)).

Definition tally (start : float) (changes : list float) : float :=
  fold_left (fun total change => orZero total + change) changes start.

(** Ten players at 1000 with 3, 3, 2, 3 and six times 1 guesses, and a
    K-factor of 15. *)
Definition tenPlayers : list Participant :=
  [ {| playerId := 1; currentElo := 1000; guessCount := 3 |};
    {| playerId := 2; currentElo := 1000; guessCount := 3 |};
    {| playerId := 3; currentElo := 1000; guessCount := 2 |};
    {| playerId := 4; currentElo := 1000; guessCount := 3 |};
    {| playerId := 5; currentElo := 1000; guessCount := 1 |};
    {| playerId := 6; currentElo := 1000; guessCount := 1 |};
    {| playerId := 7; currentElo := 1000; guessCount := 1 |};
    {| playerId := 8; currentElo := 1000; guessCount := 1 |};
    {| playerId := 9; currentElo := 1000; guessCount := 1 |};
    {| playerId := 10; currentElo := 1000; guessCount := 1 |} ].

Definition config15 : EloConfig := {| kFactor := 15; defaultRating := 1000 |}.

(** Among equal ratings every exponent is zero and the approximation is
    not consulted; the examples on [tenPlayers] pass this one. *)
Definition noApprox : float -> float -> float := fun _ _ => nan.

End Elo64.

(** ** JavaScript strings and regular-expression scanning *)

Module Js.

(** A string is its sequence of UTF-16 code units: the indices of a match
    ([match.index], [match[0].length]) count code units. *)
Abbreviation jsstring := (list N).

(** The string of an ASCII literal. *)
Definition lit (s : String.string) : jsstring :=
  map Ascii.N_of_ascii (String.list_ascii_of_string s).

Definition inRange (lo hi c : N) : bool := ((lo <=? c) && (c <=? hi))%N.

(** [\d] *)
Definition isDigit (c : N) : bool := inRange 48 57 c.

(** [\w] *)
Definition isWord (c : N) : bool :=
  isDigit c || inRange 65 90 c || inRange 97 122 c || (c =? 95)%N.

(** A line terminator: what [.] does not match. *)
Definition isLineTerminator (c : N) : bool :=
  ((c =? 10) || (c =? 13) || (c =? 8232) || (c =? 8233))%N.

(** [\s], also what [trim] removes: white space and line terminators. *)
Definition isSpace (c : N) : bool :=
  (inRange 9 13 c || (c =? 32) || (c =? 160) || (c =? 5760)
   || inRange 8192 8202 c || (c =? 8232) || (c =? 8233) || (c =? 8239)
   || (c =? 8287) || (c =? 12288) || (c =? 65279))%N.

(** Matching one pattern character under the [i] flag: ASCII letters match
    in either case. *)
Definition upper (c : N) : N := if inRange 97 122 c then (c - 32)%N else c.
Definition eqChar_i (pattern c : N) : bool := (upper pattern =? upper c)%N.

Fixpoint dropWhile (f : N -> bool) (s : jsstring) : jsstring :=
  match s with
  | [] => []
  | c :: s' => if f c then dropWhile f s' else s
  end.

Fixpoint takeWhile (f : N -> bool) (s : jsstring) : jsstring :=
  match s with
  | [] => []
  | c :: s' => if f c then c :: takeWhile f s' else []
  end.

(** [s.trim()] *)
Definition trim (s : jsstring) : jsstring :=
  rev (dropWhile isSpace (rev (dropWhile isSpace s))).

(** [s.split(sep)] for a separator of one code unit. *)
Fixpoint split (sep : N) (s : jsstring) : list jsstring :=
  match s with
  | [] => [[]]
  | c :: s' =>
      if (c =? sep)%N then [] :: split sep s'
      else match split sep s' with
           | piece :: pieces => (c :: piece) :: pieces
           | [] => [[c]]
           end
  end.

(** [s] starts with the literal [pattern], compared under the [i] flag. *)
Fixpoint startsWith_i (pattern s : jsstring) : option jsstring :=
  match pattern, s with
  | [], _ => Some s
  | a :: pattern', c :: s' =>
      if eqChar_i a c then startsWith_i pattern' s' else None
  | _ :: _, [] => None
  end.

(** [regex.test(s)] for a pattern without anchors: some position matches. *)
Fixpoint anywhere (matchAt : jsstring -> bool) (s : jsstring) : bool :=
  matchAt s ||
  match s with
  | [] => false
  | _ :: s' => anywhere matchAt s'
  end.

(** One match of a global regular expression: [index], the end
    [index + match[0].length], and the captured group. *)
Record Match := {
  m_start : nat;
  m_end : nat;
  m_group : jsstring
}.

(** The loop [while ((m = regex.exec(s)) !== null)] of a regular expression
    with the [g] flag: [matchAt] tells whether the pattern matches at the
    head of its argument, with the length of the match and the captured
    group.  After a match the search resumes at its end ([lastIndex]):
    [skip] counts the code units of the current match still to be passed.
    The patterns of this program never match the empty string. *)
Fixpoint execAll (matchAt : jsstring -> option (nat * jsstring))
    (s : jsstring) (pos skip : nat) : list Match :=
  match s with
  | [] => []
  | _ :: s' =>
      match skip with
      | S skip' => execAll matchAt s' (S pos) skip'
      | O =>
          match matchAt s with
          | Some (len, group) =>
              {| m_start := pos; m_end := pos + len; m_group := group |}
                :: execAll matchAt s' (S pos) (len - 1)
          | None => execAll matchAt s' (S pos) 0
          end
      end
  end.

(** [a < b] on strings: the first code unit that differs decides, and a
    proper prefix is smaller. *)
Fixpoint ltString (a b : jsstring) : bool :=
  match a, b with
  | _, [] => false
  | [], _ :: _ => true
  | x :: a', y :: b' =>
      if (x <? y)%N then true else if (y <? x)%N then false else ltString a' b'
  end.


End Js.

(** ** Dates: the time value of a [Date] and its calendar fields *)

Module JsDate.

Local Open Scope Z_scope.

Definition msPerDay : Z := 86400000.

Definition Day (t : Z) : Z := t / msPerDay.
Definition TimeWithinDay (t : Z) : Z := t mod msPerDay.

Definition DaysInYear (y : Z) : Z :=
  if negb (y mod 4 =? 0) then 365
  else if negb (y mod 100 =? 0) then 366
  else if negb (y mod 400 =? 0) then 365
  else 366.

Definition DayFromYear (y : Z) : Z :=
  365 * (y - 1970) + (y - 1969) / 4 - (y - 1901) / 100 + (y - 1601) / 400.

Definition TimeFromYear (y : Z) : Z := msPerDay * DayFromYear y.

(** The largest [y] with [TimeFromYear y <= t], from an estimate that is
    off by at most one (lemma [YearFromTime_spec]). *)
Definition YearFromTime (t : Z) : Z :=
  let y0 := 1970 + (Day t * 400) / 146097 in
  if DayFromYear (y0 + 1) <=? Day t then y0 + 1
  else if DayFromYear y0 <=? Day t then y0
  else y0 - 1.

Definition InLeapYear (t : Z) : Z :=
  if DaysInYear (YearFromTime t) =? 366 then 1 else 0.

Definition DayWithinYear (t : Z) : Z := Day t - DayFromYear (YearFromTime t).

(** The day within the year on which month [m] (0 to 11) starts;
    [leap] is 1 in a leap year. *)
Definition monthStart (m leap : Z) : Z :=
  match m with
  | 0 => 0
  | 1 => 31
  | 2 => 59 + leap
  | 3 => 90 + leap
  | 4 => 120 + leap
  | 5 => 151 + leap
  | 6 => 181 + leap
  | 7 => 212 + leap
  | 8 => 243 + leap
  | 9 => 273 + leap
  | 10 => 304 + leap
  | _ => 334 + leap
  end.

(** The month (0 to 11) of day [d] within a year. *)
Definition monthOfDay (d leap : Z) : Z :=
  if d <? 31 then 0
  else if d <? 59 + leap then 1
  else if d <? 90 + leap then 2
  else if d <? 120 + leap then 3
  else if d <? 151 + leap then 4
  else if d <? 181 + leap then 5
  else if d <? 212 + leap then 6
  else if d <? 243 + leap then 7
  else if d <? 273 + leap then 8
  else if d <? 304 + leap then 9
  else if d <? 334 + leap then 10
  else 11.

Definition MonthFromTime (t : Z) : Z := monthOfDay (DayWithinYear t) (InLeapYear t).

Definition DateFromTime (t : Z) : Z :=
  DayWithinYear t - monthStart (MonthFromTime t) (InLeapYear t) + 1.

(** [MakeDay]: the day number of the first of the month, plus [date - 1]. *)
Definition MakeDay (year month date : Z) : Z :=
  let ym := year + month / 12 in
  let mn := month mod 12 in
  let leap := if DaysInYear ym =? 366 then 1 else 0 in
  DayFromYear ym + monthStart mn leap + date - 1.

Definition MakeDate (day time : Z) : Z := day * msPerDay + time.

(** A time value outside the range of [Date] makes the date invalid. *)
Definition TimeClip (t : Z) : option Z :=
  if Z.abs t <=? 8640000000000000 then Some t else None.

(** The local time zone of the host: the offset from UTC, in milliseconds,
    in force at a UTC time value and at a local time value. *)
Record TimeZone := {
  offsetAtUTC : Z -> Z;
  offsetAtLocal : Z -> Z
}.

Definition LocalTime (tz : TimeZone) (t : Z) : Z := t + offsetAtUTC tz t.
Definition UTC (tz : TimeZone) (t : Z) : Z := t - offsetAtLocal tz t.

(** [d.getDate()] *)
Definition getDate (tz : TimeZone) (t : Z) : Z := DateFromTime (LocalTime tz t).

(** [d.setDate(date)]: the new time value, if it is in range. *)
Definition setDate (tz : TimeZone) (t date : Z) : option Z :=
  let lt := LocalTime tz t in
  let newDate :=
    MakeDate (MakeDay (YearFromTime lt) (MonthFromTime lt) date) (TimeWithinDay lt) in
  TimeClip (UTC tz newDate).

(** The digits of [n], at least [width] of them ([n >= 0]). *)
Fixpoint digits (width : nat) (n : Z) : Js.jsstring :=
  match width with
  | O => []
  | S width' => digits width' (n / 10) ++ [Z.to_N (48 + n mod 10)]
  end.

(** The year of [toISOString]: four digits from 0 to 9999, otherwise a sign
    and six digits. *)
Definition isoYear (y : Z) : Js.jsstring :=
  if (0 <=? y) && (y <=? 9999) then digits 4 y
  else (if y <? 0 then 45%N else 43%N) :: digits 6 (Z.abs y).

(** [YYYY-MM-DD] *)
Definition isoDate (t : Z) : Js.jsstring :=
  isoYear (YearFromTime t) ++ [45%N] ++ digits 2 (MonthFromTime t + 1)
    ++ [45%N] ++ digits 2 (DateFromTime t).

(** [d.toISOString()]: [YYYY-MM-DDTHH:mm:ss.sssZ], in UTC. *)
Definition toISOString (t : Z) : Js.jsstring :=
  let ms := TimeWithinDay t in
  isoDate t ++ [84%N] ++ digits 2 (ms / 3600000) ++ [58%N]
    ++ digits 2 (ms / 60000 mod 60) ++ [58%N]
    ++ digits 2 (ms / 1000 mod 60) ++ [46%N]
    ++ digits 3 (ms mod 1000) ++ [90%N].

(** Calendar dates, for stating what the program computes. *)
Record CivilDate := {
  year : Z;
  month : Z;   (* 1 to 12 *)
  day : Z      (* 1 to 31 *)
}.

Definition civil (t : Z) : CivilDate :=
  {| year := YearFromTime t; month := MonthFromTime t + 1; day := DateFromTime t |}.

Definition isLeapYear (y : Z) : bool :=
  ((y mod 4 =? 0) && negb (y mod 100 =? 0)) || (y mod 400 =? 0).

Definition daysInMonth (y m : Z) : Z :=
  match m with
  | 2 => if isLeapYear y then 29 else 28
  | 4 | 6 | 9 | 11 => 30
  | _ => 31
  end.

(** The calendar date one day before [d]. *)
Definition previousDay (d : CivilDate) : CivilDate :=
  if 1 <? day d then {| year := year d; month := month d; day := day d - 1 |}
  else if 1 <? month d then
    {| year := year d; month := month d - 1;
       day := daysInMonth (year d) (month d - 1) |}
  else {| year := year d - 1; month := 12; day := 31 |}.

Definition formatDate (d : CivilDate) : Js.jsstring :=
  isoYear (year d) ++ [45%N] ++ digits 2 (month d) ++ [45%N] ++ digits 2 (day d).

(** A zone with the same offset all year; [utc] is the zone of the
    container image. *)
Definition fixedZone (offset : Z) : TimeZone :=
  {| offsetAtUTC := fun _ => offset; offsetAtLocal := fun _ => offset |}.

Definition utc : TimeZone := fixedZone 0.

(** Central European time around the end of summer time in 2024: UTC+2
    until 2024-10-27T01:00:00Z (03:00 local summer time), UTC+1 after. *)
Definition cetAutumn2024 : TimeZone :=
  {| offsetAtUTC := fun t => if t <? 1729990800000 then 7200000 else 3600000;
     offsetAtLocal := fun t => if t <? 1729998000000 then 7200000 else 3600000 |}.

(** Calendar dates in order, and the dates that [YYYY-MM-DD] holds in
    four, two and two digits. *)
Definition earlier (a b : CivilDate) : Prop :=
  year a < year b \/
  (year a = year b /\ (month a < month b \/ (month a = month b /\ day a < day b))).

Definition plain (d : CivilDate) : Prop :=
  0 <= year d <= 9999 /\ 0 <= month d <= 99 /\ 0 <= day d <= 99.


End JsDate.

(** ** The announcement parser: [services/messageParser.ts] *)

Module Parser.

Import Js.

(** A function returns a value or throws. *)
Inductive Outcome (A : Type) : Type :=
  | Returns (a : A)
  | Throws (error : String.string).
Arguments Returns {A} a.
Arguments Throws {A} error.

(** A player reference of a result row: [discordId] is [undefined] for a
    plain [@name]. *)
Record PlayerRef := {
  ref_discordId : option jsstring;
  ref_username : jsstring
}.

Record ParsedRow := {
  row_guessCount : Z;   (* 1-6 for success, 7 for failed (x/6) *)
  row_players : list PlayerRef
}.

Record UnresolvedPlayerResult := {
  u_discordId : option jsstring;
  u_username : jsstring;
  u_guessCount : Z
}.

Record UnresolvedDailyResults := {
  u_gameDate : jsstring;
  u_wordleNumber : option Z;
  u_results : list UnresolvedPlayerResult
}.

(** What the parser reads of a Discord message; [createdAt] is the time
    value of the timestamp, in milliseconds since the epoch. *)
Record Message := {
  authorId : jsstring;
  content : jsstring;
  createdAt : Z
}.

(** [/<@!?(\d+)>/] at the head of [s]: the length of the match and the
    digits. *)
Definition matchMention (s : jsstring) : option (nat * jsstring) :=
  match s with
  | c0 :: c1 :: s1 =>
      if ((c0 =? 60) && (c1 =? 64))%N then                      (* <@ *)
        let bang := match s1 with c2 :: _ => (c2 =? 33)%N | [] => false end in
        let s2 := if bang then drop 1 s1 else s1 in             (* !? *)
        let ds := takeWhile isDigit s2 in                       (* \d+ *)
        match ds, drop (length ds) s2 with
        | _ :: _, c :: _ =>
            if (c =? 62)%N                                      (* > *)
            then Some ((2 + (if bang then 1 else 0) + length ds + 1)%nat, ds)
            else None
        | _, _ => None
        end
      else None
  | _ => None
  end.

(** [/@(\w+)/] at the head of [s]. *)
Definition matchUsername (s : jsstring) : option (nat * jsstring) :=
  match s with
  | c0 :: s1 =>
      if (c0 =? 64)%N then                                      (* @ *)
        match takeWhile isWord s1 with                          (* \w+ *)
        | [] => None
        | ws => Some ((1 + length ws)%nat, ws)
        end
      else None
  | [] => None
  end.

(** [mentionPositions.some(pos => matchStart >= pos.start && matchEnd <= pos.end)] *)
Definition isInsideMention (mentionPositions : list Match) (usernameMatch : Match) : bool :=
  existsb (fun pos =>
             (m_start pos <=? m_start usernameMatch)%nat
             && (m_end usernameMatch <=? m_end pos)%nat)
          mentionPositions.

(** The two loops of [parseResultRow] over the players section. *)
Definition mentionsOf (playersSection : jsstring) : list Match :=
  execAll matchMention playersSection 0 0.

Definition usernamesOf (playersSection : jsstring) : list Match :=
  execAll matchUsername playersSection 0 0.

Definition extractPlayers (playersSection : jsstring) : list PlayerRef :=
  let mentionPositions := mentionsOf playersSection in
  let mentioned :=
    map (fun m => {| ref_discordId := Some (m_group m); ref_username := [] |})
        mentionPositions in
  let plain :=
    List.filter (fun u => negb (isInsideMention mentionPositions u))
           (usernamesOf playersSection) in
  mentioned
    ++ map (fun u => {| ref_discordId := None; ref_username := m_group u |}) plain.

(** The optional group at the start of a row: a crown, the surrogate pair
    D83D DC51, and the white space after it. *)
Definition afterCrown (row : jsstring) : jsstring :=
  match row with
  | c0 :: c1 :: rest =>
      if ((c0 =? 55357) && (c1 =? 56401))%N then dropWhile isSpace rest else row
  | _ => row
  end.

(** [[1-6x]] under the [i] flag. *)
Definition isGuessChar (c : N) : bool := inRange 49 54 c || eqChar_i 120 c.

(** [guessStr === 'x' ? 7 : parseInt(guessStr, 10)], on the lower-cased
    character. *)
Definition guessCountOf (c : N) : Z :=
  if eqChar_i 120 c then 7 else Z.of_N c - 48.

(** After the colon: white space, then the players section [(.+)] up to
    the end of the row.  The greedy white space gives a character back only
    when nothing but white space follows the colon. *)
Definition playersSectionOf (rest : jsstring) : option jsstring :=
  match dropWhile isSpace rest with
  | [] =>
      match last rest with
      | Some c => if isLineTerminator c then None else Some [c]
      | None => None
      end
  | section =>
      if forallb (fun c => negb (isLineTerminator c)) section
      then Some section else None
  end.

(** The row pattern, anchored at both ends and under the [i] flag: the
    optional crown group, the guess character [[1-6x]], the literal [/6:],
    then the players section.  It gives the guess character and the players
    section. *)
Definition matchRow (row : jsstring) : option (N * jsstring) :=
  match afterCrown row with
  | c :: c1 :: c2 :: c3 :: rest =>
      if isGuessChar c && ((c1 =? 47) && (c2 =? 54) && (c3 =? 58))%N then   (* /6: *)
        match playersSectionOf rest with
        | Some section => Some (c, section)
        | None => None
        end
      else None
  | _ => None
  end.

Definition parseResultRow (row : jsstring) : option ParsedRow :=
  match matchRow row with
  | None => None
  | Some (guessChar, playersSection) =>
      let guessCount := guessCountOf guessChar in
      let players := extractPlayers playersSection in
      match players with
      | [] => None
      | _ => Some {| row_guessCount := guessCount; row_players := players |}
      end
  end.

(** [PATTERNS.streakLine] at the head of [s]. *)
Definition matchStreakLine (s : jsstring) : bool :=
  match startsWith_i (lit "**Your group is on a") s with
  | Some s1 =>
      let s2 :=
        match s1 with
        | c :: s2 => if eqChar_i 110 c then s2 else s1
        | [] => s1
        end in
      match s2 with
      | c :: s3 =>
          if (c =? 32)%N then
            match takeWhile isDigit s3 with
            | [] => false
            | ds =>
                match startsWith_i (lit " day streak!**") (drop (length ds) s3) with
                | Some _ => true
                | None => false
                end
            end
          else false
      | [] => false
      end
  | None => false
  end.

(** [/[1-6x]\/6:/i] at the head of [s]. *)
Definition matchResultMarker (s : jsstring) : bool :=
  match s with
  | c :: c1 :: c2 :: c3 :: _ =>
      isGuessChar c && ((c1 =? 47) && (c2 =? 54) && (c3 =? 58))%N
  | _ => false
  end.

Definition containsWordleResults (content : jsstring) : bool :=
  anywhere matchStreakLine content && anywhere matchResultMarker content.

(** The body of the loop of [parseResultRows] for one line. *)
Definition parseLine (line : jsstring) : list UnresolvedPlayerResult :=
  let trimmedLine := trim line in
  match trimmedLine with
  | [] => []
  | _ =>
      if anywhere matchStreakLine trimmedLine then []
      else if negb (anywhere matchResultMarker trimmedLine) then []
      else
        match parseResultRow trimmedLine with
        | None => []
        | Some parsedRow =>
            map (fun player =>
                   {| u_discordId := ref_discordId player;
                      u_username := ref_username player;
                      u_guessCount := row_guessCount parsedRow |})
                (row_players parsedRow)
        end
  end.

Definition parseResultRows (content : jsstring) : list UnresolvedPlayerResult :=
  concat (map parseLine (split 10 content)).

(** The game date of [parseWordleMessage]:
    [messageDate.setDate(messageDate.getDate() - 1)] in the local zone of
    the host, then the part of [toISOString()] before the ['T'].
    [toISOString] throws a RangeError on an invalid date. *)
Definition gameDateOf (tz : JsDate.TimeZone) (createdAt : Z) : Outcome jsstring :=
  match JsDate.setDate tz createdAt (JsDate.getDate tz createdAt - 1) with
  | Some messageDate =>
      match split 84 (JsDate.toISOString messageDate) with
      | date :: _ => Returns date
      | [] => Returns []
      end
  | None => Throws "RangeError: Invalid time value"
  end.

Definition parseWordleMessage (tz : JsDate.TimeZone) (message : Message)
    : Outcome (option UnresolvedDailyResults) :=
  if negb (containsWordleResults (content message)) then Returns None
  else
    let results := parseResultRows (content message) in
    match results with
    | [] => Returns None
    | _ =>
        match gameDateOf tz (createdAt message) with
        | Throws e => Throws e
        | Returns gameDate =>
            Returns (Some {| u_gameDate := gameDate;
                             u_wordleNumber := None;
                             u_results := results |})
        end
    end.

(** Spans: two matches overlap when they share a code unit. *)
Definition overlaps (a b : Match) : bool :=
  (m_start a <? m_end b)%nat && (m_start b <? m_end a)%nat.

(** The mention token of an id, with or without the [!] of a nickname
    mention. *)
Definition mentionToken (bang : bool) (digits : jsstring) : jsstring :=
  [60%N; 64%N] ++ (if bang then [33%N] else []) ++ digits ++ [62%N].

(** A players section made of mention tokens only: each token is followed
    by a separator. *)
Fixpoint mentionsOnly (tokens : list (bool * jsstring * jsstring)) : jsstring :=
  match tokens with
  | [] => []
  | (bang, digits, separator) :: tokens' =>
      mentionToken bang digits ++ separator ++ mentionsOnly tokens'
  end.

(** Its tokens are well formed: the ids are digits, at least one, and the
    separators have no [@]. *)
Definition wellFormedToken (token : bool * jsstring * jsstring) : Prop :=
  let '(_, digits, separator) := token in
  digits <> [] /\ forallb isDigit digits = true /\ ~ In 64%N separator.

(** The matches of the mention pattern in such a section that starts at
    offset [pos]. *)
Fixpoint tokenMatches (pos : nat) (tokens : list (bool * jsstring * jsstring)) : list Match :=
  match tokens with
  | [] => []
  | (bang, digits, separator) :: tokens' =>
      let len := length (mentionToken bang digits) in
      {| m_start := pos; m_end := pos + len; m_group := digits |}
        :: tokenMatches (pos + len + length separator) tokens'
  end.

(** The players pushed by the two loops of [parseResultRow]. *)
Definition mentionedPlayer (m : Match) : PlayerRef :=
  {| ref_discordId := Some (m_group m); ref_username := [] |}.

Definition plainPlayer (u : Match) : PlayerRef :=
  {| ref_discordId := None; ref_username := m_group u |}.

(** The plain-name matches that [parseResultRow] keeps. *)
Definition keptUsernames (playersSection : jsstring) : list Match :=
  List.filter (fun u => negb (isInsideMention (mentionsOf playersSection) u))
              (usernamesOf playersSection).

(** [validateFreshResults]: the dates are compared as strings; a missing or
    empty last date counts as older than any. *)
Definition validateFreshResults (gameDate : jsstring) (lastProcessedDate : option jsstring)
    : bool :=
  match lastProcessedDate with
  | None | Some [] => true
  | Some last => ltString last gameDate
  end.


End Parser.

(** ** Date utilities: [utils/date.ts] *)

Module DateUtil.

Import Js JsDate.
Import Parser (Outcome, Returns, Throws).

Local Open Scope Z_scope.

(** [formatDate(date)]: the part of [toISOString()] before the ['T'];
    [date] is the time value, none for an invalid date, on which
    [toISOString] throws. *)
Definition formatDate (date : option Z) : Outcome jsstring :=
  match date with
  | Some t =>
      match split 84 (toISOString t) with
      | day :: _ => Returns day
      | [] => Returns []
      end
  | None => Throws "RangeError: Invalid time value"
  end.

(** [getTodayDate()], with [new Date()] at the time value [now]. *)
Definition getTodayDate (now : Z) : jsstring :=
  match split 84 (toISOString now) with
  | day :: _ => day
  | [] => []
  end.

(** [getDaysAgo(days)], with [new Date()] at the time value [now]. *)
Definition getDaysAgo (tz : TimeZone) (now days : Z) : Outcome jsstring :=
  formatDate (setDate tz now (getDate tz now - days)).

End DateUtil.

(** ** The database: [database/playerRepository.ts], [database/gameRepository.ts] *)

Module Repo.

Import Js.
Export Parser (Outcome, Returns, Throws).

Local Open Scope Z_scope.

(** A row of [players].  The columns [created_at] and [updated_at], which
    hold the wall-clock time of the write, are left out. *)
Record Player := {
  id : Z;
  discordId : jsstring;
  username : jsstring;
  discriminator : jsstring;
  elo : Z;
  totalGames : Z;
  totalWins : Z;
  totalCrowns : Z;
  totalGuesses : Z;
  lastPlayed : option jsstring;
  consecutiveInactiveDays : Z;
  isActive : bool
}.

Record CreatePlayerData := {
  new_discordId : jsstring;
  new_username : jsstring;
  new_discriminator : jsstring
}.

(** A row of [games]. *)
Record GameRecord := {
  game_id : Z;
  game_playerId : Z;
  game_guessCount : Z;
  game_gameDate : jsstring;
  game_wordleNumber : option Z;
  game_eloChange : Z;
  game_eloBefore : Z;
  game_eloAfter : Z
}.

(** A row of [elo_history] and of [daily_summaries] (their row ids are never
    read). *)
Record EloHistoryRow := {
  hist_playerId : Z;
  hist_elo : Z;
  hist_gameDate : jsstring
}.

Record DailySummary := {
  sum_gameDate : jsstring;
  sum_wordleNumber : option Z;
  sum_participantsCount : Z;
  sum_highestEloPlayerId : option Z;
  sum_lowestEloPlayerId : option Z
}.

(** The tables, in insertion order, and the AUTOINCREMENT counters of the
    tables whose row ids are read. *)
Record Database := {
  players : list Player;
  games : list GameRecord;
  elo_history : list EloHistoryRow;
  daily_summaries : list DailySummary;
  players_seq : Z;
  games_seq : Z
}.

(** A repository call reads and writes the database and returns or throws;
    a write made before a throw stays (there is no transaction). *)
Definition M (A : Type) : Type := Database -> Outcome A * Database.

Definition ret {A} (a : A) : M A := fun db => (Returns a, db).

Definition raise {A} (error : String.string) : M A := fun db => (Throws error, db).

Definition bind {A B} (c : M A) (k : A -> M B) : M B :=
  fun db =>
    match c db with
    | (Returns a, db') => k a db'
    | (Throws e, db') => (Throws e, db')
    end.

(** A statement that only writes. *)
Definition exec (write : Database -> Database) : M unit :=
  fun db => (Returns tt, write db).

(** A query. *)
Definition query {A} (read : Database -> A) : M A :=
  fun db => (Returns (read db), db).

Definition withPlayers (f : list Player -> list Player) (db : Database) : Database :=
  {| players := f (players db); games := games db;
     elo_history := elo_history db; daily_summaries := daily_summaries db;
     players_seq := players_seq db; games_seq := games_seq db |}.

(** [UPDATE players SET ... WHERE id = ?] *)
Definition updatePlayer (playerId : Z) (set : Player -> Player) (db : Database) : Database :=
  withPlayers (map (fun p => if id p =? playerId then set p else p)) db.

Definition sameString (a b : jsstring) : bool := bool_decide (a = b).

Definition getPlayerByDiscordId (discordId0 : jsstring) (db : Database) : option Player :=
  List.find (fun p => sameString (discordId p) discordId0) (players db).

Definition getPlayerById (playerId : Z) (db : Database) : option Player :=
  List.find (fun p => id p =? playerId) (players db).

(** [createPlayer]: the insert fails on a discord id that is taken
    ([discord_id TEXT UNIQUE]); the row read back by [getPlayerById] is the
    row just inserted, under its new row id. *)
Definition createPlayer (data : CreatePlayerData) (defaultElo : Z) : M Player :=
  fun db =>
    match getPlayerByDiscordId (new_discordId data) db with
    | Some _ => (Throws "SQLITE_CONSTRAINT_UNIQUE", db)
    | None =>
        let row :=
          {| id := players_seq db + 1;
             discordId := new_discordId data;
             username := new_username data;
             discriminator := new_discriminator data;
             elo := defaultElo;
             totalGames := 0; totalWins := 0; totalCrowns := 0; totalGuesses := 0;
             lastPlayed := None;
             consecutiveInactiveDays := 0;
             isActive := true |} in
        (Returns row,
         {| players := players db ++ [row]; games := games db;
            elo_history := elo_history db; daily_summaries := daily_summaries db;
            players_seq := players_seq db + 1; games_seq := games_seq db |})
    end.

Definition setUsername (username0 : jsstring) (p : Player) : Player :=
  {| id := id p; discordId := discordId p; username := username0;
     discriminator := discriminator p; elo := elo p;
     totalGames := totalGames p; totalWins := totalWins p;
     totalCrowns := totalCrowns p; totalGuesses := totalGuesses p;
     lastPlayed := lastPlayed p;
     consecutiveInactiveDays := consecutiveInactiveDays p;
     isActive := isActive p |}.

Definition updatePlayerUsername (playerId : Z) (username0 : jsstring) : M unit :=
  exec (updatePlayer playerId (setUsername username0)).

Definition getOrCreatePlayer (data : CreatePlayerData) (defaultElo : Z) : M Player :=
  fun db =>
    match getPlayerByDiscordId (new_discordId data) db with
    | Some existing =>
        if negb (sameString (username existing) (new_username data)) then
          bind (updatePlayerUsername (id existing) (new_username data))
               (fun _ => ret (setUsername (new_username data) existing)) db
        else (Returns existing, db)
    | None => createPlayer data defaultElo db
    end.

Definition afterGame (guessCount newElo : Z) (gameDate : jsstring)
    (hasCrown : bool) (p : Player) : Player :=
  let isWin := guessCount <=? 6 in
  {| id := id p; discordId := discordId p; username := username p;
     discriminator := discriminator p;
     elo := newElo;
     totalGames := totalGames p + 1;
     totalWins := totalWins p + (if isWin then 1 else 0);
     totalCrowns := totalCrowns p + (if hasCrown then 1 else 0);
     totalGuesses := totalGuesses p + guessCount;
     lastPlayed := Some gameDate;
     consecutiveInactiveDays := 0;
     isActive := true |}.

Definition updatePlayerAfterGame (playerId guessCount newElo : Z)
    (gameDate : jsstring) (hasCrown : bool) : M unit :=
  exec (updatePlayer playerId (afterGame guessCount newElo gameDate hasCrown)).

(** [SELECT COUNT( * ) FROM games WHERE player_id = ? AND game_date = ?] *)
Definition hasGameRecord (playerId : Z) (gameDate : jsstring) (db : Database) : bool :=
  existsb (fun g => (game_playerId g =? playerId) && sameString (game_gameDate g) gameDate)
          (games db).

(** [recordGame]: the insert fails when the player already has a row for
    the date ([UNIQUE(player_id, game_date)]).  The foreign key on
    [player_id] is not checked. *)
Definition recordGame (playerId guessCount : Z) (gameDate : jsstring)
    (eloBefore eloAfter : Z) (wordleNumber : option Z) : M GameRecord :=
  fun db =>
    let eloChange := eloAfter - eloBefore in
    if hasGameRecord playerId gameDate db then (Throws "SQLITE_CONSTRAINT_UNIQUE", db)
    else
      let row :=
        {| game_id := games_seq db + 1;
           game_playerId := playerId;
           game_guessCount := guessCount;
           game_gameDate := gameDate;
           game_wordleNumber := wordleNumber;
           game_eloChange := eloChange;
           game_eloBefore := eloBefore;
           game_eloAfter := eloAfter |} in
      (Returns row,
       {| players := players db; games := games db ++ [row];
          elo_history := elo_history db; daily_summaries := daily_summaries db;
          players_seq := players_seq db; games_seq := games_seq db + 1 |}).

Definition recordEloHistory (playerId elo0 : Z) (gameDate : jsstring) : M unit :=
  exec (fun db =>
    {| players := players db; games := games db;
       elo_history := elo_history db
         ++ [{| hist_playerId := playerId; hist_elo := elo0; hist_gameDate := gameDate |}];
       daily_summaries := daily_summaries db;
       players_seq := players_seq db; games_seq := games_seq db |}).

(** [INSERT OR REPLACE INTO daily_summaries]: a row of the same date is
    replaced ([game_date TEXT UNIQUE]).  The foreign keys on the two player
    ids are not checked. *)
Definition saveDailySummary (gameDate : jsstring) (participantsCount : Z)
    (highestEloPlayerId lowestEloPlayerId : option Z) (wordleNumber : option Z) : M unit :=
  exec (fun db =>
    {| players := players db; games := games db; elo_history := elo_history db;
       daily_summaries :=
         List.filter (fun r => negb (sameString (sum_gameDate r) gameDate)) (daily_summaries db)
         ++ [{| sum_gameDate := gameDate; sum_wordleNumber := wordleNumber;
                sum_participantsCount := participantsCount;
                sum_highestEloPlayerId := highestEloPlayerId;
                sum_lowestEloPlayerId := lowestEloPlayerId |}];
       players_seq := players_seq db; games_seq := games_seq db |}).

Definition isDailyResultsProcessed (gameDate : jsstring) (db : Database) : bool :=
  existsb (fun r => sameString (sum_gameDate r) gameDate) (daily_summaries db).

(** [getPlayersWhoDidntPlay] *)
Definition getPlayersWhoDidntPlay (gameDate : jsstring) (db : Database) : list Player :=
  List.filter (fun p => negb (hasGameRecord (id p) gameDate db)) (players db).

Definition incrementInactiveDays (playerId : Z) : M unit :=
  exec (updatePlayer playerId (fun p =>
    {| id := id p; discordId := discordId p; username := username p;
       discriminator := discriminator p; elo := elo p;
       totalGames := totalGames p; totalWins := totalWins p;
       totalCrowns := totalCrowns p; totalGuesses := totalGuesses p;
       lastPlayed := lastPlayed p;
       consecutiveInactiveDays := consecutiveInactiveDays p + 1;
       isActive := isActive p |})).

Definition markPlayerInactive (playerId : Z) : M unit :=
  exec (updatePlayer playerId (fun p =>
    {| id := id p; discordId := discordId p; username := username p;
       discriminator := discriminator p; elo := elo p;
       totalGames := totalGames p; totalWins := totalWins p;
       totalCrowns := totalCrowns p; totalGuesses := totalGuesses p;
       lastPlayed := lastPlayed p;
       consecutiveInactiveDays := consecutiveInactiveDays p;
       isActive := false |})).

(** [getHighestEloPlayers]: the active players at the maximum rating of the
    active players. *)
Definition getHighestEloPlayers (db : Database) : list Player :=
  let active := List.filter isActive (players db) in
  List.filter (fun p => forallb (fun q => elo q <=? elo p) active) active.

(** [getLowestEloPlayers]: among the active players with a game. *)
Definition getLowestEloPlayers (db : Database) : list Player :=
  let ranked := List.filter (fun p => isActive p && (0 <? totalGames p)) (players db) in
  List.filter (fun p => forallb (fun q => elo p <=? elo q) ranked) ranked.

(** [getPlayerRank]: 0 for an unknown id, otherwise one more than the
    number of players with a strictly higher rating. *)
Definition getPlayerRank (playerId : Z) (db : Database) : Z :=
  match getPlayerById playerId db with
  | None => 0
  | Some player =>
      Z.of_nat (length (List.filter (fun q => elo player <? elo q) (players db))) + 1
  end.

(** [getParticipantCountForDate] *)
Definition getParticipantCountForDate (gameDate : jsstring) (db : Database) : Z :=
  Z.of_nat (length (List.filter (fun g => sameString (game_gameDate g) gameDate) (games db))).

(** The constraints of the schema, for stating what the program keeps:
    player ids are distinct and come from the counter, discord ids are
    unique, a player has at most one game per date, the games belong to ids
    that the counter has handed out, and a date has at most one summary. *)
Record wellFormed (db : Database) : Prop := {
  wf_ids : NoDup (map id (players db));
  wf_seq : Forall (fun p => id p <= players_seq db) (players db);
  wf_discordIds : NoDup (map discordId (players db));
  wf_games : NoDup (map (fun g => (game_playerId g, game_gameDate g)) (games db));
  wf_owners : Forall (fun g => game_playerId g <= players_seq db) (games db);
  wf_summaries : NoDup (map sum_gameDate (daily_summaries db))
}.


End Repo.

(** ** The daily pipeline: [processDailyResults] and the message handler *)

Module Pipeline.

Import Js Repo.
Import Elo (EloConfig, kFactor, defaultRating, Participant, playerId, currentElo,
            guessCount, calculatePairwiseElo).

Local Open Scope Z_scope.

Notation "'let*' x ':=' c 'in' k" := (bind c (fun x => k))
  (at level 10, x name, c at level 100, k at level 200).

(** A resolved result of the announcement.  [hasCrown] is read by
    [processDailyResults]; [resolveUsernames] leaves it undefined, which
    counts as false. *)
Record ParsedPlayerResult := {
  res_discordId : jsstring;
  res_username : jsstring;
  res_guessCount : Z;
  res_hasCrown : bool
}.

Record DailyResults := {
  gameDate : jsstring;
  wordleNumber : option Z;
  results : list ParsedPlayerResult
}.

Record EloCalculationResult := {
  calc_playerId : Z;
  calc_discordId : jsstring;
  previousElo : Z;
  newElo : Z;
  eloChange : Z;
  calc_guessCount : Z
}.

(** An entry of [playerMap]. *)
Record PlayerData := {
  data_discordId : jsstring;
  data_guessCount : Z;
  data_previousElo : Z;
  data_hasCrown : bool
}.

(** The first loop of [processDailyResults]: get or create the players and
    collect the participants that have no record for the date yet. *)
Fixpoint collectParticipants (results0 : list ParsedPlayerResult)
    (gameDate0 : jsstring) (config : EloConfig)
    (participants : list Participant) (playerMap : gmap Z PlayerData)
    : M (list Participant * gmap Z PlayerData) :=
  match results0 with
  | [] => ret (participants, playerMap)
  | result :: results' =>
      let* player :=
        getOrCreatePlayer
          {| new_discordId := res_discordId result;
             new_username := res_username result;
             new_discriminator := lit "0" |}
          (defaultRating config) in
      let* recorded := query (hasGameRecord (id player) gameDate0) in
      if (recorded : bool) then
        collectParticipants results' gameDate0 config participants playerMap
      else
        collectParticipants results' gameDate0 config
          (participants ++
             [ {| playerId := id player;
                  currentElo := elo player;
                  guessCount := res_guessCount result |} ])
          (<[ id player :=
                {| data_discordId := res_discordId result;
                   data_guessCount := res_guessCount result;
                   data_previousElo := elo player;
                   data_hasCrown := res_hasCrown result |} ]> playerMap)
  end.

(** The second loop: apply the changes and record the games. *)
Fixpoint applyChanges (participants : list Participant)
    (playerMap : gmap Z PlayerData) (eloChanges : gmap Z Z)
    (gameDate0 : jsstring) (wordleNumber0 : option Z)
    (calculationResults : list EloCalculationResult)
    : M (list EloCalculationResult) :=
  match participants with
  | [] => ret calculationResults
  | participant :: participants' =>
      match playerMap !! playerId participant with
      | None => raise "TypeError"
      | Some playerData =>
          let eloChange0 := default 0 (eloChanges !! playerId participant) in
          let newElo0 := currentElo participant + eloChange0 in
          let* _ :=
            updatePlayerAfterGame (playerId participant) (data_guessCount playerData)
              newElo0 gameDate0 (data_hasCrown playerData) in
          let* _ :=
            recordGame (playerId participant) (data_guessCount playerData)
              gameDate0 (currentElo participant) newElo0 wordleNumber0 in
          let* _ := recordEloHistory (playerId participant) newElo0 gameDate0 in
          applyChanges participants' playerMap eloChanges gameDate0 wordleNumber0
            (calculationResults ++
               [ {| calc_playerId := playerId participant;
                    calc_discordId := data_discordId playerData;
                    previousElo := currentElo participant;
                    newElo := newElo0;
                    eloChange := eloChange0;
                    calc_guessCount := data_guessCount playerData |} ])
      end
  end.

Definition processDailyResults (results0 : list ParsedPlayerResult)
    (gameDate0 : jsstring) (config : EloConfig) (wordleNumber0 : option Z)
    : M (list EloCalculationResult) :=
  let* collected := collectParticipants results0 gameDate0 config [] ∅ in
  let '(participants, playerMap) := collected in
  match participants with
  | [] => ret []
  | _ =>
      let eloChanges := calculatePairwiseElo participants config in
      applyChanges participants playerMap eloChanges gameDate0 wordleNumber0 []
  end.

(** [services/activityService.ts] *)
Record ActivityUpdateResult := {
  playersMarkedInactive : Z;
  playersStillActive : Z
}.

Fixpoint activityLoop (playersWhoDidntPlay : list Player) (inactivityThreshold : Z)
    (marked still : Z) : M ActivityUpdateResult :=
  match playersWhoDidntPlay with
  | [] => ret {| playersMarkedInactive := marked; playersStillActive := still |}
  | player :: rest =>
      let* _ := incrementInactiveDays (id player) in
      let newInactiveDays := consecutiveInactiveDays player + 1 in
      if (inactivityThreshold <=? newInactiveDays) && isActive player then
        let* _ := markPlayerInactive (id player) in
        activityLoop rest inactivityThreshold (marked + 1) still
      else activityLoop rest inactivityThreshold marked (still + 1)
  end.

Definition updatePlayerActivity (gameDate0 : jsstring) (inactivityThreshold : Z)
    : M ActivityUpdateResult :=
  let* playersWhoDidntPlay := query (getPlayersWhoDidntPlay gameDate0) in
  activityLoop playersWhoDidntPlay inactivityThreshold 0 0.

(** [needsActivityUpdate], with [new Date()] at the time value [now]: the
    dates are compared as strings. *)
Definition needsActivityUpdate (lastUpdateDate : option jsstring) (now : Z) : bool :=
  match lastUpdateDate with
  | None | Some [] => true
  | Some last => ltString last (DateUtil.getTodayDate now)
  end.

(** The guild of a message, as [resolveUsernames] uses it: whether the
    member list can be fetched, the member of an id (none when the fetch
    throws), and the member that [guildMembers.find] returns for a plain
    name (the first whose user name, display name or nickname equals it,
    lower-cased). *)
Record Member := {
  member_id : jsstring;
  member_username : jsstring
}.

Record Guild := {
  fetchMembers : bool;
  fetchMember : jsstring -> option Member;
  findMember : jsstring -> option Member
}.

Definition resolveOne (guild : Guild) (result : Parser.UnresolvedPlayerResult)
    : list ParsedPlayerResult :=
  match Parser.u_discordId result with
  | Some (c :: cs) =>
      match fetchMember guild (c :: cs) with
      | Some member =>
          [ {| res_discordId := c :: cs;
               res_username := member_username member;
               res_guessCount := Parser.u_guessCount result;
               res_hasCrown := false |} ]
      | None => []
      end
  | _ =>
      match Parser.u_username result with
      | [] => []
      | name =>
          match findMember guild name with
          | Some member =>
              [ {| res_discordId := member_id member;
                   res_username := member_username member;
                   res_guessCount := Parser.u_guessCount result;
                   res_hasCrown := false |} ]
          | None => []
          end
      end
  end.

Definition resolveUsernames (results0 : list Parser.UnresolvedPlayerResult)
    (guild : option Guild) : list ParsedPlayerResult :=
  match guild with
  | None => []
  | Some g =>
      if fetchMembers g then concat (map (resolveOne g) results0) else []
  end.

Definition parseAndResolveWordleMessage (tz : JsDate.TimeZone)
    (message : Parser.Message) (guild : option Guild) : Outcome (option DailyResults) :=
  match Parser.parseWordleMessage tz message with
  | Throws e => Throws e
  | Returns None => Returns None
  | Returns (Some parsed) =>
      match resolveUsernames (Parser.u_results parsed) guild with
      | [] => Returns None
      | resolvedResults =>
          Returns (Some {| gameDate := Parser.u_gameDate parsed;
                           wordleNumber := Parser.u_wordleNumber parsed;
                           results := resolvedResults |})
      end
  end.

(** [events/messageCreate.ts] *)
Record BotConfig := {
  wordleBotId : jsstring;
  config_elo : EloConfig;   (* [config.elo] *)
  inactivityThreshold : Z
}.

(** How one run of the handler ends. *)
Inductive Handled :=
  | Ignored             (* not a message of the Wordle bot *)
  | NotParseable        (* no parseable ranked results *)
  | Skipped             (* results for the date already processed *)
  | NoCalculations      (* no ELO calculations performed *)
  | Processed (count : nat)
  | Failed (error : String.string).   (* caught and logged *)

(** A call that does not touch the database: it returns or throws. *)
Definition outside {A} (outcome : Outcome A) : M A := fun db => (outcome, db).

(** The part of the handler after the duplicate check.  [updateRoles]
    reads the database, talks to Discord and catches its own errors: it
    does not change the database.  [reply] is what building the embed and
    [await message.reply] do after the last write: they return, or throw
    into the [catch] of the handler. *)
Definition processAndSummarise (config : BotConfig) (dailyResults : DailyResults)
    (reply : Outcome unit) : M Handled :=
  let* eloResults :=
    processDailyResults (results dailyResults) (gameDate dailyResults)
      (config_elo config) (wordleNumber dailyResults) in
  match eloResults with
  | [] => ret NoCalculations
  | _ =>
      let* _ := updatePlayerActivity (gameDate dailyResults) (inactivityThreshold config) in
      let* highestPlayers := query getHighestEloPlayers in
      let* lowestPlayers := query getLowestEloPlayers in
      let* _ :=
        saveDailySummary (gameDate dailyResults) (Z.of_nat (length eloResults))
          (id <$> head highestPlayers) (id <$> head lowestPlayers)
          (wordleNumber dailyResults) in
      let* _ := outside reply in
      ret (Processed (length eloResults))
  end.

Definition onMessageCreate (clientUserId : option jsstring) (config : BotConfig)
    (tz : JsDate.TimeZone) (message : Parser.Message) (guild : option Guild)
    (reply : Outcome unit) (db : Database) : Handled * Database :=
  if bool_decide (Some (Parser.authorId message) = clientUserId) then (Ignored, db)
  else if negb (sameString (Parser.authorId message) (wordleBotId config)) then (Ignored, db)
  else
    match parseAndResolveWordleMessage tz message guild with
    | Throws e => (Failed e, db)
    | Returns None => (NotParseable, db)
    | Returns (Some dailyResults) =>
        if isDailyResultsProcessed (gameDate dailyResults) db then (Skipped, db)
        else
          match processAndSummarise config dailyResults reply db with
          | (Returns handled, db') => (handled, db')
          | (Throws e, db') => (Failed e, db')
          end
    end.

(** Example data: the source's sample announcement, posted on
    2024-03-10T08:00:00Z by the Wordle bot, a guild that knows its members,
    and a database in which player 1 has played on 2024-03-09. *)
Definition sampleConfig : BotConfig :=
  {| wordleBotId := lit "1211781489931452447";
     config_elo := Elo.config32;
     inactivityThreshold := 3 |}.

Definition sampleContent : jsstring :=
  lit "**Your group is on an 85 day streak!** Here are yesterday's results:"
  ++ [10%N] ++ [55357%N; 56401%N] ++ lit " 2/6: @brollen <@297641031401209857>"
  ++ [10%N] ++ lit "4/6: <@1232894750080761869>"
  ++ [10%N] ++ lit "x/6: <@123456789> (failed attempts)".

Definition sampleMessage : Parser.Message :=
  {| Parser.authorId := lit "1211781489931452447";
     Parser.content := sampleContent;
     Parser.createdAt := 1710057600000 |}.

Definition sampleGuild : Guild :=
  {| fetchMembers := true;
     fetchMember := fun i => Some {| member_id := i; member_username := lit "user" ++ i |};
     findMember := fun name =>
       if sameString name (lit "brollen")
       then Some {| member_id := lit "42"; member_username := lit "brollen" |}
       else None |}.

Definition samplePlayer : Player :=
  {| id := 1; discordId := lit "123456789"; username := lit "old";
     discriminator := lit "0"; elo := 1010;
     totalGames := 1; totalWins := 1; totalCrowns := 0; totalGuesses := 3;
     lastPlayed := Some (lit "2024-03-09");
     consecutiveInactiveDays := 0; isActive := true |}.

Definition sampleGame : GameRecord :=
  {| game_id := 1; game_playerId := 1; game_guessCount := 3;
     game_gameDate := lit "2024-03-09"; game_wordleNumber := None;
     game_eloChange := 10; game_eloBefore := 1000; game_eloAfter := 1010 |}.

(** The day's games are recorded but the summary is not. *)
Definition recordedDb : Database :=
  {| players := [samplePlayer]; games := [sampleGame];
     elo_history := [ {| hist_playerId := 1; hist_elo := 1010;
                         hist_gameDate := lit "2024-03-09" |} ];
     daily_summaries := [];
     players_seq := 1; games_seq := 1 |}.

(** The day is closed: its summary is there. *)
Definition closedDb : Database :=
  {| players := [samplePlayer]; games := [sampleGame];
     elo_history := elo_history recordedDb;
     daily_summaries :=
       [ {| sum_gameDate := lit "2024-03-09"; sum_wordleNumber := None;
            sum_participantsCount := 1;
            sum_highestEloPlayerId := Some 1; sum_lowestEloPlayerId := Some 1 |} ];
     players_seq := 1; games_seq := 1 |}.

(** Vocabulary of the proofs.  The rating with which a discord id enters a
    round that starts in [db]: the stored rating, or the default rating for
    a player that the round creates. *)
Definition startRating (config : EloConfig) (db : Database) (discordId0 : jsstring) : Z :=
  match getPlayerByDiscordId discordId0 db with
  | Some p => elo p
  | None => defaultRating config
  end.

(** The rating that the player of a row id has when a round starts in
    [db]: the stored rating, or the default rating for a player that the
    round creates. *)
Definition ratingAtStart (config : EloConfig) (db : Database) (playerId0 : Z) : Z :=
  match getPlayerById playerId0 db with
  | Some p => elo p
  | None => defaultRating config
  end.

(** What the first loop may do to the database: refresh user names and
    append new players at the default rating. *)
Definition grown (config : EloConfig) (db db' : Database) : Prop :=
  exists (g : Player -> Player) (extra : list Player),
    players db' = map g (players db) ++ extra /\
    (forall q, exists u, g q = setUsername u q) /\
    Forall (fun q => elo q = defaultRating config) extra /\
    games db' = games db /\
    elo_history db' = elo_history db /\
    daily_summaries db' = daily_summaries db.

(** What a run leaves untouched for player [pid]: the rows of [pid] keep
    everything but the user name, and no game or history row of [pid] is
    added. *)
Definition untouched (pid : Z) (db db' : Database) : Prop :=
  (forall (i : nat) q, players db !! i = Some q -> id q = pid ->
     exists u, players db' !! i = Some (setUsername u q)) /\
  (forall g, In g (games db') -> game_playerId g = pid -> In g (games db)) /\
  (forall h, In h (elo_history db') -> hist_playerId h = pid -> In h (elo_history db)).

(** The result and the game row that the second loop writes for a
    participant. *)
Definition resultOf (eloChanges : gmap Z Z) (playerMap : gmap Z PlayerData)
    (participant : Participant) (r : EloCalculationResult) : Prop :=
  calc_playerId r = playerId participant /\
  previousElo r = currentElo participant /\
  eloChange r = default 0 (eloChanges !! playerId participant) /\
  newElo r = previousElo r + eloChange r.

Definition gameOf (gameDate0 : jsstring) (r : EloCalculationResult) (g : GameRecord) : Prop :=
  game_playerId g = calc_playerId r /\
  game_gameDate g = gameDate0 /\
  game_eloBefore g = previousElo r /\
  game_eloAfter g = newElo r /\
  game_eloChange g = game_eloAfter g - game_eloBefore g /\
  game_eloChange g = eloChange r.

(** Example rounds on [recordedDb]: the announcement of 2024-03-09 again,
    in which the recorded player now carries a new user name, and the
    results of the next day. *)
Definition recordedAgain : ParsedPlayerResult :=
  {| res_discordId := lit "123456789"; res_username := lit "new";
     res_guessCount := 3; res_hasCrown := false |}.

Definition nextDay : list ParsedPlayerResult :=
  [ {| res_discordId := lit "123456789"; res_username := lit "old";
       res_guessCount := 2; res_hasCrown := true |};
    {| res_discordId := lit "222"; res_username := lit "bob";
       res_guessCount := 4; res_hasCrown := false |} ].

(** The sample announcement posted at 2024-10-28T00:30:00Z, which is
    01:30 on 2024-10-28 in Central European time. *)
Definition autumnMessage : Parser.Message :=
  {| Parser.authorId := lit "1211781489931452447";
     Parser.content := sampleContent;
     Parser.createdAt := 1730075400000 |}.

(** Whether the player of a discord id already has a game for the date in
    [db]. *)
Definition alreadyRecorded (gameDate0 : jsstring) (db : Database) (discordId0 : jsstring) : bool :=
  match getPlayerByDiscordId discordId0 db with
  | Some p => hasGameRecord (id p) gameDate0 db
  | None => false
  end.

(** The participant and the [playerMap] entry that the first loop makes of
    the result [r], in a round that starts in [db] and has reached [db']. *)
Definition collectedFrom (config : EloConfig) (db db' : Database)
    (playerMap : gmap Z PlayerData) (p : Participant) (r : ParsedPlayerResult) : Prop :=
  guessCount p = res_guessCount r /\
  currentElo p = startRating config db (res_discordId r) /\
  (exists row, In row (players db') /\ id row = playerId p /\
               discordId row = res_discordId r) /\
  playerMap !! playerId p =
    Some {| data_discordId := res_discordId r;
            data_guessCount := res_guessCount r;
            data_previousElo := currentElo p;
            data_hasCrown := res_hasCrown r |}.

(** What the second loop computes and writes for a participant. *)
Definition newEloOf (eloChanges : gmap Z Z) (p : Participant) : Z :=
  currentElo p + default 0 (eloChanges !! playerId p).

Definition calculationOf (eloChanges : gmap Z Z) (p : Participant)
    (r : ParsedPlayerResult) : EloCalculationResult :=
  {| calc_playerId := playerId p;
     calc_discordId := res_discordId r;
     previousElo := currentElo p;
     newElo := newEloOf eloChanges p;
     eloChange := default 0 (eloChanges !! playerId p);
     calc_guessCount := res_guessCount r |}.

(** What the second loop makes of a row of [players]: the update of every
    participant that carries the id of the row. *)
Fixpoint playedRow (eloChanges : gmap Z Z) (gameDate0 : jsstring)
    (ps : list Participant) (rs : list ParsedPlayerResult) (row : Player) : Player :=
  match ps, rs with
  | p :: ps', r :: rs' =>
      playedRow eloChanges gameDate0 ps' rs'
        (if id row =? playerId p
         then afterGame (res_guessCount r) (newEloOf eloChanges p) gameDate0
                (res_hasCrown r) row
         else row)
  | _, _ => row
  end.

(** The player id [pid] belongs to a row whose discord id is among [ds]. *)
Definition owned (ds : list jsstring) (db : Database) (pid : Z) : Prop :=
  exists row, In row (players db) /\ id row = pid /\ In (discordId row) ds.

(** From [db] to [db'] no row of a player outside [ds] has changed. *)
Definition onlyTouches (ds : list jsstring) (db db' : Database) : Prop :=
  forall (i : nat) row,
    players db !! i = Some row -> ~ In (discordId row) ds -> players db' !! i = Some row.

(** What [updatePlayerActivity] makes of the row of a player without a
    game for the date: one more inactive day, and inactive from the
    threshold on. *)
Definition missedDay (inactivityThreshold : Z) (row : Player) : Player :=
  {| id := id row; discordId := discordId row; username := username row;
     discriminator := discriminator row; elo := elo row;
     totalGames := totalGames row; totalWins := totalWins row;
     totalCrowns := totalCrowns row; totalGuesses := totalGuesses row;
     lastPlayed := lastPlayed row;
     consecutiveInactiveDays := consecutiveInactiveDays row + 1;
     isActive := isActive row
                 && negb (inactivityThreshold <=? consecutiveInactiveDays row + 1) |}.

(** What the loop of [updatePlayerActivity] over the players [snapshot]
    makes of a row: every player of the snapshot with the id of the row adds
    a day, and marks the row inactive if the snapshot says so. *)
Fixpoint activityRow (inactivityThreshold : Z) (snapshot : list Player) (row : Player)
    : Player :=
  match snapshot with
  | [] => row
  | player :: rest =>
      activityRow inactivityThreshold rest
        (if id row =? id player then
           {| id := id row; discordId := discordId row; username := username row;
              discriminator := discriminator row; elo := elo row;
              totalGames := totalGames row; totalWins := totalWins row;
              totalCrowns := totalCrowns row; totalGuesses := totalGuesses row;
              lastPlayed := lastPlayed row;
              consecutiveInactiveDays := consecutiveInactiveDays row + 1;
              isActive :=
                if (inactivityThreshold <=? consecutiveInactiveDays player + 1)
                   && isActive player
                then false else isActive row |}
         else row)
  end.


End Pipeline.

(** ** The leaderboard: [services/statsService.ts] *)

Module Stats.
Import Js Repo.
Import Elo (Math_round).

Local Open Scope Z_scope.

Record LeaderboardEntry := {
  entry_rank : Z;
  entry_discordId : jsstring;
  entry_username : jsstring;
  entry_elo : Z;
  entry_totalGames : Z;
  entry_winRate : R;
  entry_isActive : bool
}.

(** [getAllPlayersByElo], [getActivePlayersByElo]: the order of the rows
    under [ORDER BY elo DESC] is SQLite's, a parameter here. *)
Definition getAllPlayersByElo (orderByEloDesc : list Player -> list Player)
    (db : Database) : list Player :=
  orderByEloDesc (players db).

Definition getActivePlayersByElo (orderByEloDesc : list Player -> list Player)
    (db : Database) : list Player :=
  orderByEloDesc (List.filter isActive (players db)).

(** [players.slice(0, limit)]: a negative [limit] counts from the end. *)
Definition slice0 {A} (l : list A) (limit : Z) : list A :=
  if limit <? 0 then take (Z.to_nat (Z.of_nat (length l) + limit)) l
  else take (Z.to_nat limit) l.

(** The loop of [getLeaderboard], from index [i]. *)
Fixpoint rankEntries (limited : list Player) (i currentRank : Z) (previousElo : option Z)
    : list LeaderboardEntry :=
  match limited with
  | [] => []
  | player :: rest =>
      let winRate :=
        if 0 <? totalGames player
        then (IZR (totalWins player) / IZR (totalGames player) * 100)%R
        else 0%R in
      let currentRank' :=
        match previousElo with
        | Some previous => if elo player =? previous then currentRank else i + 1
        | None => i + 1
        end in
      {| entry_rank := currentRank';
         entry_discordId := discordId player;
         entry_username := username player;
         entry_elo := elo player;
         entry_totalGames := totalGames player;
         entry_winRate := (IZR (Math_round (winRate * 100)) / 100)%R;
         entry_isActive := isActive player |}
        :: rankEntries rest (i + 1) currentRank' (Some (elo player))
  end.

Definition getLeaderboard (orderByEloDesc : list Player -> list Player)
    (limit : Z) (activeOnly : bool) (db : Database) : list LeaderboardEntry :=
  let players :=
    if activeOnly then getActivePlayersByElo orderByEloDesc db
    else getAllPlayersByElo orderByEloDesc db in
  rankEntries (slice0 players limit) 0 1 None.

(** How many of the players [l] have a rating above [e]. *)
Definition above (e : Z) (l : list Player) : Z :=
  Z.of_nat (length (List.filter (fun q => e <? elo q) l)).

(** The ratings of [l] never go up. *)
Definition descending (l : list Player) : Prop :=
  forall (i j : nat) p q, (i <= j)%nat -> l !! i = Some p -> l !! j = Some q -> elo q <= elo p.

(** Example data: a board of three players, two of them tied in front and
    the third inactive, in the order of their rows. *)
Definition boardPlayer (i : Z) (d u : String.string) (e : Z) (active : bool) : Player :=
  {| id := i; discordId := lit d; username := lit u; discriminator := lit "0";
     elo := e; totalGames := 0; totalWins := 0; totalCrowns := 0; totalGuesses := 0;
     lastPlayed := None; consecutiveInactiveDays := 0; isActive := active |}.

Definition sampleBoard : Database :=
  {| players := [ boardPlayer 1 "111" "ann" 1010 true;
                  boardPlayer 2 "222" "bob" 1010 true;
                  boardPlayer 3 "333" "cy" 990 false ];
     games := []; elo_history := []; daily_summaries := [];
     players_seq := 3; games_seq := 0 |}.

End Stats.

(** Closed side conditions on concrete lists. *)
Ltac distinct_ids := simpl; apply (bool_decide_unpack _); vm_compute; exact I.
Ltac listed := repeat constructor.

(** The constraints of the schema on a concrete database. *)
Ltac schema_holds :=
  constructor; simpl; try (repeat constructor; simpl; lia);
  apply (bool_decide_unpack _); vm_compute; exact I.

(** A run of the handler on concrete data, up to the changes that
    [calculatePairwiseElo] returns. *)
Ltac sample_run :=
  unfold Pipeline.onMessageCreate;
  match goal with |- context [bool_decide ?P] =>
    let b := fresh in set (b := bool_decide P); vm_compute in b; subst b end;
  cbv beta iota;
  match goal with |- context [Repo.sameString ?a ?c] =>
    let b := fresh in set (b := Repo.sameString a c); vm_compute in b; subst b end;
  cbv beta iota delta [negb];
  match goal with |- context [Pipeline.parseAndResolveWordleMessage ?t ?m ?g] =>
    let b := fresh in
    set (b := Pipeline.parseAndResolveWordleMessage t m g); vm_compute in b; subst b end;
  cbv beta iota;
  match goal with |- context [Repo.isDailyResultsProcessed ?d ?x] =>
    let b := fresh in set (b := Repo.isDailyResultsProcessed d x); vm_compute in b; subst b end;
  cbv beta iota;
  unfold Pipeline.processAndSummarise, Pipeline.processDailyResults, Repo.bind at 1 2;
  match goal with |- context [Pipeline.collectParticipants ?a ?b ?c ?d ?e ?f] =>
    let x := fresh in
    set (x := Pipeline.collectParticipants a b c d e f); vm_compute in x; subst x end;
  cbv beta iota;
  match goal with
  | |- context [Elo.calculatePairwiseElo ?ps ?c] => generalize (Elo.calculatePairwiseElo ps c)
  end;
  intros ?; vm_compute; reflexivity.

(* ================================================================== *)
(** * Properties *)
(* ================================================================== *)

(** ** The rating engine *)

Section EloFacts.

Import Elo.
Local Open Scope R_scope.

(** *** Rounding *)

Lemma Math_round_spec (x : R) :
  IZR (Math_round x) <= x + 1 / 2 < IZR (Math_round x) + 1.
Proof.
  unfold Math_round.
  destruct (base_Int_part (x + 1 / 2)) as [Hle Hgt]. lra.
Qed.

Lemma Math_round_unique (x : R) (z : Z) :
  IZR z <= x + 1 / 2 < IZR z + 1 -> Math_round x = z.
Proof.
  intros [Hlo Hhi].
  destruct (Math_round_spec x) as [Hlo' Hhi'].
  assert (H1 : (z < Math_round x + 1)%Z).
  { apply lt_IZR. rewrite plus_IZR. lra. }
  assert (H2 : (Math_round x < z + 1)%Z).
  { apply lt_IZR. rewrite plus_IZR. lra. }
  lia.
Qed.

Lemma Math_round_IZR (z : Z) : Math_round (IZR z) = z.
Proof. apply Math_round_unique. lra. Qed.

Lemma Math_round_0 : Math_round 0 = 0%Z.
Proof. apply (Math_round_IZR 0). Qed.

Lemma Math_round_mono (x y : R) : x <= y -> (Math_round x <= Math_round y)%Z.
Proof.
  intros Hxy.
  destruct (Math_round_spec x) as [Hx _].
  destruct (Math_round_spec y) as [_ Hy].
  assert (H : (Math_round x < Math_round y + 1)%Z).
  { apply lt_IZR. rewrite plus_IZR. lra. }
  lia.
Qed.

(** *** Scores *)

Lemma expected_between (a b : Z) : 0 < calculateExpectedScore a b < 1.
Proof.
  unfold calculateExpectedScore, Math_pow10, Rpower.
  set (e := exp _).
  assert (He : 0 < e) by apply exp_pos.
  split.
  - apply Rdiv_lt_0_compat; lra.
  - apply (Rmult_lt_reg_r (1 + e)); [lra|].
    unfold Rdiv. rewrite Rmult_assoc, Rinv_l by lra. lra.
Qed.

Lemma expected_even (a : Z) : calculateExpectedScore a a = 1 / 2.
Proof.
  unfold calculateExpectedScore, Math_pow10.
  replace ((IZR a - IZR a) / 400) with 0 by lra.
  rewrite Rpower_O by lra. lra.
Qed.

Lemma score_cases (g1 g2 : Z) :
  (g1 < g2)%Z /\ determineMatchResult g1 g2 = (1, 0) \/
  (g2 < g1)%Z /\ determineMatchResult g1 g2 = (0, 1) \/
  g1 = g2 /\ determineMatchResult g1 g2 = (1 / 2, 1 / 2).
Proof.
  unfold determineMatchResult.
  destruct (Z.ltb_spec g1 g2); [left; split; [lia | reflexivity]|].
  destruct (Z.gtb_spec g1 g2); [right; left; split; [lia | reflexivity]|].
  right; right; split; [lia | reflexivity].
Qed.

Lemma score_flip (g1 g2 : Z) :
  snd (determineMatchResult g1 g2) = fst (determineMatchResult g2 g1).
Proof.
  destruct (score_cases g1 g2) as [[H ->]|[[H ->]|[H ->]]];
    destruct (score_cases g2 g1) as [[H' ->]|[[H' ->]|[H' ->]]];
    simpl; try reflexivity; lia.
Qed.



(** *** What one participant gains from one opponent *)

Lemma contrib_self (scaledK : R) (p : Participant) : contrib scaledK p p = 0.
Proof.
  unfold contrib. rewrite expected_even.
  destruct (score_cases (guessCount p) (guessCount p)) as [[H _]|[[H _]|[_ ->]]];
    [lia | lia | simpl; lra].
Qed.




(** *** The loops *)

Lemma getOr0_insert (m : gmap Z R) (k x : Z) (v : R) :
  getOr0 (<[k := v]> m) x = if decide (k = x) then v else getOr0 m x.
Proof.
  unfold getOr0. rewrite lookup_insert.
  destruct (decide (k = x)); reflexivity.
Qed.

Lemma getOr0_matchup scaledK p1 p2 (m : gmap Z R) (x : Z) :
  getOr0 (matchup scaledK p1 p2 m) x =
  getOr0 m x + credit x p1 (contrib scaledK p1 p2)
             + credit x p2 (contrib scaledK p2 p1).
Proof.
  unfold matchup, credit, contrib.
  rewrite <- (score_flip (guessCount p1) (guessCount p2)).
  destruct (determineMatchResult (guessCount p1) (guessCount p2)) as [s1 s2].
  cbn [fst snd]. rewrite !getOr0_insert.
  destruct (decide (playerId p1 = x)) as [E1|N1];
    destruct (decide (playerId p2 = x)) as [E2|N2]; subst;
    repeat (destruct (decide _); try congruence); lra.
Qed.

Lemma getOr0_innerLoop scaledK p1 later (m : gmap Z R) (x : Z) :
  getOr0 (innerLoop scaledK p1 later m) x =
  getOr0 m x + credit x p1 (against scaledK p1 later) + owed scaledK x p1 later.
Proof.
  revert m. induction later as [|q later IH]; intros m; simpl.
  - unfold credit. destruct (decide _); lra.
  - rewrite IH, getOr0_matchup. unfold credit.
    repeat (destruct (decide _)); lra.
Qed.

Lemma share_cons_everyone scaledK x ps q everyone :
  share scaledK x ps (q :: everyone) =
  owed scaledK x q ps + share scaledK x ps everyone.
Proof.
  induction ps as [|p ps IH]; simpl; [lra|].
  rewrite IH. unfold credit. destruct (decide _); lra.
Qed.

Lemma getOr0_outerLoop scaledK ps (m : gmap Z R) (x : Z) :
  getOr0 (outerLoop scaledK ps m) x = getOr0 m x + share scaledK x ps ps.
Proof.
  revert m. induction ps as [|p ps IH]; intros m; simpl.
  - lra.
  - rewrite IH, getOr0_innerLoop, share_cons_everyone, contrib_self.
    unfold credit. destruct (decide _); lra.
Qed.

Lemma share_absent scaledK x ps everyone :
  x ∉ map playerId ps -> share scaledK x ps everyone = 0.
Proof.
  induction ps as [|p ps IH]; simpl; intros Hx; [reflexivity|].
  rewrite not_elem_of_cons in Hx. destruct Hx as [Hne Hx].
  rewrite IH by assumption. unfold credit.
  destruct (decide _); [congruence | lra].
Qed.

Lemma share_present scaledK p ps everyone :
  NoDup (map playerId ps) -> p ∈ ps ->
  share scaledK (playerId p) ps everyone = against scaledK p everyone.
Proof.
  induction ps as [|q ps IH]; simpl; intros Hnd Hin.
  - apply elem_of_nil in Hin. contradiction.
  - apply NoDup_cons in Hnd. destruct Hnd as [Hq Hnd].
    apply elem_of_cons in Hin. destruct Hin as [->|Hin].
    + rewrite share_absent by assumption. unfold credit.
      destruct (decide _); [lra | congruence].
    + rewrite IH by assumption. unfold credit.
      destruct (decide (playerId q = playerId p)) as [E|N]; [|lra].
      exfalso. apply Hq. rewrite E. apply list_elem_of_fmap_2. exact Hin.
Qed.

(** *** The map of changes *)

Lemma initChanges_from (ps : list Participant) (m : gmap Z R) (x : Z) :
  foldl (fun m p => <[playerId p := 0]> m) m ps !! x =
  if decide (x ∈ map playerId ps) then Some 0 else m !! x.
Proof.
  revert m. induction ps as [|p ps IH]; intros m; simpl.
  - reflexivity.
  - rewrite IH.
    destruct (decide (x ∈ map playerId ps)) as [H|H].
    + rewrite decide_True by (apply elem_of_cons; right; exact H). reflexivity.
    + destruct (decide (x = playerId p)) as [->|N].
      * rewrite decide_True by (apply elem_of_cons; left; reflexivity).
        apply lookup_insert_eq.
      * rewrite decide_False by (rewrite elem_of_cons; tauto).
        apply lookup_insert_ne. congruence.
Qed.

Lemma initChanges_lookup (ps : list Participant) (x : Z) :
  initChanges ps !! x = if decide (x ∈ map playerId ps) then Some 0 else None.
Proof. unfold initChanges. rewrite initChanges_from, lookup_empty. reflexivity. Qed.

Lemma dom_initChanges (ps : list Participant) :
  dom (initChanges ps) = list_to_set (map playerId ps).
Proof.
  apply set_eq. intros x.
  rewrite elem_of_dom, initChanges_lookup, elem_of_list_to_set.
  case_decide as H; split; intros H'; try assumption; eauto.
  - destruct H' as [? ?]; discriminate.
  - contradiction.
Qed.

Lemma dom_matchup scaledK p1 p2 (m : gmap Z R) :
  playerId p1 ∈ dom m -> playerId p2 ∈ dom m ->
  dom (matchup scaledK p1 p2 m) = dom m.
Proof.
  intros H1 H2. unfold matchup.
  destruct (determineMatchResult _ _) as [s1 s2].
  rewrite !dom_insert_L.
  apply set_eq. intros x. rewrite !elem_of_union, !elem_of_singleton.
  split; [intros [->|[->|H]]; assumption | tauto].
Qed.

Lemma dom_innerLoop scaledK p1 later (m : gmap Z R) :
  playerId p1 ∈ dom m -> (forall q, q ∈ later -> playerId q ∈ dom m) ->
  dom (innerLoop scaledK p1 later m) = dom m.
Proof.
  revert m. induction later as [|q later IH]; intros m H1 Hl; simpl.
  - reflexivity.
  - assert (Hq : playerId q ∈ dom m) by (apply Hl; left).
    rewrite IH; rewrite ?dom_matchup; try assumption; try reflexivity.
    intros q' Hq'. apply Hl. right. exact Hq'.
Qed.

Lemma dom_outerLoop scaledK ps (m : gmap Z R) :
  (forall q, q ∈ ps -> playerId q ∈ dom m) ->
  dom (outerLoop scaledK ps m) = dom m.
Proof.
  revert m. induction ps as [|p ps IH]; intros m Hl; simpl.
  - reflexivity.
  - assert (Hp : playerId p ∈ dom m) by (apply Hl; left).
    assert (Hps : forall q, q ∈ ps -> playerId q ∈ dom m)
      by (intros q Hq; apply Hl; right; exact Hq).
    rewrite IH; rewrite ?dom_innerLoop; try assumption; reflexivity.
Qed.

Lemma dom_accumulatedChanges ps config :
  dom (accumulatedChanges ps config) = list_to_set (map playerId ps).
Proof.
  unfold accumulatedChanges. rewrite dom_outerLoop; [apply dom_initChanges|].
  intros q Hq. rewrite dom_initChanges, elem_of_list_to_set.
  apply list_elem_of_fmap_2. exact Hq.
Qed.

Lemma getOr0_initChanges ps x : getOr0 (initChanges ps) x = 0.
Proof.
  unfold getOr0. rewrite initChanges_lookup. case_decide; reflexivity.
Qed.

Lemma lookup_getOr0 (m : gmap Z R) (x : Z) :
  x ∈ dom m -> m !! x = Some (getOr0 m x).
Proof.
  rewrite elem_of_dom. intros [v Hv]. unfold getOr0. rewrite Hv. reflexivity.
Qed.

(** The entry of a participant before rounding: the sum, over everyone in
    the list, of what the participant gains from the matchup. *)
Lemma accumulatedChanges_lookup ps config p :
  NoDup (map playerId ps) -> p ∈ ps ->
  accumulatedChanges ps config !! playerId p =
  Some (against (scaledKFactor config ps) p ps).
Proof.
  intros Hnd Hin.
  rewrite lookup_getOr0.
  - unfold accumulatedChanges.
    rewrite getOr0_outerLoop, getOr0_initChanges, share_present by assumption.
    f_equal. lra.
  - rewrite dom_accumulatedChanges, elem_of_list_to_set.
    apply list_elem_of_fmap_2. exact Hin.
Qed.

Lemma calculatePairwiseElo_dom ps config :
  dom (calculatePairwiseElo ps config) = list_to_set (map playerId ps).
Proof.
  unfold calculatePairwiseElo.
  destruct (length ps <? 2)%nat; rewrite dom_fmap_L.
  - apply dom_initChanges.
  - apply dom_accumulatedChanges.
Qed.

Lemma calculatePairwiseElo_few ps config x :
  (length ps < 2)%nat -> x ∈ map playerId ps ->
  calculatePairwiseElo ps config !! x = Some 0%Z.
Proof.
  intros Hlen Hx. unfold calculatePairwiseElo.
  destruct (Nat.ltb_spec (length ps) 2) as [_|H]; [|lia].
  rewrite lookup_fmap, initChanges_lookup, decide_True by assumption.
  simpl. rewrite Math_round_0. reflexivity.
Qed.

Lemma calculatePairwiseElo_lookup ps config p :
  (2 <= length ps)%nat -> NoDup (map playerId ps) -> p ∈ ps ->
  calculatePairwiseElo ps config !! playerId p =
  Some (Math_round (against (scaledKFactor config ps) p ps)).
Proof.
  intros Hlen Hnd Hin. unfold calculatePairwiseElo.
  destruct (Nat.ltb_spec (length ps) 2) as [H|_]; [lia|].
  rewrite lookup_fmap, accumulatedChanges_lookup by assumption. reflexivity.
Qed.

(** *** Bounds *)


Lemma scaledK_nonneg ps config :
  (2 <= length ps)%nat -> (0 <= kFactor config)%Z -> 0 <= scaledKFactor config ps.
Proof.
  intros Hlen Hk. unfold scaledKFactor.
  apply Rmult_le_pos.
  - apply IZR_le. exact Hk.
  - left. apply Rinv_0_lt_compat. apply IZR_lt. lia.
Qed.




(** *** Participants with the same data *)

Lemma contrib_data scaledK p p' q q' :
  currentElo p = currentElo p' -> guessCount p = guessCount p' ->
  currentElo q = currentElo q' -> guessCount q = guessCount q' ->
  contrib scaledK p q = contrib scaledK p' q'.
Proof. unfold contrib. intros -> -> -> ->. reflexivity. Qed.

(** *** Lower guess counts *)



Lemma contrib_tie scaledK p q :
  currentElo p = currentElo q -> guessCount p = guessCount q ->
  contrib scaledK p q = 0.
Proof.
  intros Hr Hg. rewrite (contrib_data scaledK p p q p) by congruence.
  apply contrib_self.
Qed.

(** Scenario B: a tie at equal ratings moves nobody. *)
Example scenarioB_no_change :
  calculatePairwiseElo scenarioB config32 !! 1%Z = Some 0%Z /\
  calculatePairwiseElo scenarioB config32 !! 2%Z = Some 0%Z.
Proof.
  split.
  - change 1%Z with (playerId {| playerId := 1; currentElo := 1000; guessCount := 3 |}).
    rewrite calculatePairwiseElo_lookup; [|simpl; lia | distinct_ids | listed].
    f_equal. unfold scenarioB, against. rewrite !contrib_tie by reflexivity.
    apply Math_round_unique. simpl. lra.
  - change 2%Z with (playerId {| playerId := 2; currentElo := 1000; guessCount := 3 |}).
    rewrite calculatePairwiseElo_lookup; [|simpl; lia | distinct_ids | listed].
    f_equal. unfold scenarioB, against. rewrite !contrib_tie by reflexivity.
    apply Math_round_unique. simpl. lra.
Qed.

(** *** A player id that is listed more than once *)





(** *** The specified properties of [calculatePairwiseElo] *)










End EloFacts.

(** ** The rating engine in double precision: the order of the list *)

Section DoubleEngine.

Import PrimFloat Elo64.
Import Elo (EloConfig, kFactor, Participant, playerId, currentElo, guessCount,
            withData, exchange).

Lemma score_flip64 (g1 g2 : Z) :
  snd (determineMatchResult g1 g2) = fst (determineMatchResult g2 g1).
Proof.
  unfold determineMatchResult.
  destruct (Z.ltb_spec g1 g2), (Z.gtb_spec g1 g2), (Z.ltb_spec g2 g1), (Z.gtb_spec g2 g1);
    try reflexivity; lia.
Qed.

Lemma tally_app start l1 l2 : tally start (l1 ++ l2) = tally (tally start l1) l2.
Proof. apply fold_left_app. Qed.

(** *** The loops *)

Lemma matchup_lookup approx k p1 p2 (m : gmap Z float) (x : Z) :
  playerId p1 <> playerId p2 ->
  matchup approx k p1 p2 m !! x =
  if decide (x = playerId p2) then Some (getOr0 m x + contrib approx k p2 p1)%float
  else if decide (x = playerId p1) then Some (getOr0 m x + contrib approx k p1 p2)%float
  else m !! x.
Proof.
  intros Hne. unfold matchup, contrib.
  rewrite <- (score_flip64 (guessCount p1) (guessCount p2)).
  destruct (determineMatchResult (guessCount p1) (guessCount p2)) as [s1 s2].
  cbn [fst snd].
  destruct (decide (x = playerId p2)) as [->|N2].
  - rewrite lookup_insert_eq. do 2 f_equal.
    unfold getOr0. rewrite lookup_insert_ne by exact Hne. reflexivity.
  - rewrite lookup_insert_ne by congruence.
    destruct (decide (x = playerId p1)) as [->|N1].
    + rewrite lookup_insert_eq. reflexivity.
    + rewrite lookup_insert_ne by congruence. reflexivity.
Qed.

Lemma innerLoop_frame approx k p1 later (m : gmap Z float) (x : Z) :
  x <> playerId p1 -> x ∉ map playerId later ->
  innerLoop approx k p1 later m !! x = m !! x.
Proof.
  intros H1. revert m. induction later as [|q later IH]; intros m Hx; simpl.
  - reflexivity.
  - simpl in Hx. rewrite not_elem_of_cons in Hx. destruct Hx as [Hq Hx].
    rewrite IH by exact Hx.
    destruct (decide (playerId p1 = playerId q)) as [E|N].
    + unfold matchup. destruct (determineMatchResult _ _) as [s1 s2].
      rewrite !lookup_insert_ne by congruence. reflexivity.
    + rewrite matchup_lookup by exact N.
      rewrite decide_False by exact Hq. rewrite decide_False by exact H1. reflexivity.
Qed.

Lemma innerLoop_player1 approx k p1 later (m : gmap Z float) (v : float) :
  playerId p1 ∉ map playerId later -> m !! playerId p1 = Some v ->
  innerLoop approx k p1 later m !! playerId p1 =
  Some (tally v (map (contrib approx k p1) later)).
Proof.
  revert m v. induction later as [|q later IH]; intros m v Hp Hv; simpl.
  - exact Hv.
  - simpl in Hp. rewrite not_elem_of_cons in Hp. destruct Hp as [Hq Hp].
    apply IH; [exact Hp|].
    rewrite matchup_lookup by exact Hq.
    rewrite decide_False by exact Hq. rewrite decide_True by reflexivity.
    unfold getOr0. rewrite Hv. reflexivity.
Qed.

Lemma innerLoop_player2 approx k p1 l1 q l2 (m : gmap Z float) (v : float) :
  playerId q <> playerId p1 -> NoDup (map playerId (l1 ++ q :: l2)) ->
  m !! playerId q = Some v ->
  innerLoop approx k p1 (l1 ++ q :: l2) m !! playerId q =
  Some (orZero v + contrib approx k q p1)%float.
Proof.
  intros Hne. revert m. induction l1 as [|a l1 IH]; intros m Hnd Hv; simpl in *.
  - apply NoDup_cons in Hnd. destruct Hnd as [Hq _].
    rewrite innerLoop_frame by assumption.
    rewrite matchup_lookup by congruence.
    rewrite decide_True by reflexivity. unfold getOr0. rewrite Hv. reflexivity.
  - apply NoDup_cons in Hnd. destruct Hnd as [Ha Hnd].
    assert (Haq : playerId q <> playerId a).
    { intros E. apply Ha. rewrite <- E, map_app. apply elem_of_app. right. left. }
    apply IH; [exact Hnd|].
    destruct (decide (playerId p1 = playerId a)) as [E|N].
    + unfold matchup. destruct (determineMatchResult _ _) as [s1 s2].
      rewrite !lookup_insert_ne by congruence. exact Hv.
    + rewrite matchup_lookup by exact N.
      rewrite decide_False by exact Haq. rewrite decide_False by exact Hne. exact Hv.
Qed.

Lemma outerLoop_frame approx k ps (m : gmap Z float) (x : Z) :
  x ∉ map playerId ps -> outerLoop approx k ps m !! x = m !! x.
Proof.
  revert m. induction ps as [|p ps IH]; intros m Hx; simpl.
  - reflexivity.
  - simpl in Hx. rewrite not_elem_of_cons in Hx. destruct Hx as [Hp Hx].
    rewrite IH by exact Hx. apply innerLoop_frame; assumption.
Qed.

(** The entry of a participant after the loops: the changes of its
    matchups, added in the order of the list. *)
Lemma outerLoop_lookup approx k l1 p l2 (m : gmap Z float) (v : float) :
  NoDup (map playerId (l1 ++ p :: l2)) -> m !! playerId p = Some v ->
  outerLoop approx k (l1 ++ p :: l2) m !! playerId p =
  Some (tally v (map (contrib approx k p) (l1 ++ l2))).
Proof.
  revert m v. induction l1 as [|a l1 IH]; intros m v Hnd Hv; simpl in *.
  - apply NoDup_cons in Hnd. destruct Hnd as [Hp _].
    rewrite outerLoop_frame by exact Hp.
    apply innerLoop_player1; assumption.
  - apply NoDup_cons in Hnd. destruct Hnd as [Ha Hnd].
    assert (Hpa : playerId p <> playerId a).
    { intros E. apply Ha. rewrite <- E, map_app. apply elem_of_app. right. left. }
    rewrite (IH _ (orZero v + contrib approx k p a)%float); [reflexivity | exact Hnd |].
    apply innerLoop_player2; assumption.
Qed.

Lemma initChanges_from64 (ps : list Participant) (m : gmap Z float) (x : Z) :
  foldl (fun m p => <[playerId p := 0%float]> m) m ps !! x =
  if decide (x ∈ map playerId ps) then Some 0%float else m !! x.
Proof.
  revert m. induction ps as [|p ps IH]; intros m; simpl.
  - reflexivity.
  - rewrite IH.
    destruct (decide (x ∈ map playerId ps)) as [H|H].
    + rewrite decide_True by (apply elem_of_cons; right; exact H). reflexivity.
    + destruct (decide (x = playerId p)) as [->|N].
      * rewrite decide_True by (apply elem_of_cons; left; reflexivity).
        apply lookup_insert_eq.
      * rewrite decide_False by (rewrite elem_of_cons; tauto).
        apply lookup_insert_ne. congruence.
Qed.

(** The delta of a participant with an id of its own: it depends on the
    participant's rating and guess count and on those of the others in the
    order of the list. *)
Lemma calculatePairwiseElo_lookup64 approx l1 p l2 config :
  NoDup (map playerId (l1 ++ p :: l2)) -> (2 <= length (l1 ++ p :: l2))%nat ->
  calculatePairwiseElo approx (l1 ++ p :: l2) config !! playerId p =
  Some (Math_round
          (tally 0 (map (contrib approx (scaledKFactor config (l1 ++ p :: l2)) p)
                        (l1 ++ l2)))).
Proof.
  intros Hnd Hlen. unfold calculatePairwiseElo.
  destruct (Nat.ltb_spec (length (l1 ++ p :: l2)) 2) as [H|_]; [lia|].
  rewrite lookup_fmap, (outerLoop_lookup approx _ l1 p l2 _ 0%float); [reflexivity | exact Hnd |].
  unfold initChanges. rewrite initChanges_from64, decide_True; [reflexivity|].
  rewrite map_app. apply elem_of_app. right. left.
Qed.

Lemma exchange_adjacent l1 a b l2 :
  exchange (length l1) (S (length l1)) (l1 ++ a :: b :: l2) =
  l1 ++ withData a b :: withData b a :: l2.
Proof.
  unfold exchange.
  rewrite (lookup_app_r l1) by lia. rewrite Nat.sub_diag.
  rewrite (lookup_app_r l1) by lia.
  replace (S (length l1) - length l1)%nat with 1%nat by lia. simpl.
  rewrite !insert_app_r_alt by lia.
  rewrite Nat.sub_diag.
  replace (S (length l1) - length l1)%nat with 1%nat by lia. reflexivity.
Qed.

Lemma adjacent_split (ps : list Participant) (i : nat) a b :
  ps !! i = Some a -> ps !! S i = Some b ->
  exists l1 l2, ps = l1 ++ a :: b :: l2 /\ length l1 = i.
Proof.
  intros Ha Hb. exists (take i ps), (drop (S (S i)) ps). split.
  - rewrite <- (take_drop_middle ps i a Ha) at 1. f_equal. f_equal.
    apply (drop_S ps b (S i)) in Hb. exact Hb.
  - apply length_take_le. apply lookup_lt_Some in Ha. lia.
Qed.

(** C8, as the specification states it, fails: the changes of a
    participant are added in double precision in the order of the list, and
    an exchange moves one term of each sum.  Among ten players at 1000 with
    a K-factor of 15, the player with two guesses at position 2 has the
    total -2.5000000000000004, which rounds to -3; after the exchange with
    the player at position 4 the same rating and guess count stand at
    position 4 with the total -2.5, which rounds to -2.  All the ratings are
    equal, so every exponent is zero and [Math.pow] returns 1 on every
    engine. *)
Lemma distant_exchange_changes_deltas :
  NoDup (map playerId tenPlayers) /\
  tenPlayers !! 2%nat = Some {| playerId := 3; currentElo := 1000; guessCount := 2 |} /\
  tenPlayers !! 4%nat = Some {| playerId := 5; currentElo := 1000; guessCount := 1 |} /\
  (forall approx,
     calculatePairwiseElo approx tenPlayers config15 !! 3%Z = Some (-3)%float /\
     calculatePairwiseElo approx (exchange 2 4 tenPlayers) config15 !! 5%Z
       = Some (-2)%float) /\
  ((-3) =? (-2))%float = false.
Proof.
  split; [distinct_ids|]. split; [reflexivity|]. split; [reflexivity|].
  split; [|reflexivity].
  intros approx. split; vm_compute; reflexivity.
Qed.

(** C8, amended: with pairwise distinct player ids, exchanging the
    (rating, guess count) pairs of two participants that are next to each
    other in the list exchanges their final deltas exactly; both have
    one. *)
Theorem adjacent_exchange_swaps_deltas approx ps config (i : nat) a b :
  NoDup (map playerId ps) -> ps !! i = Some a -> ps !! S i = Some b ->
  exists deltaA deltaB : float,
    calculatePairwiseElo approx ps config !! playerId a = Some deltaA /\
    calculatePairwiseElo approx ps config !! playerId b = Some deltaB /\
    calculatePairwiseElo approx (exchange i (S i) ps) config !! playerId a = Some deltaB /\
    calculatePairwiseElo approx (exchange i (S i) ps) config !! playerId b = Some deltaA.
Proof.
  intros Hnd Ha Hb.
  destruct (adjacent_split ps i a b Ha Hb) as (l1 & l2 & -> & <-).
  rewrite exchange_adjacent.
  assert (Hlen : (2 <= length (l1 ++ a :: b :: l2))%nat)
    by (rewrite length_app; simpl; lia).
  assert (Hnd' : NoDup (map playerId (l1 ++ withData a b :: withData b a :: l2)))
    by (rewrite map_app in *; exact Hnd).
  assert (Hk : scaledKFactor config (l1 ++ withData a b :: withData b a :: l2)
               = scaledKFactor config (l1 ++ a :: b :: l2))
    by (unfold scaledKFactor; rewrite !length_app; reflexivity).
  pose proof (calculatePairwiseElo_lookup64 approx l1 a (b :: l2) config Hnd Hlen) as HA.
  pose proof (calculatePairwiseElo_lookup64 approx l1 (withData a b) (withData b a :: l2)
                config Hnd') as HA'.
  rewrite Hk in HA'. specialize (HA' ltac:(rewrite length_app in *; simpl in *; lia)).
  replace (l1 ++ a :: b :: l2) with ((l1 ++ [a]) ++ b :: l2) in Hnd, Hlen |- *
    by (rewrite <- app_assoc; reflexivity).
  replace (l1 ++ withData a b :: withData b a :: l2)
    with ((l1 ++ [withData a b]) ++ withData b a :: l2) in Hnd', Hk |- *
    by (rewrite <- app_assoc; reflexivity).
  pose proof (calculatePairwiseElo_lookup64 approx (l1 ++ [a]) b l2 config Hnd Hlen) as HB.
  pose proof (calculatePairwiseElo_lookup64 approx (l1 ++ [withData a b]) (withData b a) l2
                config Hnd') as HB'.
  rewrite Hk in HB'. specialize (HB' ltac:(rewrite !length_app in *; simpl in *; lia)).
  replace ((l1 ++ [a]) ++ b :: l2) with (l1 ++ a :: b :: l2) in *
    by (rewrite <- app_assoc; reflexivity).
  replace ((l1 ++ [withData a b]) ++ withData b a :: l2)
    with (l1 ++ withData a b :: withData b a :: l2) in *
    by (rewrite <- app_assoc; reflexivity).
  eexists _, _. split; [exact HA|]. split; [exact HB|]. split.
  - change (playerId a) with (playerId (withData a b)). rewrite HA'. f_equal. f_equal. f_equal.
    rewrite <- !app_assoc, !map_app. reflexivity.
  - change (playerId b) with (playerId (withData b a)). rewrite HB'. f_equal. f_equal. f_equal.
    rewrite <- !app_assoc, !map_app. reflexivity.
Qed.

Lemma adjacent_exchange_swaps_deltas_witness :
  exists deltaA deltaB : float,
    calculatePairwiseElo noApprox tenPlayers config15 !! 3%Z = Some deltaA /\
    calculatePairwiseElo noApprox tenPlayers config15 !! 4%Z = Some deltaB /\
    calculatePairwiseElo noApprox (exchange 2 3 tenPlayers) config15 !! 3%Z = Some deltaB /\
    calculatePairwiseElo noApprox (exchange 2 3 tenPlayers) config15 !! 4%Z = Some deltaA.
Proof.
  apply (adjacent_exchange_swaps_deltas noApprox tenPlayers config15 2
           {| playerId := 3; currentElo := 1000; guessCount := 2 |}
           {| playerId := 4; currentElo := 1000; guessCount := 3 |}).
  - distinct_ids.
  - reflexivity.
  - reflexivity.
Defined.

End DoubleEngine.

(** ** The failed sentinel *)

Section ParserScores.

Import Js Parser Elo.

Lemma parseResultRow_guessCount row c section parsed :
  matchRow row = Some (c, section) -> parseResultRow row = Some parsed ->
  row_guessCount parsed = guessCountOf c.
Proof.
  unfold parseResultRow. intros ->.
  destruct (extractPlayers section); [discriminate|].
  intros [= <-]. reflexivity.
Qed.

Lemma matchRow_guessChar row c section :
  matchRow row = Some (c, section) -> isGuessChar c = true.
Proof.
  unfold matchRow.
  destruct (afterCrown row) as [|c' [|c1 [|c2 [|c3 rest]]]]; try discriminate.
  destruct (isGuessChar c') eqn:Hc; simpl; [|discriminate].
  destruct (_ && _)%bool; [|discriminate].
  destruct (playersSectionOf rest); [|discriminate].
  intros [= <- _]. exact Hc.
Qed.

(** The guess count of a numeric row is its digit, from 1 to 6. *)
Lemma guessCountOf_numeric c :
  isGuessChar c = true -> eqChar_i 120 c = false ->
  (1 <= guessCountOf c <= 6)%Z.
Proof.
  unfold isGuessChar, guessCountOf. intros H Hx. rewrite Hx in *.
  rewrite orb_false_r in H. unfold inRange in H.
  apply andb_true_iff in H. destruct H as [H1 H2].
  apply N.leb_le in H1, H2. lia.
Qed.

(** C6: a row whose guess character is [x] (in either case) is parsed with
    the guess count 7; against any numeric guess count from 1 to 6 the
    failed participant scores 0 and the opponent 1, whichever comes first
    in the pair, and two failed participants tie at one half each. *)
Theorem failed_sentinel_scores row c section parsed (g : Z) :
  matchRow row = Some (c, section) -> eqChar_i 120 c = true ->
  parseResultRow row = Some parsed -> (1 <= g <= 6)%Z ->
  row_guessCount parsed = 7%Z /\
  determineMatchResult (row_guessCount parsed) g = (0, 1)%R /\
  determineMatchResult g (row_guessCount parsed) = (1, 0)%R /\
  determineMatchResult (row_guessCount parsed) (row_guessCount parsed)
    = (1 / 2, 1 / 2)%R.
Proof.
  intros Hrow Hx Hparsed Hg.
  rewrite (parseResultRow_guessCount _ _ _ _ Hrow Hparsed).
  unfold guessCountOf. rewrite Hx.
  unfold determineMatchResult.
  destruct (Z.ltb_spec 7 g); [lia|].
  destruct (Z.gtb_spec 7 g); [|lia].
  destruct (Z.ltb_spec g 7); [|lia].
  repeat split; reflexivity.
Qed.

Lemma failed_sentinel_scores_witness :
  row_guessCount
    {| row_guessCount := 7;
       row_players := [ {| ref_discordId := Some (lit "123456789");
                           ref_username := [] |} ] |} = 7%Z /\
  determineMatchResult 7 6 = (0, 1)%R /\
  determineMatchResult 6 7 = (1, 0)%R /\
  determineMatchResult 7 7 = (1 / 2, 1 / 2)%R.
Proof.
  apply (failed_sentinel_scores (lit "x/6: <@123456789> (failed attempts)")
           120%N (lit "<@123456789> (failed attempts)")
           {| row_guessCount := 7;
              row_players := [ {| ref_discordId := Some (lit "123456789");
                                  ref_username := [] |} ] |} 6%Z).
  - vm_compute. reflexivity.
  - vm_compute. reflexivity.
  - vm_compute. reflexivity.
  - lia.
Defined.

End ParserScores.

(** ** The duplicate gate of the handler *)

Section Gate.

Import Js Repo Pipeline.

Lemma sameString_true (a b : jsstring) : sameString a b = true <-> a = b.
Proof. unfold sameString. apply bool_decide_eq_true. Qed.

Lemma isDailyResultsProcessed_true gameDate0 db :
  isDailyResultsProcessed gameDate0 db = true <->
  exists row, In row (daily_summaries db) /\ sum_gameDate row = gameDate0.
Proof.
  unfold isDailyResultsProcessed. rewrite existsb_exists.
  split; intros (row & Hin & H); exists row; split; try assumption;
    apply sameString_true; assumption.
Qed.

(** C3: when a daily summary exists for the game date of an announcement,
    the handler ends in [Skipped] before [processDailyResults] and the
    database is exactly what it was: no player update, no game record, no
    ELO history, no daily summary. *)
Theorem processed_date_is_skipped clientUserId config tz message guild reply db
    dailyResults :
  Some (Parser.authorId message) <> clientUserId ->
  Parser.authorId message = wordleBotId config ->
  parseAndResolveWordleMessage tz message guild = Returns (Some dailyResults) ->
  (exists row, In row (daily_summaries db) /\ sum_gameDate row = gameDate dailyResults) ->
  onMessageCreate clientUserId config tz message guild reply db = (Skipped, db).
Proof.
  intros Hself Hbot Hparse Hrow. unfold onMessageCreate.
  rewrite bool_decide_eq_false_2 by assumption.
  assert (Hsame : sameString (Parser.authorId message) (wordleBotId config) = true)
    by (apply sameString_true; assumption).
  rewrite Hsame, Hparse. simpl.
  apply isDailyResultsProcessed_true in Hrow. rewrite Hrow. reflexivity.
Qed.

Lemma processed_date_is_skipped_witness :
  onMessageCreate (Some (lit "999")) sampleConfig JsDate.utc sampleMessage
    (Some sampleGuild) (Returns tt) closedDb = (Skipped, closedDb).
Proof.
  eapply (processed_date_is_skipped (Some (lit "999")) sampleConfig JsDate.utc
            sampleMessage (Some sampleGuild) (Returns tt) closedDb).
  - vm_compute. discriminate.
  - vm_compute. reflexivity.
  - vm_compute. reflexivity.
  - eexists. split; [left; reflexivity | vm_compute; reflexivity].
Defined.

End Gate.

(** ** [processDailyResults] *)

Section Rounds.

Import Js Repo Pipeline.
Import Elo (EloConfig, defaultRating, Participant, playerId, currentElo, guessCount,
            calculatePairwiseElo).

Local Open Scope Z_scope.

Lemma setUsername_same p : setUsername (username p) p = p.
Proof. destruct p; reflexivity. Qed.

Lemma setUsername_twice u u' p : setUsername u (setUsername u' p) = setUsername u p.
Proof. reflexivity. Qed.

(** *** Finding a player by discord id *)

Lemma find_discordId_map (g : Player -> Player) d (l : list Player) :
  (forall q, exists u, g q = setUsername u q) ->
  List.find (fun p => sameString (discordId p) d) (map g l) =
  g <$> List.find (fun p => sameString (discordId p) d) l.
Proof.
  intros Hg. induction l as [|q l IH]; simpl; [reflexivity|].
  destruct (Hg q) as [u Hu]. rewrite Hu at 1. simpl.
  destruct (sameString (discordId q) d); [reflexivity | exact IH].
Qed.

Lemma find_app {A} (f : A -> bool) (l1 l2 : list A) :
  List.find f (l1 ++ l2) =
  match List.find f l1 with Some x => Some x | None => List.find f l2 end.
Proof.
  induction l1 as [|x l1 IH]; simpl; [reflexivity|].
  destruct (f x); [reflexivity | exact IH].
Qed.

Lemma find_Forall {A} (f : A -> bool) (P : A -> Prop) (l : list A) x :
  Forall P l -> List.find f l = Some x -> P x.
Proof.
  intros Hall Hfind. apply find_some in Hfind. destruct Hfind as [Hin _].
  rewrite Forall_forall in Hall. apply Hall. apply list_elem_of_In. exact Hin.
Qed.

Lemma grown_refl config db : grown config db db.
Proof.
  exists (fun q => q), []. rewrite map_id, app_nil_r.
  repeat split; try reflexivity.
  - intros q. exists (username q). symmetry. apply setUsername_same.
  - constructor.
Qed.

Lemma grown_trans config db1 db2 db3 :
  grown config db1 db2 -> grown config db2 db3 -> grown config db1 db3.
Proof.
  intros (g1 & e1 & Hp1 & Hg1 & He1 & Hgm1 & Hh1 & Hs1)
         (g2 & e2 & Hp2 & Hg2 & He2 & Hgm2 & Hh2 & Hs2).
  exists (fun q => g2 (g1 q)), (map g2 e1 ++ e2).
  repeat split.
  - rewrite Hp2, Hp1, map_app, map_map, app_assoc. reflexivity.
  - intros q. destruct (Hg1 q) as [u1 H1]. destruct (Hg2 (g1 q)) as [u2 H2].
    exists u2. rewrite H2, H1. reflexivity.
  - apply Forall_app. split; [|exact He2].
    apply Forall_forall. intros q Hq. apply list_elem_of_In, in_map_iff in Hq.
    destruct Hq as (q0 & <- & Hq0). destruct (Hg2 q0) as [u Hu]. rewrite Hu. simpl.
    rewrite Forall_forall in He1. apply He1. apply list_elem_of_In. exact Hq0.
  - congruence.
  - congruence.
  - congruence.
Qed.

Lemma grown_startRating config db db' d :
  grown config db db' -> startRating config db' d = startRating config db d.
Proof.
  intros (g & extra & Hp & Hg & He & _).
  unfold startRating, getPlayerByDiscordId. rewrite Hp, find_app, find_discordId_map by exact Hg.
  destruct (List.find _ (players db)) as [q|] eqn:Hq; simpl.
  - destruct (Hg q) as [u ->]. reflexivity.
  - destruct (List.find _ extra) as [q|] eqn:Hx; [|reflexivity].
    apply (find_Forall _ _ _ _ He Hx).
Qed.

Lemma grown_find config db db' d q :
  grown config db db' -> getPlayerByDiscordId d db = Some q ->
  exists u, getPlayerByDiscordId d db' = Some (setUsername u q).
Proof.
  intros (g & extra & Hp & Hg & _) Hfind.
  unfold getPlayerByDiscordId in *.
  rewrite Hp, find_app, find_discordId_map, Hfind by exact Hg. simpl.
  destruct (Hg q) as [u ->]. eauto.
Qed.

Lemma grown_hasGameRecord config db db' pid d :
  grown config db db' -> hasGameRecord pid d db' = hasGameRecord pid d db.
Proof.
  intros (g & extra & _ & _ & _ & Hgm & _). unfold hasGameRecord. rewrite Hgm. reflexivity.
Qed.

Lemma grown_untouched config db db' pid :
  grown config db db' -> untouched pid db db'.
Proof.
  intros (g & extra & Hp & Hg & _ & Hgm & Hh & _). repeat split.
  - intros i q Hi _. destruct (Hg q) as [u Hu]. exists u.
    rewrite Hp, lookup_app_l by (rewrite length_map; eapply lookup_lt_Some; eassumption).
    change (map g (players db)) with (g <$> players db).
    rewrite list_lookup_fmap, Hi. simpl. rewrite Hu. reflexivity.
  - intros g0 Hin _. rewrite Hgm in Hin. exact Hin.
  - intros h Hin _. rewrite Hh in Hin. exact Hin.
Qed.

(** *** [getOrCreatePlayer] *)

Lemma getOrCreatePlayer_spec config d u db out db' :
  getOrCreatePlayer
    {| new_discordId := d; new_username := u; new_discriminator := lit "0" |}
    (defaultRating config) db = (out, db') ->
  exists player,
    out = Returns player /\
    elo player = startRating config db d /\
    (forall q, getPlayerByDiscordId d db = Some q -> id player = id q) /\
    grown config db db'.
Proof.
  unfold getOrCreatePlayer, startRating, createPlayer. simpl.
  destruct (getPlayerByDiscordId d db) as [existing|] eqn:Hfind.
  - destruct (sameString (username existing) u) eqn:Hu; simpl.
    + intros [= <- <-]. exists existing. repeat split;
        [intros q [= <-]; reflexivity | apply grown_refl].
    + unfold bind, updatePlayerUsername, exec, ret. simpl.
      intros [= <- <-]. eexists. repeat split; [intros q [= <-]; reflexivity|].
      exists (fun p => if id p =? id existing then setUsername u p else p), [].
      rewrite app_nil_r. repeat split; try reflexivity; [|constructor].
      intros q. destruct (id q =? id existing); [exists u; reflexivity|].
      exists (username q). symmetry. apply setUsername_same.
  - intros [= <- <-]. eexists. repeat split; [discriminate|].
    eexists (fun q => q), [_]. simpl. rewrite map_id.
    repeat split; try reflexivity.
    + intros q. exists (username q). symmetry. apply setUsername_same.
    + repeat constructor.
Qed.

(** *** The first loop *)

Lemma collectParticipants_spec config date0 rs ps pm db out db' :
  collectParticipants rs date0 config ps pm db = (out, db') ->
  exists new pm',
    out = Returns (ps ++ new, pm') /\
    grown config db db' /\
    Forall (fun p =>
              hasGameRecord (playerId p) date0 db = false /\
              exists r0, In r0 rs /\
                currentElo p = startRating config db (res_discordId r0) /\
                (forall q, getPlayerByDiscordId (res_discordId r0) db = Some q ->
                           playerId p = id q) /\
                guessCount p = res_guessCount r0) new /\
    (forall x, is_Some (pm !! x) \/ In x (map playerId new) -> is_Some (pm' !! x)).
Proof.
  revert ps pm db. induction rs as [|r rs IH]; intros ps pm db; simpl.
  - unfold ret. intros [= <- <-]. exists [], pm. rewrite app_nil_r.
    repeat split; [apply grown_refl | constructor |].
    intros x [H|[]]. exact H.
  - unfold bind at 1.
    destruct (getOrCreatePlayer _ _ db) as [o db1] eqn:Hget.
    apply (getOrCreatePlayer_spec config) in Hget.
    destruct Hget as (player & -> & Helo & Hsame & Hgrown).
    unfold bind at 1, query at 1.
    rewrite (grown_hasGameRecord config db db1) by exact Hgrown.
    destruct (hasGameRecord (id player) date0 db) eqn:Hrec.
    + intros Hrest. apply IH in Hrest.
      destruct Hrest as (new & pm' & -> & Hg & Hnew & Hpm).
      exists new, pm'. repeat split; try assumption.
      * eapply grown_trans; eassumption.
      * eapply Forall_impl; [exact Hnew|]. intros p [Hp (r0 & Hin & Hr & Hq & Hgc)].
        split; [rewrite <- (grown_hasGameRecord config db db1) by exact Hgrown; exact Hp|].
        exists r0. repeat split; [right; exact Hin | | | exact Hgc].
        -- rewrite Hr. apply grown_startRating. exact Hgrown.
        -- intros q Hfind.
           destruct (grown_find config db db1 _ q Hgrown Hfind) as [u0 Hu0].
           apply (Hq _ Hu0).
    + intros Hrest. apply IH in Hrest.
      destruct Hrest as (new & pm' & -> & Hg & Hnew & Hpm).
      eexists (_ :: new), pm'. rewrite <- app_assoc. simpl.
      repeat split.
      * eapply grown_trans; eassumption.
      * constructor.
        -- simpl. split; [exact Hrec|]. exists r.
           repeat split; [left; reflexivity | exact Helo | exact Hsame].
        -- eapply Forall_impl; [exact Hnew|]. intros p [Hp (r0 & Hin & Hr & Hq & Hgc)].
           split; [rewrite <- (grown_hasGameRecord config db db1) by exact Hgrown; exact Hp|].
           exists r0. repeat split; [right; exact Hin | | | exact Hgc].
           ++ rewrite Hr. apply grown_startRating. exact Hgrown.
           ++ intros q Hfind.
              destruct (grown_find config db db1 _ q Hgrown Hfind) as [u0 Hu0].
              apply (Hq _ Hu0).
      * intros x Hx. apply Hpm. simpl in Hx.
        destruct (decide (id player = x)) as [<-|Hne].
        -- left. rewrite lookup_insert_eq. eauto.
        -- destruct Hx as [Hx|[Hx|Hx]]; [left | contradiction | right; exact Hx].
           rewrite lookup_insert_ne by exact Hne. exact Hx.
Qed.

(** *** The second loop *)

Lemma recordGame_spec pid g date0 before after wn db row db' :
  recordGame pid g date0 before after wn db = (Returns row, db') ->
  game_playerId row = pid /\
  game_gameDate row = date0 /\
  game_eloBefore row = before /\
  game_eloAfter row = after /\
  game_eloChange row = after - before /\
  games db' = games db ++ [row] /\
  players db' = players db /\
  elo_history db' = elo_history db.
Proof.
  unfold recordGame. destruct (hasGameRecord pid date0 db); [discriminate|].
  intros [= <- <-]. repeat split.
Qed.

Lemma applyChanges_spec pm ec date0 wn ps acc db rs db' :
  applyChanges ps pm ec date0 wn acc db = (Returns rs, db') ->
  exists newRs newGames,
    rs = acc ++ newRs /\
    Forall2 (resultOf ec pm) ps newRs /\
    games db' = games db ++ newGames /\
    Forall2 (gameOf date0) newRs newGames.
Proof.
  revert acc db. induction ps as [|p ps IH]; intros acc db; simpl.
  - unfold ret. intros [= <- <-]. exists [], []. rewrite !app_nil_r.
    repeat split; constructor.
  - destruct (pm !! playerId p) as [pd|]; [|discriminate].
    unfold bind at 1, updatePlayerAfterGame at 1, exec at 1.
    unfold bind at 1.
    destruct (recordGame _ _ _ _ _ _ _) as [[row|e] db1] eqn:Hrec; [|discriminate].
    apply recordGame_spec in Hrec.
    destruct Hrec as (Hpid & Hdate & Hbefore & Hafter & Hchange & Hgames & _ & _).
    unfold bind at 1, recordEloHistory at 1, exec at 1.
    intros Hrest. apply IH in Hrest.
    destruct Hrest as (newRs & newGames & -> & Hrs & Hg & Hgs).
    eexists (_ :: newRs), (row :: newGames). rewrite <- app_assoc. simpl.
    repeat split.
    + constructor; [|exact Hrs]. repeat split.
    + rewrite Hg. simpl. rewrite Hgames. simpl. rewrite <- app_assoc. reflexivity.
    + constructor; [|exact Hgs].
      unfold gameOf. simpl. rewrite Hpid, Hdate, Hbefore, Hafter, Hchange.
      repeat split. lia.
Qed.

(** *** What a run leaves untouched *)

Lemma untouched_refl pid db : untouched pid db db.
Proof.
  repeat split; try (intros; assumption).
  intros i q Hi _. exists (username q). rewrite setUsername_same. exact Hi.
Qed.

Lemma untouched_trans pid db1 db2 db3 :
  untouched pid db1 db2 -> untouched pid db2 db3 -> untouched pid db1 db3.
Proof.
  intros (Hp1 & Hg1 & Hh1) (Hp2 & Hg2 & Hh2). repeat split.
  - intros i q Hi Hid. destruct (Hp1 i q Hi Hid) as [u Hu].
    destruct (Hp2 i _ Hu Hid) as [u' Hu']. exists u'. exact Hu'.
  - intros g Hin Hid. apply Hg1; [apply Hg2|]; assumption.
  - intros h Hin Hid. apply Hh1; [apply Hh2|]; assumption.
Qed.

Lemma updatePlayer_untouched pid pid' set db :
  pid' <> pid -> untouched pid db (updatePlayer pid' set db).
Proof.
  intros Hne. repeat split; try (intros; assumption).
  intros i q Hi Hid. exists (username q). rewrite setUsername_same.
  unfold updatePlayer, withPlayers. simpl.
  change (map ?f (players db)) with (f <$> players db).
  rewrite list_lookup_fmap, Hi. simpl.
  destruct (Z.eqb_spec (id q) pid'); [congruence | reflexivity].
Qed.

Lemma recordGame_untouched pid pid' g date0 before after wn db out db' :
  pid' <> pid ->
  recordGame pid' g date0 before after wn db = (out, db') -> untouched pid db db'.
Proof.
  intros Hne. unfold recordGame.
  destruct (hasGameRecord pid' date0 db).
  - intros [= <- <-]. apply untouched_refl.
  - intros [= <- <-]. repeat split; simpl; try (intros; assumption).
    + intros i q Hi _. exists (username q). rewrite setUsername_same. exact Hi.
    + intros g0 Hin Hid. apply in_app_iff in Hin. destruct Hin as [Hin|[<-|[]]].
      * exact Hin.
      * simpl in Hid. congruence.
Qed.

Lemma recordEloHistory_untouched pid pid' e date0 db out db' :
  pid' <> pid ->
  recordEloHistory pid' e date0 db = (out, db') -> untouched pid db db'.
Proof.
  intros Hne. unfold recordEloHistory, exec. intros [= <- <-].
  repeat split; simpl; try (intros; assumption).
  - intros i q Hi _. exists (username q). rewrite setUsername_same. exact Hi.
  - intros h Hin Hid. apply in_app_iff in Hin. destruct Hin as [Hin|[<-|[]]].
    + exact Hin.
    + simpl in Hid. congruence.
Qed.

Lemma applyChanges_untouched pid pm ec date0 wn ps acc db out db' :
  ~ In pid (map playerId ps) ->
  applyChanges ps pm ec date0 wn acc db = (out, db') -> untouched pid db db'.
Proof.
  revert acc db. induction ps as [|p ps IH]; intros acc db Hnot; simpl.
  - unfold ret. intros [= <- <-]. apply untouched_refl.
  - simpl in Hnot.
    assert (Hne : playerId p <> pid) by tauto.
    assert (Hnot' : ~ In pid (map playerId ps)) by tauto.
    destruct (pm !! playerId p) as [pd|].
    2: { unfold raise. intros [= <- <-]. apply untouched_refl. }
    unfold bind at 1, updatePlayerAfterGame at 1, exec at 1.
    unfold bind at 1.
    match goal with
    | |- context [recordGame ?a ?b ?c ?d ?e ?f ?db0] =>
        assert (Hup : untouched pid db db0)
          by (apply updatePlayer_untouched; exact Hne);
        destruct (recordGame a b c d e f db0) as [o db1] eqn:Hrec
    end.
    apply (recordGame_untouched pid) in Hrec; [|exact Hne].
    destruct o as [row|e].
    2: { intros [= <- <-]. eapply untouched_trans; eassumption. }
    unfold bind at 1.
    destruct (recordEloHistory _ _ _ db1) as [o2 db2] eqn:Hhist.
    pose proof Hhist as Hhist'.
    apply (recordEloHistory_untouched pid) in Hhist'; [|exact Hne].
    unfold recordEloHistory, exec in Hhist. injection Hhist as <- <-.
    intros Hrest. apply IH in Hrest; [|exact Hnot'].
    eapply untouched_trans; [exact Hup|].
    eapply untouched_trans; [exact Hrec|].
    eapply untouched_trans; [exact Hhist'|]. exact Hrest.
Qed.

Lemma resultOf_ids ec pm ps rs :
  Forall2 (resultOf ec pm) ps rs -> map calc_playerId rs = map playerId ps.
Proof.
  induction 1 as [|p r ps rs (Hid & _) _ IH]; simpl; [reflexivity|].
  rewrite Hid, IH. reflexivity.
Qed.

(** A player with a record for the date is kept out of the round, whatever
    the round then does. *)
Lemma recorded_player_kept_out config date0 wn rs db out db' pid :
  hasGameRecord pid date0 db = true ->
  processDailyResults rs date0 config wn db = (out, db') ->
  (forall ps pm db1,
      collectParticipants rs date0 config [] ∅ db = (Returns (ps, pm), db1) ->
      ~ In pid (map playerId ps)) /\
  (forall results1, out = Returns results1 -> ~ In pid (map calc_playerId results1)) /\
  untouched pid db db'.
Proof.
  intros Hrec. unfold processDailyResults, bind.
  destruct (collectParticipants rs date0 config [] ∅ db) as [o db1] eqn:Hcollect.
  apply collectParticipants_spec in Hcollect.
  destruct Hcollect as (new & pm' & -> & Hgrown & Hnew & _). simpl.
  assert (Hnot : ~ In pid (map playerId new)).
  { intros Hin. apply in_map_iff in Hin. destruct Hin as (p & <- & Hp).
    rewrite Forall_forall in Hnew. apply list_elem_of_In in Hp.
    destruct (Hnew p Hp) as [Hfalse _]. congruence. }
  intros Hrun. split; [|split].
  - intros ps pm db1' [= <- _ _]. exact Hnot.
  - intros results1 ->. destruct new as [|p new].
    + unfold ret in Hrun. injection Hrun as <- _. simpl. tauto.
    + pose proof Hrun as Hrun'. apply applyChanges_spec in Hrun'.
      destruct Hrun' as (newRs & newGames & -> & Hrs & _).
      simpl. rewrite (resultOf_ids _ _ _ _ Hrs). exact Hnot.
  - eapply untouched_trans; [apply (grown_untouched config); exact Hgrown|].
    destruct new as [|p new].
    + unfold ret in Hrun. injection Hrun as _ <-. apply untouched_refl.
    + eapply applyChanges_untouched; [exact Hnot | exact Hrun].
Qed.

(** *** The specified properties of a round *)

(** C4, as the specification states it, fails: player 1 already has a
    record for 2024-03-09 and is announced again under a new user name.
    The round computes nothing for the player, but [getOrCreatePlayer],
    which runs before the record check, has written the new user name. *)
Lemma recorded_player_username_rewritten :
  In recordedAgain [recordedAgain] /\
  getPlayerByDiscordId (res_discordId recordedAgain) recordedDb = Some samplePlayer /\
  hasGameRecord (id samplePlayer) (lit "2024-03-09") recordedDb = true /\
  exists db',
    processDailyResults [recordedAgain] (lit "2024-03-09") Elo.config32 None recordedDb
      = (Returns [], db') /\
    players db' = [setUsername (lit "new") samplePlayer] /\
    db' <> recordedDb.
Proof.
  split; [left; reflexivity|]. split; [vm_compute; reflexivity|].
  split; [vm_compute; reflexivity|].
  eexists. split; [vm_compute; reflexivity|].
  split; [reflexivity|]. vm_compute. discriminate.
Qed.

(** C4, amended: an input result whose player already has a game record
    for the date is left out of the participants given to
    [calculatePairwiseElo], gets no calculation result, and whatever the
    round does, no game or history row is written for the player and the
    player's rows keep their rating, counters and activity state; only the
    stored user name may be refreshed. *)
Theorem recorded_player_excluded config date0 wn rs db out db' r0 p :
  In r0 rs ->
  getPlayerByDiscordId (res_discordId r0) db = Some p ->
  hasGameRecord (id p) date0 db = true ->
  processDailyResults rs date0 config wn db = (out, db') ->
  (forall ps pm db1,
      collectParticipants rs date0 config [] ∅ db = (Returns (ps, pm), db1) ->
      ~ In (id p) (map playerId ps)) /\
  (forall results1, out = Returns results1 -> ~ In (id p) (map calc_playerId results1)) /\
  untouched (id p) db db'.
Proof.
  intros _ _ Hrec Hrun.
  exact (recorded_player_kept_out config date0 wn rs db out db' (id p) Hrec Hrun).
Qed.

Lemma recorded_player_excluded_witness :
  (forall ps pm db1,
      collectParticipants [recordedAgain] (lit "2024-03-09") Elo.config32 [] ∅ recordedDb
        = (Returns (ps, pm), db1) ->
      ~ In 1 (map playerId ps)) /\
  (forall results1, Returns [] = Returns results1 -> ~ In 1 (map calc_playerId results1)) /\
  untouched 1 recordedDb
    (updatePlayer 1 (setUsername (lit "new")) recordedDb).
Proof.
  apply (recorded_player_excluded Elo.config32 (lit "2024-03-09") None
           [recordedAgain] recordedDb (Returns [])
           (updatePlayer 1 (setUsername (lit "new")) recordedDb)
           recordedAgain samplePlayer).
  - left. reflexivity.
  - vm_compute. reflexivity.
  - vm_compute. reflexivity.
  - vm_compute. reflexivity.
Defined.

End Rounds.

(** ** The ratings at the start of a round *)

Section Snapshot.
Import Js Repo Pipeline.
Import Elo (EloConfig, defaultRating, Participant, playerId, currentElo, guessCount,
            calculatePairwiseElo).
Local Open Scope Z_scope.

(** *** The ratings at the start of a round *)

Lemma ratingAtStart_stored config db q :
  wellFormed db -> In q (players db) -> ratingAtStart config db (id q) = elo q.
Proof.
  intros Hwf Hq. unfold ratingAtStart, getPlayerById.
  pose proof (wf_ids db Hwf) as Hnd.
  induction (players db) as [|p l IH]; [destruct Hq|].
  simpl in *. apply NoDup_cons in Hnd. destruct Hnd as [Hp Hnd].
  destruct Hq as [->|Hq].
  - rewrite Z.eqb_refl. reflexivity.
  - destruct (Z.eqb_spec (id p) (id q)) as [E|N].
    + exfalso. apply Hp. rewrite E. apply list_elem_of_In, in_map. exact Hq.
    + apply IH; assumption.
Qed.

Lemma ratingAtStart_new config db (pid : Z) :
  wellFormed db -> players_seq db < pid ->
  ratingAtStart config db pid = defaultRating config.
Proof.
  intros Hwf Hpid. unfold ratingAtStart, getPlayerById.
  destruct (List.find _ (players db)) as [q|] eqn:Hfind; [|reflexivity].
  apply find_some in Hfind. destruct Hfind as [Hin Hid].
  apply Z.eqb_eq in Hid.
  pose proof (wf_seq db Hwf) as Hseq. rewrite Forall_forall in Hseq.
  apply list_elem_of_In, Hseq in Hin. lia.
Qed.

(** The first loop keeps the ratings: every row has the rating that its
    player had when the round started, or the default rating of a player
    that the round has created. *)
Lemma getOrCreatePlayer_rating config db0 d u db out db' :
  wellFormed db0 -> players_seq db0 <= players_seq db ->
  Forall (fun q => elo q = ratingAtStart config db0 (id q)) (players db) ->
  getOrCreatePlayer
    {| new_discordId := d; new_username := u; new_discriminator := lit "0" |}
    (defaultRating config) db = (out, db') ->
  players_seq db0 <= players_seq db' /\
  Forall (fun q => elo q = ratingAtStart config db0 (id q)) (players db') /\
  forall player, out = Returns player -> elo player = ratingAtStart config db0 (id player).
Proof.
  intros Hwf Hseq Hall. unfold getOrCreatePlayer, createPlayer. simpl.
  destruct (getPlayerByDiscordId d db) as [existing|] eqn:Hfind.
  - assert (Hex : elo existing = ratingAtStart config db0 (id existing)).
    { unfold getPlayerByDiscordId in Hfind. apply find_some in Hfind.
      destruct Hfind as [Hin _]. rewrite Forall_forall in Hall.
      apply Hall, list_elem_of_In. exact Hin. }
    destruct (sameString (username existing) u); simpl.
    + intros [= <- <-]. repeat split; try assumption. intros player [= <-]. exact Hex.
    + unfold bind, updatePlayerUsername, exec, ret. simpl.
      intros [= <- <-]. simpl. repeat split; [exact Hseq | |intros player [= <-]; exact Hex].
      apply Forall_forall. intros q Hq. apply list_elem_of_In, in_map_iff in Hq.
      destruct Hq as (q0 & <- & Hq0).
      rewrite Forall_forall in Hall. apply list_elem_of_In, Hall in Hq0.
      destruct (id q0 =? id existing); exact Hq0.
  - intros [= <- <-]. simpl.
    assert (Hnew : defaultRating config = ratingAtStart config db0 (players_seq db + 1))
      by (symmetry; apply ratingAtStart_new; [exact Hwf | lia]).
    repeat split; [lia | | intros player [= <-]; exact Hnew].
    apply Forall_app. split; [exact Hall|]. constructor; [exact Hnew | constructor].
Qed.

Lemma collectParticipants_snapshot config db0 date0 rs ps pm db ps' pm' db' :
  wellFormed db0 -> players_seq db0 <= players_seq db ->
  Forall (fun q => elo q = ratingAtStart config db0 (id q)) (players db) ->
  Forall (fun p => currentElo p = ratingAtStart config db0 (playerId p)) ps ->
  collectParticipants rs date0 config ps pm db = (Returns (ps', pm'), db') ->
  Forall (fun p => currentElo p = ratingAtStart config db0 (playerId p)) ps'.
Proof.
  intros Hwf. revert ps pm db.
  induction rs as [|r rs IH]; intros ps pm db Hseq Hall Hps; simpl.
  - unfold ret. intros [= <- _ _]. exact Hps.
  - unfold bind at 1.
    destruct (getOrCreatePlayer _ _ db) as [o db1] eqn:Hget.
    pose proof (getOrCreatePlayer_rating config db0 _ _ _ _ _ Hwf Hseq Hall Hget)
      as (Hseq1 & Hall1 & Hplayer).
    apply (getOrCreatePlayer_spec config) in Hget. destruct Hget as (player & -> & _).
    specialize (Hplayer player eq_refl).
    unfold bind at 1, query at 1.
    destruct (hasGameRecord (id player) date0 db1); intros Hrest.
    + apply (IH _ _ _ Hseq1 Hall1 Hps Hrest).
    + apply (IH _ _ _ Hseq1 Hall1) in Hrest; [exact Hrest|].
      apply Forall_app. split; [exact Hps|]. constructor; [exact Hplayer | constructor].
Qed.

(** C10: a game record written by [recordGame] stores
    [eloChange = eloAfter - eloBefore]; and in a round that returns, on a
    database that meets the constraints of the schema, every result
    satisfies [newElo = previousElo + eloChange], where [previousElo] is the
    rating that the player of the result had in the database when the round
    started (the default rating for a player that the round has created),
    and [eloChange] is the player's entry in the one map that
    [calculatePairwiseElo] computes from the participants of the first
    loop, which carry these ratings of the start; the game rows written by
    the round carry the same values. *)
Theorem round_changes_are_consistent pid g date1 before after wn1 db1 row db1'
    results0 date0 config wn db results1 db' :
  wellFormed db ->
  recordGame pid g date1 before after wn1 db1 = (Returns row, db1') ->
  processDailyResults results0 date0 config wn db = (Returns results1, db') ->
  (game_eloChange row = game_eloAfter row - game_eloBefore row /\
   game_eloBefore row = before /\ game_eloAfter row = after /\
   games db1' = games db1 ++ [row]) /\
  exists participants playerMap db2 newGames,
    collectParticipants results0 date0 config [] ∅ db
      = (Returns (participants, playerMap), db2) /\
    Forall2 (fun p r =>
               calc_playerId r = playerId p /\
               currentElo p = ratingAtStart config db (playerId p) /\
               previousElo r = ratingAtStart config db (calc_playerId r) /\
               eloChange r =
                 default 0 (calculatePairwiseElo participants config !! calc_playerId r) /\
               newElo r = previousElo r + eloChange r)
            participants results1 /\
    games db' = games db ++ newGames /\
    Forall2 (gameOf date0) results1 newGames.
Proof.
  intros Hwf Hrow Hrun. split.
  - apply recordGame_spec in Hrow.
    destruct Hrow as (_ & _ & Hb & Ha & Hc & Hg & _). rewrite Hb, Ha. tauto.
  - clear Hrow. revert Hrun. unfold processDailyResults, bind.
    destruct (collectParticipants results0 date0 config [] ∅ db) as [o db2] eqn:Hcollect.
    pose proof Hcollect as Hspec. apply collectParticipants_spec in Hspec.
    destruct Hspec as (new & pm' & -> & Hgrown & _). simpl in *.
    assert (Hstart : Forall (fun p => currentElo p = ratingAtStart config db (playerId p)) new).
    { apply (collectParticipants_snapshot config db date0 results0 [] ∅ db new pm' db2);
        [exact Hwf | lia | | constructor | exact Hcollect].
      apply Forall_forall. intros q Hq. symmetry.
      apply ratingAtStart_stored; [exact Hwf | apply list_elem_of_In; exact Hq]. }
    destruct Hgrown as (_ & _ & _ & _ & _ & Hgames & _).
    destruct new as [|p new].
    + unfold ret. intros [= <- <-]. exists [], pm', db2, []. rewrite app_nil_r.
      repeat split; try constructor. exact Hgames.
    + intros Hrun. apply applyChanges_spec in Hrun.
      destruct Hrun as (newRs & newGames & -> & Hrs & Hg & Hgs). simpl.
      exists (p :: new), pm', db2, newGames.
      split; [reflexivity|]. split; [|split; [congruence | exact Hgs]].
      clear Hg Hgs Hcollect. revert Hrs Hstart.
      generalize (calculatePairwiseElo (p :: new) config) as ec.
      generalize (p :: new) as ps. clear. intros ps ec Hrs.
      induction Hrs as [|q r ps rs (Hid & Hprev & Hch & Hnew) _ IH]; intros Hall.
      * constructor.
      * apply Forall_cons in Hall. destruct Hall as [Hq Hall].
        constructor; [|apply IH; exact Hall].
        repeat split; try assumption; congruence.
Qed.

Lemma round_changes_are_consistent_witness :
  exists results1 db',
  (game_eloChange sampleGame = game_eloAfter sampleGame - game_eloBefore sampleGame /\
   game_eloBefore sampleGame = 1000 /\ game_eloAfter sampleGame = 1010 /\
   games recordedDb = [] ++ [sampleGame]) /\
  exists participants playerMap db2 newGames,
    collectParticipants nextDay (lit "2024-03-10") Elo.config32 [] ∅ recordedDb
      = (Returns (participants, playerMap), db2) /\
    Forall2 (fun p r =>
               calc_playerId r = playerId p /\
               currentElo p = ratingAtStart Elo.config32 recordedDb (playerId p) /\
               previousElo r = ratingAtStart Elo.config32 recordedDb (calc_playerId r) /\
               eloChange r =
                 default 0 (calculatePairwiseElo participants Elo.config32 !! calc_playerId r) /\
               newElo r = previousElo r + eloChange r)
            participants results1 /\
    games db' = games recordedDb ++ newGames /\
    Forall2 (gameOf (lit "2024-03-10")) results1 newGames.
Proof.
  pose (run := processDailyResults nextDay (lit "2024-03-10") Elo.config32 None recordedDb).
  exists (match fst run with Returns rs => rs | Throws _ => [] end), (snd run).
  apply (round_changes_are_consistent 1 3 (lit "2024-03-09") 1000 1010 None
           {| players := [samplePlayer]; games := [];
              elo_history := elo_history recordedDb;
              daily_summaries := []; players_seq := 1; games_seq := 0 |}
           sampleGame recordedDb
           nextDay (lit "2024-03-10") Elo.config32 None recordedDb).
  - schema_holds.
  - vm_compute. reflexivity.
  - subst run. unfold processDailyResults, bind.
    set (c := collectParticipants _ _ _ _ _ _). vm_compute in c. subst c.
    cbv beta iota.
    generalize (calculatePairwiseElo
      [ {| playerId := 1; currentElo := 1010; guessCount := 2 |};
        {| playerId := 2; currentElo := 1000; guessCount := 4 |} ] Elo.config32).
    intros ec. vm_compute. reflexivity.
Defined.

End Snapshot.

(** ** Scanning a result row *)

Section Scanning.

Import Js Parser.

(** The first result row of the source's sample announcement: the mention
    comes first, the plain name after it. *)
Example sample_row_players :
  parseResultRow ([55357%N; 56401%N] ++ lit " 2/6: @brollen <@297641031401209857>")
  = Some {| row_guessCount := 2;
            row_players :=
              [ {| ref_discordId := Some (lit "297641031401209857"); ref_username := [] |};
                {| ref_discordId := None; ref_username := lit "brollen" |} ] |}.
Proof. vm_compute. reflexivity. Qed.

(** The digits of a mention are also a plain-name match, inside the
    mention. *)
Example mention_digits_match_as_name :
  mentionsOf (lit "<@111>") = [ {| m_start := 0; m_end := 6; m_group := lit "111" |} ] /\
  usernamesOf (lit "<@111>") = [ {| m_start := 1; m_end := 5; m_group := lit "111" |} ] /\
  extractPlayers (lit "<@111>")
  = [ {| ref_discordId := Some (lit "111"); ref_username := [] |} ].
Proof. vm_compute. repeat split. Qed.

(** *** The [exec] loop *)

Lemma execAll_sound matchAt (s : jsstring) pos skip m :
  In m (execAll matchAt s pos skip) ->
  exists k len,
    (skip <= k < length s)%nat /\
    matchAt (drop k s) = Some (len, m_group m) /\
    m_start m = (pos + k)%nat /\
    m_end m = (pos + k + len)%nat.
Proof.
  revert pos skip. induction s as [|c s IH]; intros pos skip; simpl; [tauto|].
  destruct skip as [|skip].
  - destruct (matchAt (c :: s)) as [[len group]|] eqn:Hm.
    + intros [<-|Hin].
      * exists 0%nat, len. simpl. rewrite Nat.add_0_r. repeat split; try lia. exact Hm.
      * apply IH in Hin. destruct Hin as (k & len' & Hk & Hmk & Hs & He).
        exists (S k), len'. simpl. repeat split; try lia. exact Hmk.
    + intros Hin. apply IH in Hin. destruct Hin as (k & len' & Hk & Hmk & Hs & He).
      exists (S k), len'. simpl. repeat split; try lia. exact Hmk.
  - intros Hin. apply IH in Hin. destruct Hin as (k & len' & Hk & Hmk & Hs & He).
    exists (S k), len'. simpl. repeat split; try lia. exact Hmk.
Qed.

(** Skipping a prefix in which the pattern matches nowhere. *)
Lemma execAll_no_match matchAt (pre s : jsstring) pos :
  (forall k, (k < length pre)%nat -> matchAt (drop k (pre ++ s)) = None) ->
  execAll matchAt (pre ++ s) pos 0 = execAll matchAt s (pos + length pre) 0.
Proof.
  revert pos. induction pre as [|c pre IH]; intros pos Hnone; simpl.
  - rewrite Nat.add_0_r. reflexivity.
  - pose proof (Hnone 0%nat) as H0. simpl in H0. rewrite H0 by lia.
    rewrite IH; [f_equal; lia|].
    intros k Hk. apply (Hnone (S k)). simpl. lia.
Qed.

(** Passing over the rest of a match. *)
Lemma execAll_skip matchAt (pre s : jsstring) pos :
  execAll matchAt (pre ++ s) pos (length pre) = execAll matchAt s (pos + length pre) 0.
Proof.
  revert pos. induction pre as [|c pre IH]; intros pos; simpl.
  - rewrite Nat.add_0_r. reflexivity.
  - rewrite IH. f_equal. lia.
Qed.

Lemma execAll_match matchAt (c : N) (token s : jsstring) pos group :
  matchAt (c :: token ++ s) = Some (S (length token), group) ->
  execAll matchAt (c :: token ++ s) pos 0 =
  {| m_start := pos; m_end := pos + S (length token); m_group := group |}
    :: execAll matchAt s (pos + S (length token)) 0.
Proof.
  intros Hm. simpl. rewrite Hm. simpl. rewrite Nat.sub_0_r, execAll_skip.
  do 2 f_equal. lia.
Qed.

(** *** The shape of a match *)

Lemma takeWhile_drop f (s : jsstring) :
  s = takeWhile f s ++ drop (length (takeWhile f s)) s.
Proof.
  induction s as [|c s IH]; simpl; [reflexivity|].
  destruct (f c); simpl; [f_equal; exact IH | reflexivity].
Qed.

Lemma takeWhile_all f (s : jsstring) : forallb f (takeWhile f s) = true.
Proof.
  induction s as [|c s IH]; simpl; [reflexivity|].
  destruct (f c) eqn:Hc; simpl; [rewrite Hc; exact IH | reflexivity].
Qed.

Lemma takeWhile_app f (ds : jsstring) (c : N) (s : jsstring) :
  forallb f ds = true -> f c = false -> takeWhile f (ds ++ c :: s) = ds.
Proof.
  intros Hds Hc. induction ds as [|d ds IH]; simpl in *.
  - rewrite Hc. reflexivity.
  - apply andb_true_iff in Hds. destruct Hds as [Hd Hds].
    rewrite Hd, IH by exact Hds. reflexivity.
Qed.

Lemma matchMention_shape (s : jsstring) len group :
  matchMention s = Some (len, group) ->
  exists bang rest,
    s = mentionToken bang group ++ rest /\
    len = length (mentionToken bang group) /\
    group <> [] /\ forallb isDigit group = true.
Proof.
  unfold matchMention.
  destruct s as [|c0 [|c1 s1]]; try discriminate.
  destruct (N.eqb_spec c0 60) as [->|]; [|discriminate].
  destruct (N.eqb_spec c1 64) as [->|]; [|discriminate]. simpl.
  set (bang := match s1 with c2 :: _ => (c2 =? 33)%N | [] => false end).
  set (s2 := if bang then drop 1 s1 else s1).
  assert (Hs1 : s1 = (if bang then [33%N] else []) ++ s2).
  { subst s2 bang. destruct s1 as [|c2 s1]; [reflexivity|].
    destruct (N.eqb_spec c2 33) as [->|]; reflexivity. }
  pose proof (takeWhile_drop isDigit s2) as Hsplit.
  pose proof (takeWhile_all isDigit s2) as Hall.
  destruct (takeWhile isDigit s2) as [|d ds] eqn:Htw; [discriminate|].
  change (length (d :: ds)) with (S (length ds)) in Hsplit.
  destruct (drop (S (length ds)) s2) as [|c rest] eqn:Hdrop; [discriminate|].
  destruct (N.eqb_spec c 62) as [->|]; [|discriminate].
  intros [= <- <-].
  exists bang, rest. repeat split; try assumption; try discriminate.
  - unfold mentionToken. rewrite Hs1, Hsplit.
    destruct bang; simpl; rewrite <- ?app_assoc; reflexivity.
  - unfold mentionToken. destruct bang; simpl; rewrite !length_app; simpl; lia.
Qed.

Lemma matchUsername_shape (s : jsstring) len group :
  matchUsername s = Some (len, group) ->
  exists rest,
    s = 64%N :: group ++ rest /\
    len = S (length group) /\
    group <> [] /\ forallb isWord group = true.
Proof.
  unfold matchUsername.
  destruct s as [|c0 s1]; [discriminate|].
  destruct (N.eqb_spec c0 64) as [->|]; [|discriminate].
  pose proof (takeWhile_drop isWord s1) as Hsplit.
  pose proof (takeWhile_all isWord s1) as Hall.
  destruct (takeWhile isWord s1) as [|w ws] eqn:Htw; [discriminate|].
  intros [= <- <-]. eexists. repeat split; try assumption; try discriminate.
  rewrite Hsplit at 1. reflexivity.
Qed.

(** *** Characters under a match *)

Lemma lookup_under_drop (s t rest : jsstring) (k i : nat) :
  drop k s = t ++ rest -> (i < length t)%nat -> s !! (k + i)%nat = t !! i.
Proof.
  intros Hdrop Hi. rewrite <- lookup_drop, Hdrop. apply lookup_app_l. exact Hi.
Qed.

Lemma forallb_lookup (f : N -> bool) (l : jsstring) (i : nat) (c : N) :
  forallb f l = true -> l !! i = Some c -> f c = true.
Proof.
  intros Hall Hi. rewrite forallb_forall in Hall. apply Hall.
  apply list_elem_of_In. eapply list_elem_of_lookup_2. exact Hi.
Qed.

Lemma mentionToken_length bang group :
  length (mentionToken bang group) = (3 + (if bang then 1 else 0) + length group)%nat.
Proof.
  unfold mentionToken. destruct bang; simpl; rewrite length_app; simpl; lia.
Qed.

Lemma mentionToken_first bang group : mentionToken bang group !! 0%nat = Some 60%N.
Proof. reflexivity. Qed.

Lemma mentionToken_second bang group : mentionToken bang group !! 1%nat = Some 64%N.
Proof. reflexivity. Qed.

Lemma mentionToken_last bang group :
  mentionToken bang group !! (length (mentionToken bang group) - 1)%nat = Some 62%N.
Proof.
  unfold mentionToken.
  set (b := if bang then [33%N] else []).
  replace ([60%N; 64%N] ++ b ++ group ++ [62%N])
    with (([60%N; 64%N] ++ b ++ group) ++ [62%N])
    by (rewrite <- !app_assoc; reflexivity).
  rewrite length_app, lookup_app_r by (simpl; lia).
  replace (_ - _)%nat with 0%nat by (simpl; lia). reflexivity.
Qed.

(** Inside a mention token there is one [@], the second character. *)
Lemma mentionToken_at bang group (i : nat) :
  forallb isDigit group = true ->
  mentionToken bang group !! i = Some 64%N -> i = 1%nat.
Proof.
  intros Hall. unfold mentionToken.
  destruct i as [|[|i]]; simpl; [discriminate | reflexivity |].
  intros Hi. exfalso.
  apply list_elem_of_lookup_2 in Hi.
  rewrite !elem_of_app in Hi. destruct Hi as [Hi|[Hi|Hi]].
  - destruct bang; [|apply elem_of_nil in Hi; exact Hi].
    apply list_elem_of_singleton in Hi. discriminate.
  - rewrite forallb_forall in Hall. apply list_elem_of_In in Hi.
    apply Hall in Hi. discriminate.
  - apply list_elem_of_singleton in Hi. discriminate.
Qed.

(** *** Overlap is containment *)

(** A plain-name match that shares a code unit with a mention lies inside
    the mention: it starts at the [@] of the mention and stops before the
    closing [>]. *)
Lemma overlap_is_containment (section : jsstring) u m :
  In u (usernamesOf section) -> In m (mentionsOf section) ->
  overlaps u m = true ->
  (m_start m <= m_start u)%nat /\ (m_end u <= m_end m)%nat.
Proof.
  intros Hu Hm Hover.
  apply execAll_sound in Hu. destruct Hu as (c & lenU & Hc & HmU & HsU & HeU).
  apply execAll_sound in Hm. destruct Hm as (a & lenM & Ha & HmM & HsM & HeM).
  apply matchUsername_shape in HmU.
  destruct HmU as (restU & HdU & -> & HneU & HallU).
  apply matchMention_shape in HmM.
  destruct HmM as (bang & restM & HdM & -> & HneM & HallM).
  unfold overlaps in Hover. apply andb_true_iff in Hover.
  destruct Hover as [H1 H2]. apply Nat.ltb_lt in H1, H2.
  rewrite Nat.add_0_l in HsU, HeU, HsM, HeM.
  rewrite HsU, HeU, HsM, HeM in *.
  set (L := length (mentionToken bang (m_group m))) in *.
  assert (HL : L = (3 + (if bang then 1 else 0) + length (m_group m))%nat)
    by apply mentionToken_length.
  assert (Hgm : (1 <= length (m_group m))%nat)
    by (destruct (m_group m); [congruence | simpl; lia]).
  (* the characters of the plain name *)
  assert (HcharU : forall i, (1 <= i < S (length (m_group u)))%nat ->
            exists ch, section !! (c + i)%nat = Some ch /\ isWord ch = true).
  { intros i Hi.
    rewrite (lookup_under_drop section (64%N :: m_group u) restU c i)
      by (try exact HdU; simpl; lia).
    destruct i as [|i]; [lia|]. simpl.
    destruct (lookup_lt_is_Some_2 (m_group u) i) as [ch Hch]; [lia|].
    exists ch. split; [exact Hch|]. eapply forallb_lookup; eassumption. }
  assert (HatU : section !! c = Some 64%N).
  { rewrite <- (Nat.add_0_r c).
    rewrite (lookup_under_drop section (64%N :: m_group u) restU c 0)
      by (try exact HdU; simpl; lia). reflexivity. }
  (* the characters of the mention *)
  assert (HcharM : forall i, (i < L)%nat ->
            section !! (a + i)%nat = mentionToken bang (m_group m) !! i).
  { intros i Hi. apply (lookup_under_drop section _ restM a i HdM). exact Hi. }
  (* the mention starts before the plain name *)
  assert (Hac : (a < c)%nat).
  { destruct (Nat.lt_trichotomy a c) as [Hlt|[Heq|Hgt]]; [exact Hlt| |].
    - rewrite <- Heq, <- (Nat.add_0_r a), (HcharM 0%nat) in HatU by lia.
      rewrite mentionToken_first in HatU. discriminate.
    - destruct (HcharU (a - c)%nat) as (ch & Hch & Hw); [lia|].
      replace (c + (a - c))%nat with (a + 0)%nat in Hch by lia.
      rewrite (HcharM 0%nat), mentionToken_first in Hch by lia.
      injection Hch as <-. discriminate. }
  (* the plain name starts at the [@] of the mention *)
  assert (Hc1 : c = (a + 1)%nat).
  { replace c with (a + (c - a))%nat in HatU by lia.
    rewrite (HcharM (c - a)%nat) in HatU by lia.
    apply mentionToken_at in HatU; [lia | exact HallM]. }
  split; [lia|].
  (* and stops before the closing [>] *)
  destruct (Nat.le_gt_cases (c + S (length (m_group u))) (a + L)) as [Hle|Hgt];
    [lia|].
  exfalso.
  destruct (HcharU (L - 2)%nat) as (ch & Hch & Hw); [lia|].
  replace (c + (L - 2))%nat with (a + (L - 1))%nat in Hch by lia.
  rewrite (HcharM (L - 1)%nat) in Hch by lia.
  unfold L in Hch. rewrite mentionToken_last in Hch.
  injection Hch as <-. discriminate.
Qed.

Lemma overlap_is_discarded (section : jsstring) u m :
  In u (usernamesOf section) -> In m (mentionsOf section) ->
  overlaps u m = true ->
  isInsideMention (mentionsOf section) u = true.
Proof.
  intros Hu Hm Hover. unfold isInsideMention. apply existsb_exists.
  exists m. split; [exact Hm|].
  destruct (overlap_is_containment section u m Hu Hm Hover) as [H1 H2].
  apply andb_true_iff. split; apply Nat.leb_le; assumption.
Qed.

(** *** Sections made of mentions only *)

Lemma isDigit_not_bang d : isDigit d = true -> (d =? 33)%N = false.
Proof.
  unfold isDigit, inRange. intros H. apply andb_true_iff in H.
  destruct H as [H _]. apply N.leb_le in H. apply N.eqb_neq. lia.
Qed.

Lemma matchMention_after_at (bang : bool) (s2 : jsstring) :
  (bang = false -> forall c s3, s2 = c :: s3 -> (c =? 33)%N = false) ->
  matchMention (60%N :: 64%N :: (if bang then [33%N] else []) ++ s2) =
  let ds := takeWhile isDigit s2 in
  match ds, drop (length ds) s2 with
  | _ :: _, c :: _ =>
      if (c =? 62)%N
      then Some ((2 + (if bang then 1 else 0) + length ds + 1)%nat, ds)
      else None
  | _, _ => None
  end.
Proof.
  intros Hbang. unfold matchMention. cbn [N.eqb Pos.eqb andb].
  destruct bang.
  - reflexivity.
  - cbn [app]. destruct s2 as [|c s3]; [reflexivity|].
    rewrite (Hbang eq_refl c s3 eq_refl). reflexivity.
Qed.

Lemma matchMention_token bang group (s : jsstring) :
  group <> [] -> forallb isDigit group = true ->
  matchMention (mentionToken bang group ++ s) =
  Some (length (mentionToken bang group), group).
Proof.
  intros Hne Hall. rewrite mentionToken_length.
  assert (Htw : takeWhile isDigit (group ++ 62%N :: s) = group)
    by (apply takeWhile_app; [exact Hall | reflexivity]).
  assert (Hdrop : drop (length group) (group ++ 62%N :: s) = 62%N :: s)
    by (rewrite drop_app_length; reflexivity).
  replace (mentionToken bang group ++ s)
    with (60%N :: 64%N :: (if bang then [33%N] else []) ++ (group ++ 62%N :: s)).
  2: { unfold mentionToken. simpl. rewrite <- !app_assoc. reflexivity. }
  rewrite matchMention_after_at.
  - cbv zeta. rewrite Htw. destruct group as [|d ds]; [congruence|].
    rewrite Hdrop. cbn [N.eqb Pos.eqb]. do 2 f_equal. lia.
  - intros _ c s3 Hc. destruct group as [|d ds]; [congruence|].
    injection Hc as <- _. simpl in Hall. apply andb_true_iff in Hall.
    apply isDigit_not_bang. tauto.
Qed.

Lemma matchMention_needs_at (s : jsstring) :
  s !! 1%nat <> Some 64%N -> matchMention s = None.
Proof.
  unfold matchMention. destruct s as [|c0 [|c1 s1]]; try reflexivity.
  simpl. intros H.
  destruct (N.eqb_spec c1 64) as [->|]; [congruence|].
  rewrite andb_false_r. reflexivity.
Qed.

Lemma mentionsOnly_head tokens :
  mentionsOnly tokens !! 0%nat <> Some 64%N.
Proof.
  destruct tokens as [|[[bang ds] sep] tokens]; simpl; discriminate.
Qed.

(** No mention starts inside a separator. *)
Lemma separator_no_mention (sep rest : jsstring) (k : nat) :
  ~ In 64%N sep -> rest !! 0%nat <> Some 64%N -> (k < length sep)%nat ->
  matchMention (drop k (sep ++ rest)) = None.
Proof.
  intros Hsep Hrest Hk. apply matchMention_needs_at.
  rewrite lookup_drop.
  destruct (Nat.lt_ge_cases (k + 1) (length sep)) as [Hin|Hout].
  - rewrite lookup_app_l by exact Hin. intros Hat.
    apply Hsep, list_elem_of_In. eapply list_elem_of_lookup_2. exact Hat.
  - rewrite lookup_app_r by exact Hout.
    replace (k + 1 - length sep)%nat with 0%nat by lia. exact Hrest.
Qed.

Lemma mentionsOnly_matches tokens pos :
  Forall wellFormedToken tokens ->
  execAll matchMention (mentionsOnly tokens) pos 0 = tokenMatches pos tokens.
Proof.
  intros Hwf. revert pos.
  induction Hwf as [|[[bang ds] sep] tokens (Hne & Hall & Hsep) _ IH]; intros pos.
  - reflexivity.
  - cbn [mentionsOnly tokenMatches].
    pose proof (matchMention_token bang ds (sep ++ mentionsOnly tokens) Hne Hall) as Hm.
    set (tail := 64%N :: (if bang then [33%N] else []) ++ ds ++ [62%N]).
    change (mentionToken bang ds) with (60%N :: tail) in Hm |- *.
    rewrite <- app_comm_cons in Hm |- *.
    rewrite (execAll_match matchMention 60%N tail _ pos ds Hm).
    f_equal. rewrite execAll_no_match.
    + rewrite IH. reflexivity.
    + intros k Hk. apply separator_no_mention;
        [exact Hsep | apply mentionsOnly_head | exact Hk].
Qed.

(** Every [@] of such a section is the [@] of one of its mentions. *)
Lemma mentionsOnly_at tokens pos (c : nat) :
  Forall wellFormedToken tokens ->
  mentionsOnly tokens !! c = Some 64%N ->
  exists m, In m (tokenMatches pos tokens) /\
            (m_start m + 1 = pos + c)%nat /\ (m_start m + 3 < m_end m)%nat.
Proof.
  intros Hwf. revert pos c.
  induction Hwf as [|[[bang ds] sep] tokens (Hne & Hall & Hsep) _ IH]; intros pos c.
  - simpl. rewrite lookup_nil. discriminate.
  - cbn [mentionsOnly tokenMatches].
    pose proof (mentionToken_length bang ds) as Hlen.
    assert (Hds : (1 <= length ds)%nat) by (destruct ds; [congruence | simpl; lia]).
    destruct (Nat.lt_ge_cases c (length (mentionToken bang ds))) as [Hc|Hc].
    + rewrite lookup_app_l by exact Hc. intros Hat.
      apply mentionToken_at in Hat; [|exact Hall]. subst c.
      eexists. split; [left; reflexivity|]. cbn [m_start m_end]. lia.
    + rewrite lookup_app_r by exact Hc.
      destruct (Nat.lt_ge_cases (c - length (mentionToken bang ds)) (length sep)) as [Hs|Hs].
      * rewrite lookup_app_l by exact Hs. intros Hat. exfalso.
        apply Hsep, list_elem_of_In. eapply list_elem_of_lookup_2. exact Hat.
      * rewrite lookup_app_r by exact Hs. intros Hat.
        destruct (IH (pos + length (mentionToken bang ds) + length sep)%nat _ Hat)
          as (m & Hin & Hstart & Hend).
        exists m. split; [right; exact Hin|]. lia.
Qed.

Lemma filter_none {A} (f : A -> bool) (l : list A) :
  (forall x, In x l -> f x = false) -> List.filter f l = [].
Proof.
  induction l as [|x l IH]; simpl; intros H; [reflexivity|].
  rewrite (H x) by (left; reflexivity). apply IH. intros y Hy. apply H. right. exact Hy.
Qed.

Lemma tokenMatches_players pos tokens :
  map mentionedPlayer (tokenMatches pos tokens) =
  map (fun token : bool * jsstring * jsstring =>
         {| ref_discordId := Some (snd (fst token)); ref_username := [] |}) tokens.
Proof.
  revert pos. induction tokens as [|[[bang ds] sep] tokens IH]; intros pos; simpl.
  - reflexivity.
  - rewrite IH. reflexivity.
Qed.

(** A section of mentions only yields one player per mention. *)
Lemma mentionsOnly_players (sep0 : jsstring) tokens :
  ~ In 64%N sep0 -> Forall wellFormedToken tokens ->
  extractPlayers (sep0 ++ mentionsOnly tokens) =
  map (fun token : bool * jsstring * jsstring =>
         {| ref_discordId := Some (snd (fst token)); ref_username := [] |}) tokens.
Proof.
  intros Hsep0 Hwf.
  assert (Hmentions : mentionsOf (sep0 ++ mentionsOnly tokens)
                      = tokenMatches (length sep0) tokens).
  { unfold mentionsOf. rewrite execAll_no_match.
    - apply mentionsOnly_matches. exact Hwf.
    - intros k Hk. apply separator_no_mention;
        [exact Hsep0 | apply mentionsOnly_head | exact Hk]. }
  unfold extractPlayers.
  fold (keptUsernames (sep0 ++ mentionsOnly tokens)).
  assert (Hkept : keptUsernames (sep0 ++ mentionsOnly tokens) = []).
  { apply filter_none. intros u Hu. apply negb_false_iff.
    pose proof Hu as Hsound. apply execAll_sound in Hsound.
    destruct Hsound as (c & lenU & Hc & HmU & HsU & HeU).
    apply matchUsername_shape in HmU. destruct HmU as (restU & HdU & -> & _ & _).
    rewrite Nat.add_0_l in HsU, HeU.
    assert (Hat : (sep0 ++ mentionsOnly tokens) !! c = Some 64%N).
    { rewrite <- (Nat.add_0_r c).
      rewrite (lookup_under_drop _ (64%N :: m_group u) restU c 0)
        by (try exact HdU; simpl; lia). reflexivity. }
    assert (Hge : (length sep0 <= c)%nat).
    { destruct (Nat.lt_ge_cases c (length sep0)) as [Hlt|Hge]; [|exact Hge].
      exfalso. rewrite lookup_app_l in Hat by exact Hlt.
      apply Hsep0, list_elem_of_In. eapply list_elem_of_lookup_2. exact Hat. }
    rewrite lookup_app_r in Hat by exact Hge.
    destruct (mentionsOnly_at tokens (length sep0) _ Hwf Hat) as (m & Hin & Hstart & Hend).
    rewrite <- Hmentions in Hin.
    apply (overlap_is_discarded _ u m Hu Hin).
    unfold overlaps. apply andb_true_iff. split; apply Nat.ltb_lt; lia. }
  change (map (fun m => {| ref_discordId := Some (m_group m); ref_username := [] |}))
    with (map mentionedPlayer).
  change (List.filter _ (usernamesOf (sep0 ++ mentionsOnly tokens)))
    with (keptUsernames (sep0 ++ mentionsOnly tokens)).
  rewrite Hkept, Hmentions, app_nil_r. apply tokenMatches_players.
Qed.

(** *** A plain name outside the mentions *)

(** The [exec] loop finds every match that no earlier match runs over. *)
Lemma execAll_finds matchAt (s : jsstring) (pos skip k len : nat) group :
  matchAt (drop k s) = Some (len, group) ->
  (skip <= k < length s)%nat ->
  (forall j len' group', (j < k)%nat ->
     matchAt (drop j s) = Some (len', group') -> (j + len' <= k)%nat) ->
  In {| m_start := pos + k; m_end := pos + k + len; m_group := group |}
     (execAll matchAt s pos skip).
Proof.
  revert pos skip k. induction s as [|c s IH]; intros pos skip k Hm Hk Hfree.
  - simpl in Hk. lia.
  - simpl. destruct skip as [|skip].
    + destruct k as [|k].
      * simpl in Hm. rewrite Hm. left. rewrite !Nat.add_0_r. reflexivity.
      * assert (Hrec : forall skip', (skip' <= k)%nat ->
                  In {| m_start := pos + S k; m_end := pos + S k + len; m_group := group |}
                     (execAll matchAt s (S pos) skip')).
        { intros skip' Hs.
          replace (pos + S k)%nat with (S pos + k)%nat by lia.
          apply IH; [exact Hm | simpl in Hk; lia |].
          intros j len' group' Hj Hmj.
          pose proof (Hfree (S j) len' group' ltac:(lia) Hmj). lia. }
        destruct (matchAt (c :: s)) as [[len0 group0]|] eqn:Hm0.
        -- right. apply Hrec.
           pose proof (Hfree 0%nat len0 group0 ltac:(lia) Hm0). lia.
        -- apply Hrec. lia.
    + destruct k as [|k]; [lia|].
      replace (pos + S k)%nat with (S pos + k)%nat by lia.
      apply IH; [exact Hm | simpl in Hk; lia |].
      intros j len' group' Hj Hmj.
      pose proof (Hfree (S j) len' group' ltac:(lia) Hmj). lia.
Qed.

Lemma isWord_not_at c : isWord c = true -> c <> 64%N.
Proof. intros H ->. discriminate. Qed.

Lemma takeWhile_end f (name post : jsstring) :
  forallb f name = true ->
  (forall c, post !! 0%nat = Some c -> f c = false) ->
  takeWhile f (name ++ post) = name.
Proof.
  intros Hname Hpost. destruct post as [|c post].
  - rewrite app_nil_r. induction name as [|d name IH]; simpl in *; [reflexivity|].
    apply andb_true_iff in Hname. destruct Hname as [Hd Hname].
    rewrite Hd, IH by exact Hname. reflexivity.
  - apply takeWhile_app; [exact Hname | apply Hpost; reflexivity].
Qed.

(** An [@] followed by a word is a match of the plain-name pattern,
    wherever it stands. *)
Lemma usernamesOf_finds (pre name post : jsstring) :
  name <> [] -> forallb isWord name = true ->
  (forall c, post !! 0%nat = Some c -> isWord c = false) ->
  In {| m_start := length pre; m_end := length pre + S (length name); m_group := name |}
     (usernamesOf (pre ++ 64%N :: name ++ post)).
Proof.
  intros Hne Hname Hpost. unfold usernamesOf.
  assert (Hm : matchUsername (drop (length pre) (pre ++ 64%N :: name ++ post))
               = Some (S (length name), name)).
  { rewrite drop_app_length. unfold matchUsername. cbn [N.eqb Pos.eqb].
    rewrite takeWhile_end by assumption.
    destruct name; [congruence | reflexivity]. }
  apply (execAll_finds matchUsername _ 0 0 (length pre) _ _ Hm).
  - rewrite length_app. simpl. lia.
  - intros j len' group' Hj Hmj.
    apply matchUsername_shape in Hmj. destruct Hmj as (rest & Hd & -> & _ & Hall).
    destruct (Nat.le_gt_cases (j + S (length group')) (length pre)) as [Hle|Hgt];
      [exact Hle|].
    exfalso.
    assert (Hat : (pre ++ 64%N :: name ++ post) !! (j + (length pre - j))%nat
                  = (64%N :: group') !! (length pre - j)%nat).
    { apply (lookup_under_drop _ (64%N :: group') rest j _ Hd). simpl. lia. }
    replace (j + (length pre - j))%nat with (length pre) in Hat by lia.
    rewrite lookup_app_r, Nat.sub_diag in Hat by lia. simpl in Hat.
    destruct (length pre - j)%nat as [|i] eqn:Hi; [lia|]. simpl in Hat.
    symmetry in Hat. apply (forallb_lookup _ _ _ _ Hall) in Hat. discriminate.
Qed.

(** It lies inside a mention only when it is the [@] and the digits of the
    mention. *)
Lemma name_inside_mention (pre name post : jsstring) :
  name <> [] -> forallb isWord name = true ->
  (forall c, post !! 0%nat = Some c -> isWord c = false) ->
  isInsideMention (mentionsOf (pre ++ 64%N :: name ++ post))
    {| m_start := length pre; m_end := length pre + S (length name); m_group := name |}
  = true ->
  last pre = Some 60%N /\ forallb isDigit name = true /\ post !! 0%nat = Some 62%N.
Proof.
  intros Hne Hname Hpost Hinside.
  set (section := pre ++ 64%N :: name ++ post) in *.
  unfold isInsideMention in Hinside. apply existsb_exists in Hinside.
  destruct Hinside as (m & Hm & Hspan). cbn [m_start m_end] in Hspan.
  apply andb_true_iff in Hspan. destruct Hspan as [H1 H2].
  apply Nat.leb_le in H1, H2.
  apply execAll_sound in Hm. destruct Hm as (a & lenM & Ha & HmM & HsM & HeM).
  apply matchMention_shape in HmM.
  destruct HmM as (bang & restM & HdM & -> & HneM & HallM).
  rewrite Nat.add_0_l in HsM, HeM. rewrite HsM in H1. rewrite HeM in H2.
  set (L := length (mentionToken bang (m_group m))) in *.
  assert (HL : L = (3 + (if bang then 1 else 0) + length (m_group m))%nat)
    by apply mentionToken_length.
  assert (HcharM : forall i, (i < L)%nat ->
            section !! (a + i)%nat = mentionToken bang (m_group m) !! i).
  { intros i Hi. apply (lookup_under_drop section _ restM a i HdM). exact Hi. }
  assert (Hsec : forall i, section !! (length pre + i)%nat = (64%N :: name ++ post) !! i).
  { intros i. unfold section. rewrite lookup_app_r by lia. f_equal. lia. }
  (* the [@] of the name is the [@] of the mention *)
  assert (Hpos : length pre = (a + 1)%nat).
  { pose proof (Hsec 0%nat) as Hat. rewrite Nat.add_0_r in Hat. simpl in Hat.
    replace (length pre) with (a + (length pre - a))%nat in Hat by lia.
    rewrite (HcharM (length pre - a)%nat) in Hat by lia.
    apply mentionToken_at in Hat; [lia | exact HallM]. }
  (* so the mention has no [!], and its digits are the name *)
  assert (Hrest : name ++ post =
                  (if bang then [33%N] else []) ++ m_group m ++ 62%N :: restM).
  { assert (Hdrop : drop (a + 2) section = name ++ post).
    { unfold section. replace (a + 2)%nat with (length pre + 1)%nat by lia.
      rewrite drop_app_add'; [reflexivity | reflexivity]. }
    rewrite <- Hdrop. rewrite <- (drop_drop section 2 a), HdM.
    unfold mentionToken. simpl. rewrite <- !app_assoc. reflexivity. }
  destruct bang.
  { exfalso. destruct name as [|c name]; [congruence|].
    simpl in Hrest, Hname. injection Hrest as -> _. discriminate. }
  simpl in Hrest.
  assert (Hdigits : forallb isWord (m_group m) = true).
  { rewrite forallb_forall in HallM |- *. intros c Hc. apply HallM in Hc.
    unfold isWord. rewrite Hc. reflexivity. }
  assert (Hsame : name = m_group m).
  { rewrite <- (takeWhile_end isWord name post Hname Hpost), Hrest.
    apply takeWhile_app; [exact Hdigits | reflexivity]. }
  split; [|split].
  - assert (Hlast : section !! a = Some 60%N).
    { rewrite <- (Nat.add_0_r a), (HcharM 0%nat) by lia. reflexivity. }
    unfold section in Hlast. rewrite lookup_app_l in Hlast by lia.
    rewrite last_lookup. replace (pred (length pre)) with a by lia. exact Hlast.
  - rewrite Hsame. exact HallM.
  - rewrite Hsame in Hrest. apply app_inv_head in Hrest. rewrite Hrest. reflexivity.
Qed.

(** *** A mention, wherever it stands *)

(** Inside a mention token there is one [<], the first character. *)
Lemma mentionToken_open bang group (i : nat) :
  forallb isDigit group = true ->
  mentionToken bang group !! i = Some 60%N -> i = 0%nat.
Proof.
  intros Hall. unfold mentionToken.
  destruct i as [|[|i]]; simpl; [reflexivity | discriminate |].
  intros Hi. exfalso.
  apply list_elem_of_lookup_2 in Hi.
  rewrite !elem_of_app in Hi. destruct Hi as [Hi|[Hi|Hi]].
  - destruct bang; [|apply elem_of_nil in Hi; exact Hi].
    apply list_elem_of_singleton in Hi. discriminate.
  - rewrite forallb_forall in Hall. apply list_elem_of_In in Hi.
    apply Hall in Hi. discriminate.
  - apply list_elem_of_singleton in Hi. discriminate.
Qed.

Lemma mentionsOf_finds (pre digits post : jsstring) (bang : bool) :
  digits <> [] -> forallb isDigit digits = true ->
  In {| m_start := length pre;
        m_end := length pre + length (mentionToken bang digits);
        m_group := digits |}
     (mentionsOf (pre ++ mentionToken bang digits ++ post)).
Proof.
  intros Hne Hall. unfold mentionsOf.
  assert (Hm : matchMention (drop (length pre) (pre ++ mentionToken bang digits ++ post))
               = Some (length (mentionToken bang digits), digits)).
  { rewrite drop_app_length. apply matchMention_token; assumption. }
  apply (execAll_finds matchMention _ 0 0 (length pre) _ _ Hm).
  - rewrite !length_app, mentionToken_length. lia.
  - intros j len' group' Hj Hmj.
    apply matchMention_shape in Hmj.
    destruct Hmj as (bang' & rest & Hd & -> & _ & Hall').
    destruct (Nat.le_gt_cases (j + length (mentionToken bang' group')) (length pre))
      as [Hle|Hgt]; [exact Hle|].
    exfalso.
    assert (Hat : (pre ++ mentionToken bang digits ++ post) !! (j + (length pre - j))%nat
                  = mentionToken bang' group' !! (length pre - j)%nat).
    { apply (lookup_under_drop _ _ rest j _ Hd). lia. }
    replace (j + (length pre - j))%nat with (length pre) in Hat by lia.
    rewrite lookup_app_r, Nat.sub_diag in Hat by lia.
    rewrite lookup_app_l in Hat by (rewrite mentionToken_length; lia).
    rewrite mentionToken_first in Hat. symmetry in Hat.
    apply mentionToken_open in Hat; [lia | exact Hall'].
Qed.

(** No plain name is kept at the [@] of a mention. *)
Lemma mention_not_kept (pre digits post : jsstring) (bang : bool) u :
  digits <> [] -> forallb isDigit digits = true ->
  In u (keptUsernames (pre ++ mentionToken bang digits ++ post)) ->
  m_start u <> S (length pre).
Proof.
  intros Hne Hall Hu Hstart.
  set (section := pre ++ mentionToken bang digits ++ post) in *.
  unfold keptUsernames in Hu. apply filter_In in Hu. destruct Hu as [Hu Hout].
  apply negb_true_iff in Hout.
  pose proof Hu as Hsound. apply execAll_sound in Hsound.
  destruct Hsound as (c & lenU & Hc & HmU & HsU & HeU).
  rewrite Nat.add_0_l in HsU, HeU. rewrite Hstart in HsU. subst c.
  (* what follows the [@] of the mention *)
  assert (Hdrop : drop (S (length pre)) section
                  = 64%N :: (if bang then [33%N] else []) ++ digits ++ 62%N :: post).
  { unfold section. replace (S (length pre)) with (length pre + 1)%nat by lia.
    rewrite <- (drop_drop _ 1 (length pre)), drop_app_length.
    unfold mentionToken. simpl. rewrite <- !app_assoc. reflexivity. }
  rewrite Hdrop in HmU. unfold matchUsername in HmU. cbn [N.eqb Pos.eqb] in HmU.
  destruct bang; [simpl in HmU; discriminate|].
  assert (Hdigits : forallb isWord digits = true).
  { rewrite forallb_forall in Hall |- *. intros ch Hch. apply Hall in Hch.
    unfold isWord. rewrite Hch. reflexivity. }
  cbn [app] in HmU.
  rewrite (takeWhile_app isWord digits 62%N post Hdigits eq_refl) in HmU.
  assert (Hgroup : lenU = S (length digits) /\ m_group u = digits).
  { destruct digits as [|d ds]; [congruence|]. injection HmU as <- <-. split; reflexivity. }
  destruct Hgroup as [-> Hgroup].
  assert (Hin : isInsideMention (mentionsOf section) u = true).
  { unfold isInsideMention. apply existsb_exists.
    exists {| m_start := length pre;
              m_end := length pre + length (mentionToken false digits);
              m_group := digits |}.
    split; [apply mentionsOf_finds; assumption|].
    cbn [m_start m_end]. rewrite mentionToken_length, Hstart, HeU.
    apply andb_true_iff. split; apply Nat.leb_le; simpl; lia. }
  congruence.
Qed.

(** *** The specified property of [parseResultRow] *)

(** C9: the players of a result row are, first, one per mention token, in
    order, and then one per plain [@name] match that is not inside a
    mention.  A plain-name match whose span overlaps the span of a mention
    is discarded.  Wherever a mention token stands in the players section,
    it yields a player with its id, and no plain name is kept at its [@];
    wherever an [@] with a word after it stands, other than the [@] and the
    digits of a mention token, it yields a player with that name.  A
    players section that contains only mentions yields exactly one player
    per mention. *)
Theorem mentions_then_plain_names row parsed :
  parseResultRow row = Some parsed ->
  exists guessChar section,
    matchRow row = Some (guessChar, section) /\
    row_players parsed =
      map mentionedPlayer (mentionsOf section)
      ++ map plainPlayer (keptUsernames section) /\
    (forall u m,
        In u (usernamesOf section) -> In m (mentionsOf section) ->
        overlaps u m = true -> ~ In u (keptUsernames section)) /\
    (forall pre bang digits post,
        section = pre ++ mentionToken bang digits ++ post ->
        digits <> [] -> forallb isDigit digits = true ->
        In {| m_start := length pre;
              m_end := length pre + length (mentionToken bang digits);
              m_group := digits |} (mentionsOf section) /\
        In {| ref_discordId := Some digits; ref_username := [] |} (row_players parsed) /\
        forall u, In u (keptUsernames section) -> m_start u <> S (length pre)) /\
    (forall pre name post,
        section = pre ++ 64%N :: name ++ post ->
        name <> [] -> forallb isWord name = true ->
        (forall c, post !! 0%nat = Some c -> isWord c = false) ->
        ~ (last pre = Some 60%N /\ forallb isDigit name = true /\
           post !! 0%nat = Some 62%N) ->
        In {| m_start := length pre; m_end := length pre + S (length name);
              m_group := name |} (keptUsernames section) /\
        In {| ref_discordId := None; ref_username := name |} (row_players parsed)) /\
    (forall sep0 tokens,
        section = sep0 ++ mentionsOnly tokens ->
        ~ In 64%N sep0 -> Forall wellFormedToken tokens ->
        row_players parsed =
          map (fun token : bool * jsstring * jsstring =>
                 {| ref_discordId := Some (snd (fst token)); ref_username := [] |})
              tokens /\
        length (row_players parsed) = length tokens).
Proof.
  unfold parseResultRow. intros Hparsed.
  destruct (matchRow row) as [[guessChar section]|]; [|discriminate].
  exists guessChar, section. split; [reflexivity|].
  assert (Hplayers : row_players parsed = extractPlayers section).
  { destruct (extractPlayers section); [discriminate|].
    injection Hparsed as <-. reflexivity. }
  assert (Hsplit : row_players parsed =
                   map mentionedPlayer (mentionsOf section)
                   ++ map plainPlayer (keptUsernames section)) by exact Hplayers.
  split; [exact Hsplit|]. split; [|split; [|split]].
  - intros u m Hu Hm Hover Hkept.
    apply filter_In in Hkept. destruct Hkept as [_ Hkept].
    rewrite (overlap_is_discarded _ u m Hu Hm Hover) in Hkept. discriminate.
  - intros pre bang digits post -> Hne Hall.
    pose proof (mentionsOf_finds pre digits post bang Hne Hall) as Hm.
    split; [exact Hm|]. split.
    + rewrite Hsplit. apply in_or_app. left.
      apply (in_map mentionedPlayer) in Hm. exact Hm.
    + intros u Hu. apply (mention_not_kept pre digits post bang u Hne Hall Hu).
  - intros pre name post -> Hne Hname Hpost Hout.
    assert (Hkept : In {| m_start := length pre; m_end := length pre + S (length name);
                          m_group := name |}
                       (keptUsernames (pre ++ 64%N :: name ++ post))).
    { unfold keptUsernames. apply filter_In.
      split; [apply usernamesOf_finds; assumption|].
      apply negb_true_iff.
      destruct (isInsideMention _ _) eqn:Hin; [|reflexivity].
      exfalso. apply Hout. apply (name_inside_mention pre name post); assumption. }
    split; [exact Hkept|].
    rewrite Hsplit. apply in_or_app. right.
    apply (in_map plainPlayer) in Hkept. exact Hkept.
  - intros sep0 tokens -> Hsep0 Hwf.
    rewrite Hplayers, mentionsOnly_players by assumption.
    split; [reflexivity | apply length_map].
Qed.

Lemma mentions_then_plain_names_witness :
  exists guessChar section,
    matchRow (lit "2/6: @brollen <@371>") = Some (guessChar, section) /\
    [ {| ref_discordId := Some (lit "371"); ref_username := [] |};
      {| ref_discordId := None; ref_username := lit "brollen" |} ] =
      map mentionedPlayer (mentionsOf section)
      ++ map plainPlayer (keptUsernames section) /\
    (forall u m,
        In u (usernamesOf section) -> In m (mentionsOf section) ->
        overlaps u m = true -> ~ In u (keptUsernames section)) /\
    (forall pre bang digits post,
        section = pre ++ mentionToken bang digits ++ post ->
        digits <> [] -> forallb isDigit digits = true ->
        In {| m_start := length pre;
              m_end := length pre + length (mentionToken bang digits);
              m_group := digits |} (mentionsOf section) /\
        In {| ref_discordId := Some digits; ref_username := [] |}
           [ {| ref_discordId := Some (lit "371"); ref_username := [] |};
             {| ref_discordId := None; ref_username := lit "brollen" |} ] /\
        forall u, In u (keptUsernames section) -> m_start u <> S (length pre)) /\
    (forall pre name post,
        section = pre ++ 64%N :: name ++ post ->
        name <> [] -> forallb isWord name = true ->
        (forall c, post !! 0%nat = Some c -> isWord c = false) ->
        ~ (last pre = Some 60%N /\ forallb isDigit name = true /\
           post !! 0%nat = Some 62%N) ->
        In {| m_start := length pre; m_end := length pre + S (length name);
              m_group := name |} (keptUsernames section) /\
        In {| ref_discordId := None; ref_username := name |}
           [ {| ref_discordId := Some (lit "371"); ref_username := [] |};
             {| ref_discordId := None; ref_username := lit "brollen" |} ]) /\
    (forall sep0 tokens,
        section = sep0 ++ mentionsOnly tokens ->
        ~ In 64%N sep0 -> Forall wellFormedToken tokens ->
        [ {| ref_discordId := Some (lit "371"); ref_username := [] |};
          {| ref_discordId := None; ref_username := lit "brollen" |} ] =
          map (fun token : bool * jsstring * jsstring =>
                 {| ref_discordId := Some (snd (fst token)); ref_username := [] |})
              tokens /\
        2%nat = length tokens).
Proof.
  apply (mentions_then_plain_names (lit "2/6: @brollen <@371>")
           {| row_guessCount := 2;
              row_players :=
                [ {| ref_discordId := Some (lit "371"); ref_username := [] |};
                  {| ref_discordId := None; ref_username := lit "brollen" |} ] |}).
  vm_compute. reflexivity.
Defined.

End Scanning.

(** ** The game date *)

Section GameDate.

Import Js JsDate Parser.

Local Open Scope Z_scope.

(** The sample announcement, posted on 2024-03-10T08:00:00Z, on a host in
    UTC: four players, dated 2024-03-09. *)
Example sample_announcement_parsed :
  exists parsed,
    parseWordleMessage utc Pipeline.sampleMessage = Returns (Some parsed) /\
    u_gameDate parsed = lit "2024-03-09" /\
    map u_guessCount (u_results parsed) = [2; 2; 4; 7].
Proof. eexists. split; [vm_compute; reflexivity|]. split; reflexivity. Qed.

(** *** Years *)

Lemma DayFromYear_step y : DayFromYear (y + 1) = DayFromYear y + DaysInYear y.
Proof.
  unfold DayFromYear, DaysInYear.
  destruct (Z.eqb_spec (y mod 4) 0); simpl;
  [destruct (Z.eqb_spec (y mod 100) 0); simpl;
   [destruct (Z.eqb_spec (y mod 400) 0); simpl|]|];
  Z.div_mod_to_equations; lia.
Qed.

Lemma DaysInYear_cases y : DaysInYear y = 365 \/ DaysInYear y = 366.
Proof. unfold DaysInYear. repeat (destruct (negb _)); tauto. Qed.

Lemma DayFromYear_mono y y' : y <= y' -> DayFromYear y <= DayFromYear y'.
Proof. intros H. unfold DayFromYear. Z.div_mod_to_equations; lia. Qed.

(** [YearFromTime t] is the year that contains the day of [t]. *)
Lemma YearFromTime_spec t :
  DayFromYear (YearFromTime t) <= Day t < DayFromYear (YearFromTime t + 1).
Proof.
  unfold YearFromTime.
  set (d := Day t). set (y0 := 1970 + d * 400 / 146097).
  assert (Hb : DayFromYear (y0 - 1) <= d < DayFromYear (y0 + 2)).
  { subst y0. unfold DayFromYear. Z.div_mod_to_equations; lia. }
  destruct (Z.leb_spec (DayFromYear (y0 + 1)) d).
  - replace (y0 + 1 + 1) with (y0 + 2) by lia. lia.
  - destruct (Z.leb_spec (DayFromYear y0) d).
    + lia.
    + replace (y0 - 1 + 1) with y0 by lia. lia.
Qed.

Lemma YearFromTime_unique t y :
  DayFromYear y <= Day t < DayFromYear (y + 1) -> YearFromTime t = y.
Proof.
  intros Hy. pose proof (YearFromTime_spec t) as HY.
  destruct (Z.lt_trichotomy (YearFromTime t) y) as [Hlt|[Heq|Hgt]]; [|exact Heq|].
  - pose proof (DayFromYear_mono (YearFromTime t + 1) y). lia.
  - pose proof (DayFromYear_mono (y + 1) (YearFromTime t)). lia.
Qed.

Lemma isLeapYear_DaysInYear y : isLeapYear y = (DaysInYear y =? 366).
Proof.
  unfold isLeapYear, DaysInYear.
  destruct (Z.eqb_spec (y mod 4) 0), (Z.eqb_spec (y mod 100) 0),
    (Z.eqb_spec (y mod 400) 0); simpl; try reflexivity;
    exfalso; Z.div_mod_to_equations; lia.
Qed.

(** *** One day back *)

Lemma Day_previous t : Day (t - msPerDay) = Day t - 1.
Proof. unfold Day, msPerDay. Z.div_mod_to_equations; lia. Qed.

Lemma TimeWithinDay_previous t : TimeWithinDay (t - msPerDay) = TimeWithinDay t.
Proof. unfold TimeWithinDay, msPerDay. Z.div_mod_to_equations; lia. Qed.

Lemma monthOfDay_range d leap : 0 <= monthOfDay d leap <= 11.
Proof. unfold monthOfDay. repeat (destruct (_ <? _)); lia. Qed.

Lemma monthOfDay_previous (w leap : Z) :
  (leap = 0 \/ leap = 1) -> 0 < w < 365 + leap ->
  let m := monthOfDay w leap in
  let m' := monthOfDay (w - 1) leap in
  (monthStart m leap < w -> m' = m) /\
  (monthStart m leap = w ->
     m' = m - 1 /\ 1 <= m /\
     w - 1 - monthStart m' leap + 1 =
       match m' + 1 with
       | 2 => 28 + leap
       | 4 | 6 | 9 | 11 => 30
       | _ => 31
       end) /\
  monthStart m leap <= w.
Proof.
  intros Hleap Hw. unfold monthOfDay.
  repeat match goal with
         | |- context [?a <? ?b] => destruct (Z.ltb_spec a b)
         end; simpl; try lia; destruct Hleap; subst; simpl; lia.
Qed.

(** [setDate(getDate() - 1)] in a zone of constant offset takes the time
    value one day back. *)
Lemma setDate_previous offset t :
  setDate (fixedZone offset) t (getDate (fixedZone offset) t - 1)
  = TimeClip (t - msPerDay).
Proof.
  unfold setDate, getDate, LocalTime, UTC, fixedZone. simpl.
  set (lt := t + offset). f_equal.
  unfold MakeDate, MakeDay, DateFromTime, MonthFromTime.
  pose proof (monthOfDay_range (DayWithinYear lt) (InLeapYear lt)) as Hm.
  set (m := monthOfDay (DayWithinYear lt) (InLeapYear lt)) in *.
  replace (m / 12) with 0 by (Z.div_mod_to_equations; lia).
  replace (m mod 12) with m by (Z.div_mod_to_equations; lia).
  rewrite Z.add_0_r. fold (InLeapYear lt).
  unfold DayWithinYear, TimeWithinDay, Day, msPerDay.
  Z.div_mod_to_equations; lia.
Qed.

(** The calendar date of the day before. *)
Lemma civil_previous t : civil (t - msPerDay) = previousDay (civil t).
Proof.
  pose proof (YearFromTime_spec t) as HY.
  remember (YearFromTime t) as Y eqn:HeqY.
  pose proof (DaysInYear_cases Y) as HdY.
  pose proof (DayFromYear_step Y) as HsY.
  destruct (Z.eq_dec (Day t) (DayFromYear Y)) as [Hfirst|Hlater].
  - (* the first of January *)
    pose proof (DaysInYear_cases (Y - 1)) as HdY'.
    pose proof (DayFromYear_step (Y - 1)) as HsY'.
    replace (Y - 1 + 1) with Y in HsY' by lia.
    assert (HY' : YearFromTime (t - msPerDay) = Y - 1).
    { apply YearFromTime_unique. rewrite Day_previous.
      replace (Y - 1 + 1) with Y by lia. lia. }
    unfold civil, previousDay, DateFromTime, MonthFromTime, DayWithinYear, InLeapYear.
    rewrite HY', Day_previous, <- HeqY, Hfirst. cbn [year month day].
    replace (DayFromYear Y - DayFromYear Y) with 0 by lia.
    replace (DayFromYear Y - 1 - DayFromYear (Y - 1)) with (DaysInYear (Y - 1) - 1) by lia.
    destruct HdY' as [-> | ->], HdY as [-> | ->]; reflexivity.
  - (* any other day of the year *)
    assert (HY' : YearFromTime (t - msPerDay) = Y).
    { apply YearFromTime_unique. rewrite Day_previous. lia. }
    unfold civil, previousDay, DateFromTime, MonthFromTime, DayWithinYear, InLeapYear.
    rewrite HY', Day_previous, <- HeqY. cbn [year month day].
    set (w := Day t - DayFromYear Y).
    replace (Day t - 1 - DayFromYear Y) with (w - 1) by (subst w; lia).
    set (leap := if DaysInYear Y =? 366 then 1 else 0).
    assert (Hleap : leap = 0 \/ leap = 1) by (subst leap; destruct (_ =? _); tauto).
    assert (Hw : 0 < w < 365 + leap).
    { subst w leap. destruct HdY as [E|E]; rewrite E; simpl; lia. }
    destruct (monthOfDay_previous w leap Hleap Hw) as (Hsame & Hprev & Hle).
    pose proof (monthOfDay_range w leap) as Hm.
    set (m := monthOfDay w leap) in *. set (m' := monthOfDay (w - 1) leap) in *.
    destruct (Z.ltb_spec 1 (w - monthStart m leap + 1)) as [Hd|Hd].
    + rewrite Hsame by lia. f_equal; lia.
    + assert (Hstart : monthStart m leap = w) by lia.
      destruct (Hprev Hstart) as (Hm' & Hm1 & Hlen).
      destruct (Z.ltb_spec 1 (m + 1)) as [_|]; [|lia].
      rewrite Hm' in *. f_equal; try lia.
      rewrite Hlen. replace (m + 1 - 1) with (m - 1 + 1) by lia.
      unfold daysInMonth. rewrite isLeapYear_DaysInYear. unfold leap.
      assert (Hr : 1 <= m - 1 + 1 <= 11) by lia.
      destruct (m - 1 + 1) as [|p|p]; try lia.
      destruct (DaysInYear Y =? 366);
        repeat (destruct p as [p|p|]; try reflexivity; try lia).
Qed.

(** *** The date part of [toISOString] *)

Lemma split_until (sep : N) (a b : jsstring) :
  ~ In sep a -> split sep (a ++ sep :: b) = a :: split sep b.
Proof.
  induction a as [|c a IH]; simpl; intros Hnot.
  - rewrite N.eqb_refl. reflexivity.
  - destruct (N.eqb_spec c sep) as [->|_]; [tauto|].
    rewrite IH by tauto. reflexivity.
Qed.

Lemma digits_are_digits width n c : In c (digits width n) -> (48 <= c <= 57)%N.
Proof.
  revert n. induction width as [|width IH]; intros n; simpl; [tauto|].
  rewrite in_app_iff. intros [Hin|[<-|[]]].
  - apply (IH _ Hin).
  - pose proof (Z.mod_pos_bound n 10). lia.
Qed.

Lemma isoYear_no_T y : ~ In 84%N (isoYear y).
Proof.
  unfold isoYear. destruct (_ && _)%bool; intros Hin.
  - apply digits_are_digits in Hin. lia.
  - destruct Hin as [Hin|Hin].
    + destruct (_ <? _); discriminate.
    + apply digits_are_digits in Hin. lia.
Qed.

Lemma isoDate_no_T t : ~ In 84%N (isoDate t).
Proof.
  unfold isoDate. intros Hin. rewrite !in_app_iff in Hin.
  destruct Hin as [Hin|[[Hin|[]]|[Hin|[[Hin|[]]|Hin]]]]; try discriminate.
  - apply (isoYear_no_T _ Hin).
  - apply digits_are_digits in Hin. lia.
  - apply digits_are_digits in Hin. lia.
Qed.

Lemma toISOString_date t :
  exists time, split 84 (toISOString t) = isoDate t :: time.
Proof.
  unfold toISOString. eexists.
  change (isoDate t ++ [84%N] ++ ?rest) with (isoDate t ++ 84%N :: rest).
  apply split_until, isoDate_no_T.
Qed.

(** *** The game date in a zone of constant offset *)

(** When the zone of the host keeps one offset (as UTC does), the game date
    is the UTC calendar date of the timestamp minus one day. *)
Lemma gameDate_in_fixed_zone offset t date :
  gameDateOf (fixedZone offset) t = Returns date ->
  date = formatDate (previousDay (civil t)).
Proof.
  unfold gameDateOf. rewrite setDate_previous.
  unfold TimeClip. destruct (_ <=? _); [|discriminate].
  destruct (toISOString_date (t - msPerDay)) as [time ->].
  intros [= <-]. rewrite <- civil_previous. reflexivity.
Qed.

Lemma gameDate_fixed_zone_returns offset t :
  Z.abs (t - msPerDay) <= 8640000000000000 ->
  exists date, gameDateOf (fixedZone offset) t = Returns date.
Proof.
  intros Hrange. unfold gameDateOf. rewrite setDate_previous.
  unfold TimeClip. destruct (Z.leb_spec (Z.abs (t - msPerDay)) 8640000000000000); [|lia].
  destruct (toISOString_date (t - msPerDay)) as [time ->]. eauto.
Qed.

Lemma parseWordleMessage_in_fixed_zone offset message parsed :
  parseWordleMessage (fixedZone offset) message = Returns (Some parsed) ->
  u_gameDate parsed = formatDate (previousDay (civil (createdAt message))).
Proof.
  unfold parseWordleMessage.
  destruct (negb _); [discriminate|].
  destruct (parseResultRows _); [discriminate|].
  destruct (gameDateOf _ _) as [date|e] eqn:Hdate; [|discriminate].
  intros [= <-]. simpl. eapply gameDate_in_fixed_zone. exact Hdate.
Qed.

(** C5 on a host in a zone with summer time: the announcement posted at
    2024-10-28T00:30:00Z (01:30 on the 28th, Central European time) is a
    qualifying message, the calendar date of its timestamp is 2024-10-28 in
    UTC and in local time alike, one day less is 2024-10-27, and the game
    date that [parseWordleMessage] emits is 2024-10-26: [setDate] goes back
    one local day, to 01:30 summer time on the 27th, which is 23:30 UTC on
    the 26th, and [toISOString] prints the UTC date. *)
Theorem game_date_across_summer_time_end :
  exists parsed,
    parseWordleMessage cetAutumn2024 Pipeline.autumnMessage = Returns (Some parsed) /\
    u_gameDate parsed = lit "2024-10-26" /\
    civil (createdAt Pipeline.autumnMessage)
      = {| year := 2024; month := 10; day := 28 |} /\
    civil (LocalTime cetAutumn2024 (createdAt Pipeline.autumnMessage))
      = {| year := 2024; month := 10; day := 28 |} /\
    formatDate (previousDay {| year := 2024; month := 10; day := 28 |})
      = lit "2024-10-27" /\
    u_gameDate parsed <> lit "2024-10-27".
Proof.
  eexists. split; [vm_compute; reflexivity|].
  repeat split; try (vm_compute; reflexivity).
  vm_compute. discriminate.
Qed.

End GameDate.

(** ** More on the rating engine *)

Section EloMore.

Import Elo.
Local Open Scope R_scope.

Lemma expected_complement (a b : Z) :
  calculateExpectedScore a b + calculateExpectedScore b a = 1.
Proof.
  unfold calculateExpectedScore, Math_pow10.
  replace ((IZR a - IZR b) / 400) with (- ((IZR b - IZR a) / 400)) by lra.
  rewrite Rpower_Ropp.
  set (e := Rpower 10 _).
  assert (He : 0 < e) by (unfold e, Rpower; apply exp_pos).
  field. lra.
Qed.

Lemma expected_mono (a a' b : Z) :
  (a <= a')%Z -> calculateExpectedScore a b <= calculateExpectedScore a' b.
Proof.
  intros Ha. unfold calculateExpectedScore, Math_pow10.
  assert (Hle : Rpower 10 ((IZR b - IZR a') / 400) <= Rpower 10 ((IZR b - IZR a) / 400)).
  { apply Rle_Rpower; [lra|]. apply IZR_le in Ha. lra. }
  set (e := Rpower 10 ((IZR b - IZR a) / 400)) in *.
  set (e' := Rpower 10 ((IZR b - IZR a') / 400)) in *.
  assert (He : 0 < e) by (unfold e, Rpower; apply exp_pos).
  assert (He' : 0 < e') by (unfold e', Rpower; apply exp_pos).
  unfold Rdiv. rewrite !Rmult_1_l.
  apply Rinv_le_contravar; lra.
Qed.

Lemma score_complement (g1 g2 : Z) :
  fst (determineMatchResult g1 g2) + fst (determineMatchResult g2 g1) = 1.
Proof.
  destruct (score_cases g1 g2) as [[H ->]|[[H ->]|[H ->]]];
    destruct (score_cases g2 g1) as [[H' ->]|[[H' ->]|[H' ->]]];
    simpl; try lra; lia.
Qed.

Lemma contrib_antisym scaledK p q :
  contrib scaledK p q + contrib scaledK q p = 0.
Proof.
  unfold contrib.
  pose proof (score_complement (guessCount p) (guessCount q)).
  pose proof (expected_complement (currentElo p) (currentElo q)).
  nra.
Qed.

(** *** Sums over the participants *)




Lemma sum_ext {A} (f g : A -> R) (l : list A) :
  (forall a, a ∈ l -> f a = g a) ->
  fold_right Rplus 0 (map f l) = fold_right Rplus 0 (map g l).
Proof.
  induction l as [|a l IH]; intros H; simpl; [reflexivity|].
  rewrite H by left. rewrite IH; [reflexivity|].
  intros b Hb. apply H. right. exact Hb.
Qed.






(** *** The best and the worst of a round *)

Lemma NoDup_map_eq {A B} (f : A -> B) (l : list A) (a b : A) :
  NoDup (map f l) -> a ∈ l -> b ∈ l -> f a = f b -> a = b.
Proof.
  induction l as [|c l IH]; simpl; intros Hnd Ha Hb Hf.
  - apply elem_of_nil in Ha. contradiction.
  - apply NoDup_cons in Hnd. destruct Hnd as [Hc Hnd].
    apply elem_of_cons in Ha. apply elem_of_cons in Hb.
    destruct Ha as [->|Ha], Hb as [->|Hb]; try reflexivity.
    + exfalso. apply Hc. rewrite Hf. apply list_elem_of_fmap_2. exact Hb.
    + exfalso. apply Hc. rewrite <- Hf. apply list_elem_of_fmap_2. exact Ha.
    + apply IH; assumption.
Qed.

Lemma against_nonneg scaledK p qs :
  (forall q, q ∈ qs -> 0 <= contrib scaledK p q) -> 0 <= against scaledK p qs.
Proof.
  induction qs as [|q qs IH]; intros H; simpl; [lra|].
  pose proof (H q ltac:(left)).
  assert (0 <= against scaledK p qs) by (apply IH; intros q' Hq'; apply H; right; exact Hq').
  lra.
Qed.

Lemma against_nonpos scaledK p qs :
  (forall q, q ∈ qs -> contrib scaledK p q <= 0) -> against scaledK p qs <= 0.
Proof.
  induction qs as [|q qs IH]; intros H; simpl; [lra|].
  pose proof (H q ltac:(left)).
  assert (against scaledK p qs <= 0) by (apply IH; intros q' Hq'; apply H; right; exact Hq').
  lra.
Qed.

Lemma contrib_win scaledK p q :
  0 <= scaledK -> (guessCount p < guessCount q)%Z -> 0 <= contrib scaledK p q.
Proof.
  intros Hk Hg. unfold contrib.
  destruct (score_cases (guessCount p) (guessCount q)) as [[_ ->]|[[H _]|[H _]]]; try lia.
  pose proof (expected_between (currentElo p) (currentElo q)). simpl.
  apply Rmult_le_pos; lra.
Qed.

Lemma contrib_loss scaledK p q :
  0 <= scaledK -> (guessCount q < guessCount p)%Z -> contrib scaledK p q <= 0.
Proof.
  intros Hk Hg. pose proof (contrib_win scaledK q p Hk Hg).
  pose proof (contrib_antisym scaledK p q). lra.
Qed.

(** X5: the participant with strictly the fewest guesses never loses rating,
    the one with strictly the most never gains. *)
Theorem best_never_loses_worst_never_gains ps config p :
  (0 <= kFactor config)%Z -> NoDup (map playerId ps) -> p ∈ ps ->
  exists delta : Z,
    calculatePairwiseElo ps config !! playerId p = Some delta /\
    ((forall q, q ∈ ps -> playerId q <> playerId p -> (guessCount p < guessCount q)%Z)
     -> (0 <= delta)%Z) /\
    ((forall q, q ∈ ps -> playerId q <> playerId p -> (guessCount q < guessCount p)%Z)
     -> (delta <= 0)%Z).
Proof.
  intros Hk Hnd Hin.
  destruct (Nat.lt_ge_cases (length ps) 2) as [Hlen|Hlen].
  - exists 0%Z. rewrite calculatePairwiseElo_few;
      [| assumption | apply list_elem_of_fmap_2; assumption].
    repeat split; intros; lia.
  - eexists. split; [apply calculatePairwiseElo_lookup; assumption|].
    pose proof (scaledK_nonneg ps config Hlen Hk) as HsK.
    split; intros Hbest.
    + rewrite <- Math_round_0. apply Math_round_mono, against_nonneg.
      intros q Hq. destruct (decide (playerId q = playerId p)) as [Heq|Hne].
      * rewrite (NoDup_map_eq playerId ps q p Hnd Hq Hin Heq), contrib_self. lra.
      * apply contrib_win; [assumption | apply Hbest; assumption].
    + rewrite <- Math_round_0. apply Math_round_mono, against_nonpos.
      intros q Hq. destruct (decide (playerId q = playerId p)) as [Heq|Hne].
      * rewrite (NoDup_map_eq playerId ps q p Hnd Hq Hin Heq), contrib_self. lra.
      * apply contrib_loss; [assumption | apply Hbest; assumption].
Qed.

Lemma best_never_loses_worst_never_gains_witness :
  exists delta : Z,
    calculatePairwiseElo scenarioA config32 !! 1%Z = Some delta /\
    ((forall q, q ∈ scenarioA -> playerId q <> 1%Z -> (2 < guessCount q)%Z)
     -> (0 <= delta)%Z) /\
    ((forall q, q ∈ scenarioA -> playerId q <> 1%Z -> (guessCount q < 2)%Z)
     -> (delta <= 0)%Z).
Proof.
  apply (best_never_loses_worst_never_gains scenarioA config32
           {| playerId := 1; currentElo := 1000; guessCount := 2 |}).
  - simpl. lia.
  - distinct_ids.
  - listed.
Defined.

(** X2: the expected score grows with the own rating and falls with the
    opponent's. *)
Theorem expected_score_follows_ratings (a a' b b' : Z) :
  (a <= a')%Z -> (b' <= b)%Z ->
  calculateExpectedScore a b <= calculateExpectedScore a' b'.
Proof.
  intros Ha Hb.
  apply Rle_trans with (calculateExpectedScore a' b); [apply expected_mono; exact Ha|].
  pose proof (expected_complement a' b). pose proof (expected_complement a' b').
  pose proof (expected_mono b' b a' Hb). lra.
Qed.

Lemma expected_score_follows_ratings_witness :
  calculateExpectedScore 1000 1200 <= calculateExpectedScore 1100 1200.
Proof. apply (expected_score_follows_ratings 1000 1100 1200 1200); lia. Defined.

End EloMore.

(** ** The tables: round trips *)

Section Tables.
Import Js Repo Pipeline.
Local Open Scope Z_scope.

Lemma sameString_refl (a : jsstring) : sameString a a = true.
Proof. apply sameString_true. reflexivity. Qed.

Lemma sameString_false (a b : jsstring) : sameString a b = false <-> a <> b.
Proof. unfold sameString. apply bool_decide_eq_false. Qed.

(** *** Players *)

Lemma getOrCreatePlayer_found data defaultElo db out db' :
  getOrCreatePlayer data defaultElo db = (out, db') ->
  exists player,
    out = Returns player /\
    getPlayerByDiscordId (new_discordId data) db' = Some player /\
    discordId player = new_discordId data /\
    username player = new_username data.
Proof.
  unfold getOrCreatePlayer.
  destruct (getPlayerByDiscordId (new_discordId data) db) as [existing|] eqn:Hfind.
  - assert (Hd : discordId existing = new_discordId data).
    { apply find_some in Hfind. apply sameString_true. apply Hfind. }
    destruct (sameString (username existing) (new_username data)) eqn:Hu; simpl.
    + intros [= <- <-]. exists existing. repeat split; try assumption.
      apply sameString_true. exact Hu.
    + unfold bind, updatePlayerUsername, exec, ret. intros [= <- <-].
      eexists. repeat split; try assumption.
      unfold getPlayerByDiscordId, updatePlayer, withPlayers. simpl.
      rewrite find_discordId_map.
      * unfold getPlayerByDiscordId in Hfind. rewrite Hfind. simpl.
        rewrite Z.eqb_refl. reflexivity.
      * intros q. destruct (id q =? id existing); [eauto|].
        exists (username q). symmetry. apply setUsername_same.
  - unfold createPlayer. rewrite Hfind. intros [= <- <-].
    eexists. repeat split.
    unfold getPlayerByDiscordId in *. simpl. rewrite find_app, Hfind. simpl.
    rewrite sameString_refl. reflexivity.
Qed.

(** X12: [getOrCreatePlayer] always returns, and the player it returns is
    the one that [getPlayerByDiscordId] finds afterwards, under the given
    discord id and user name; a player that was not there before starts at
    the default rating with no games; and a second call with the same data
    returns the same player and writes nothing. *)
Theorem getOrCreatePlayer_round_trip data defaultElo db :
  exists player db',
    getOrCreatePlayer data defaultElo db = (Returns player, db') /\
    getPlayerByDiscordId (new_discordId data) db' = Some player /\
    discordId player = new_discordId data /\
    username player = new_username data /\
    (getPlayerByDiscordId (new_discordId data) db = None ->
     elo player = defaultElo /\ totalGames player = 0 /\ isActive player = true /\
     players db' = players db ++ [player]) /\
    (forall defaultElo',
       getOrCreatePlayer data defaultElo' db' = (Returns player, db')).
Proof.
  destruct (getOrCreatePlayer data defaultElo db) as [out db'] eqn:Hrun.
  pose proof Hrun as Hrun'. apply getOrCreatePlayer_found in Hrun'.
  destruct Hrun' as (player & -> & Hfound & Hd & Hu).
  exists player, db'. split; [reflexivity|]. do 3 (split; [assumption|]). split.
  - intros Hnone. unfold getOrCreatePlayer, createPlayer in Hrun.
    rewrite Hnone in Hrun. injection Hrun as <- <-. repeat split.
  - intros defaultElo'. unfold getOrCreatePlayer.
    rewrite Hfound, Hu, sameString_refl. reflexivity.
Qed.

(** *** Games *)

Lemma hasGameRecord_app pid date0 db row :
  hasGameRecord pid date0
    {| players := players db; games := games db ++ [row];
       elo_history := elo_history db; daily_summaries := daily_summaries db;
       players_seq := players_seq db; games_seq := games_seq db + 1 |}
  = hasGameRecord pid date0 db
    || ((game_playerId row =? pid) && sameString (game_gameDate row) date0).
Proof.
  unfold hasGameRecord. simpl. rewrite existsb_app. simpl.
  rewrite orb_false_r. reflexivity.
Qed.

(** X13: a game that [recordGame] has written is seen by [hasGameRecord],
    for that player and date only, and a second [recordGame] for the same
    player and date throws and writes nothing. *)
Theorem recordGame_then_recorded pid g date0 before after wn db row db' :
  recordGame pid g date0 before after wn db = (Returns row, db') ->
  hasGameRecord pid date0 db = false /\
  hasGameRecord pid date0 db' = true /\
  (forall pid' date', (pid', date') <> (pid, date0) ->
     hasGameRecord pid' date' db' = hasGameRecord pid' date' db) /\
  (forall g' before' after' wn',
     recordGame pid g' date0 before' after' wn' db'
     = (Throws "SQLITE_CONSTRAINT_UNIQUE", db')).
Proof.
  unfold recordGame at 1.
  destruct (hasGameRecord pid date0 db) eqn:Hrec; [discriminate|].
  intros [= <- <-].
  assert (Hnow : hasGameRecord pid date0
            {| players := players db;
               games := games db ++
                 [{| game_id := games_seq db + 1; game_playerId := pid;
                     game_guessCount := g; game_gameDate := date0;
                     game_wordleNumber := wn; game_eloChange := after - before;
                     game_eloBefore := before; game_eloAfter := after |}];
               elo_history := elo_history db; daily_summaries := daily_summaries db;
               players_seq := players_seq db; games_seq := games_seq db + 1 |} = true).
  { rewrite hasGameRecord_app. simpl. rewrite Z.eqb_refl, sameString_refl.
    apply orb_true_r. }
  repeat split.
  - exact Hnow.
  - intros pid' date' Hne. rewrite hasGameRecord_app. simpl.
    destruct (Z.eqb_spec pid pid') as [->|_]; [|apply orb_false_r].
    destruct (sameString date0 date') eqn:Hs; [|apply orb_false_r].
    apply sameString_true in Hs. congruence.
  - intros g' before' after' wn'. unfold recordGame. rewrite Hnow. reflexivity.
Qed.

Lemma recordGame_then_recorded_witness :
  hasGameRecord 1 (lit "2024-03-10") recordedDb = false /\
  hasGameRecord 1 (lit "2024-03-10")
    (snd (recordGame 1 4 (lit "2024-03-10") 1010 1002 None recordedDb)) = true /\
  (forall pid' date', (pid', date') <> (1, lit "2024-03-10") ->
     hasGameRecord pid' date'
       (snd (recordGame 1 4 (lit "2024-03-10") 1010 1002 None recordedDb))
     = hasGameRecord pid' date' recordedDb) /\
  (forall g' before' after' wn',
     recordGame 1 g' (lit "2024-03-10") before' after' wn'
       (snd (recordGame 1 4 (lit "2024-03-10") 1010 1002 None recordedDb))
     = (Throws "SQLITE_CONSTRAINT_UNIQUE",
        snd (recordGame 1 4 (lit "2024-03-10") 1010 1002 None recordedDb))).
Proof.
  apply (recordGame_then_recorded 1 4 (lit "2024-03-10") 1010 1002 None recordedDb
           {| game_id := 2; game_playerId := 1; game_guessCount := 4;
              game_gameDate := lit "2024-03-10"; game_wordleNumber := None;
              game_eloChange := -8; game_eloBefore := 1010; game_eloAfter := 1002 |}).
  vm_compute. reflexivity.
Defined.

(** *** Daily summaries *)

Lemma filter_filter_neg {A} (f : A -> bool) (l : list A) :
  List.filter f (List.filter (fun a => negb (f a)) l) = [].
Proof.
  induction l as [|a l IH]; simpl; [reflexivity|].
  destruct (f a) eqn:Hf; simpl; [exact IH|]. rewrite Hf. exact IH.
Qed.

(** X14: after a [saveDailySummary] that returns, the date counts as
    processed and has exactly one summary row, the one just saved, whatever
    was stored for the date before; other dates and the other tables are as
    they were. *)
Theorem saveDailySummary_then_processed date0 count highest lowest wn db db' :
  saveDailySummary date0 count highest lowest wn db = (Returns tt, db') ->
  isDailyResultsProcessed date0 db' = true /\
  List.filter (fun r => sameString (sum_gameDate r) date0) (daily_summaries db') =
    [ {| sum_gameDate := date0; sum_wordleNumber := wn;
         sum_participantsCount := count;
         sum_highestEloPlayerId := highest; sum_lowestEloPlayerId := lowest |} ] /\
  (forall date', date' <> date0 ->
     isDailyResultsProcessed date' db' = isDailyResultsProcessed date' db /\
     List.filter (fun r => sameString (sum_gameDate r) date') (daily_summaries db') =
     List.filter (fun r => sameString (sum_gameDate r) date') (daily_summaries db)) /\
  players db' = players db /\ games db' = games db /\ elo_history db' = elo_history db.
Proof.
  unfold saveDailySummary, exec. intros [= <-].
  unfold isDailyResultsProcessed. simpl.
  repeat split.
  - rewrite existsb_app. simpl. rewrite sameString_refl. apply orb_true_r.
  - rewrite List.filter_app. simpl. rewrite sameString_refl.
    rewrite (filter_filter_neg (fun r => sameString (sum_gameDate r) date0)). reflexivity.
  - rewrite existsb_app. simpl.
    assert (Hne : sameString date0 date' = false) by (apply sameString_false; congruence).
    rewrite Hne. simpl. rewrite orb_false_r.
    induction (daily_summaries db) as [|r l IH]; simpl; [reflexivity|].
    destruct (sameString (sum_gameDate r) date0) eqn:Hr; simpl.
    + apply sameString_true in Hr. rewrite Hr, Hne. exact IH.
    + rewrite IH. reflexivity.
  - rewrite List.filter_app. simpl.
    assert (Hne : sameString date0 date' = false) by (apply sameString_false; congruence).
    rewrite Hne, app_nil_r.
    induction (daily_summaries db) as [|r l IH]; simpl; [reflexivity|].
    destruct (sameString (sum_gameDate r) date0) eqn:Hr; simpl.
    + apply sameString_true in Hr. rewrite Hr, Hne. exact IH.
    + rewrite IH. reflexivity.
Qed.

Lemma saveDailySummary_then_processed_witness :
  let db' := snd (saveDailySummary (lit "2024-03-09") 2 (Some 1) (Some 1) None closedDb) in
  isDailyResultsProcessed (lit "2024-03-09") db' = true /\
  List.filter (fun r => sameString (sum_gameDate r) (lit "2024-03-09")) (daily_summaries db') =
    [ {| sum_gameDate := lit "2024-03-09"; sum_wordleNumber := None;
         sum_participantsCount := 2;
         sum_highestEloPlayerId := Some 1; sum_lowestEloPlayerId := Some 1 |} ].
Proof.
  intro db'.
  destruct (saveDailySummary_then_processed (lit "2024-03-09") 2 (Some 1) (Some 1) None
              closedDb db') as (Hdone & Hrow & _).
  - reflexivity.
  - split; [exact Hdone | exact Hrow].
Defined.

End Tables.

(** ** Standings and ranks *)

Section Standings.
Import Js Repo Pipeline.
Local Open Scope Z_scope.

Lemma exists_greatest {A} (f : A -> Z) (l : list A) :
  l <> [] -> exists a, In a l /\ forall b, In b l -> f b <= f a.
Proof.
  induction l as [|a l IH]; [congruence|]. intros _.
  destruct l as [|a' l].
  - exists a. split; [left; reflexivity|]. intros b [<-|[]]. lia.
  - destruct IH as (m & Hm & Hmax); [discriminate|].
    destruct (Z.le_gt_cases (f a) (f m)).
    + exists m. split; [right; exact Hm|]. intros b [<-|Hb]; [lia | apply Hmax; exact Hb].
    + exists a. split; [left; reflexivity|].
      intros b [<-|Hb]; [lia|]. specialize (Hmax b Hb). lia.
Qed.

Lemma filter_greatest (f : Player -> Z) (l : list Player) p :
  In p (List.filter (fun p => forallb (fun q => f q <=? f p) l) l) <->
  In p l /\ forall q, In q l -> f q <= f p.
Proof.
  rewrite filter_In, forallb_forall. split; intros [Hin Hall]; split; try assumption.
  - intros q Hq. apply Z.leb_le. apply Hall. exact Hq.
  - intros q Hq. apply Z.leb_le. apply Hall. exact Hq.
Qed.

(** X15: [getHighestEloPlayers] returns exactly the active players that no
    active player outranks; they share one rating, and there is one as soon
    as some player is active. *)
Theorem highest_players_lead_the_active db :
  (forall p, In p (getHighestEloPlayers db) <->
     In p (players db) /\ isActive p = true /\
     forall q, In q (players db) -> isActive q = true -> elo q <= elo p) /\
  (forall p p', In p (getHighestEloPlayers db) -> In p' (getHighestEloPlayers db) ->
     elo p = elo p') /\
  ((exists q, In q (players db) /\ isActive q = true) -> getHighestEloPlayers db <> []).
Proof.
  unfold getHighestEloPlayers.
  set (active := List.filter isActive (players db)).
  assert (Hactive : forall q, In q active <-> In q (players db) /\ isActive q = true)
    by (intros q; apply filter_In).
  assert (Hchar : forall p,
    In p (List.filter (fun p => forallb (fun q => elo q <=? elo p) active) active) <->
    In p (players db) /\ isActive p = true /\
    forall q, In q (players db) -> isActive q = true -> elo q <= elo p).
  { intros p. rewrite (filter_greatest elo active p), Hactive. split.
    - intros [[Hp Ha] Hall]. repeat split; try assumption.
      intros q Hq Hqa. apply Hall. apply Hactive. tauto.
    - intros (Hp & Ha & Hall). repeat split; try assumption.
      intros q Hq. apply Hactive in Hq. apply Hall; tauto. }
  split; [exact Hchar|]. split.
  - intros p p' Hp Hp'. apply Hchar in Hp. apply Hchar in Hp'.
    destruct Hp as (Hp & Ha & Hall), Hp' as (Hp' & Ha' & Hall').
    specialize (Hall p' Hp' Ha'). specialize (Hall' p Hp Ha). lia.
  - intros (q & Hq & Hqa) Hnil.
    destruct (exists_greatest elo active) as (m & Hm & Hmax).
    { intros Hnone. assert (Hin : In q active) by (apply Hactive; tauto).
      rewrite Hnone in Hin. exact Hin. }
    assert (Hin : In m (List.filter (fun p => forallb (fun q => elo q <=? elo p) active) active))
      by (apply filter_greatest; tauto).
    rewrite Hnil in Hin. exact Hin.
Qed.

(** X16: [getLowestEloPlayers] returns exactly the active players with a game
    that no other active player with a game undercuts; there is one as soon
    as some active player has a game. *)
Theorem lowest_players_trail_the_ranked db :
  (forall p, In p (getLowestEloPlayers db) <->
     In p (players db) /\ isActive p = true /\ 0 < totalGames p /\
     forall q, In q (players db) -> isActive q = true -> 0 < totalGames q ->
               elo p <= elo q) /\
  (forall p p', In p (getLowestEloPlayers db) -> In p' (getLowestEloPlayers db) ->
     elo p = elo p') /\
  ((exists q, In q (players db) /\ isActive q = true /\ 0 < totalGames q) ->
   getLowestEloPlayers db <> []).
Proof.
  unfold getLowestEloPlayers.
  set (ranked := List.filter (fun p => isActive p && (0 <? totalGames p)) (players db)).
  assert (Hranked : forall q,
    In q ranked <-> In q (players db) /\ isActive q = true /\ 0 < totalGames q).
  { intros q. unfold ranked. rewrite filter_In, andb_true_iff, Z.ltb_lt. tauto. }
  assert (Hfilter : forall p,
    In p (List.filter (fun p => forallb (fun q => elo p <=? elo q) ranked) ranked) <->
    In p ranked /\ forall q, In q ranked -> elo p <= elo q).
  { intros p. rewrite filter_In, forallb_forall.
    split; intros [Hin Hall]; split; try assumption;
      intros q Hq; apply Z.leb_le; apply Hall; exact Hq. }
  assert (Hchar : forall p,
    In p (List.filter (fun p => forallb (fun q => elo p <=? elo q) ranked) ranked) <->
    In p (players db) /\ isActive p = true /\ 0 < totalGames p /\
    forall q, In q (players db) -> isActive q = true -> 0 < totalGames q ->
              elo p <= elo q).
  { intros p. rewrite Hfilter, Hranked. split.
    - intros [(Hp & Ha & Hg) Hall]. repeat split; try assumption.
      intros q Hq Hqa Hqg. apply Hall. apply Hranked. tauto.
    - intros (Hp & Ha & Hg & Hall). repeat split; try assumption.
      intros q Hq. apply Hranked in Hq. apply Hall; tauto. }
  split; [exact Hchar|]. split.
  - intros p p' Hp Hp'. apply Hchar in Hp. apply Hchar in Hp'.
    destruct Hp as (Hp & Ha & Hg & Hall), Hp' as (Hp' & Ha' & Hg' & Hall').
    specialize (Hall p' Hp' Ha' Hg'). specialize (Hall' p Hp Ha Hg). lia.
  - intros (q & Hq & Hqa & Hqg) Hnil.
    destruct (exists_greatest (fun p => - elo p) ranked) as (m & Hm & Hmax).
    { intros Hnone. assert (Hin : In q ranked) by (apply Hranked; tauto).
      rewrite Hnone in Hin. exact Hin. }
    assert (Hin : In m (List.filter (fun p => forallb (fun q => elo p <=? elo q) ranked) ranked)).
    { apply Hfilter. split; [exact Hm|]. intros b Hb. specialize (Hmax b Hb). simpl in Hmax. lia. }
    rewrite Hnil in Hin. exact Hin.
Qed.

(** *** Ranks *)

Lemma filter_length_lt {A} (f g : A -> bool) (l : list A) (y : A) :
  (forall x, f x = true -> g x = true) ->
  In y l -> g y = true -> f y = false ->
  (length (List.filter f l) < length (List.filter g l))%nat.
Proof.
  intros Hsub. induction l as [|a l IH]; simpl; intros Hin Hg Hf; [contradiction|].
  assert (Hle : (length (List.filter f l) <= length (List.filter g l))%nat).
  { clear - Hsub. induction l as [|b l IHl]; simpl; [lia|].
    destruct (f b) eqn:Hfb.
    - rewrite (Hsub b Hfb). simpl. lia.
    - destruct (g b); simpl; lia. }
  destruct Hin as [->|Hin].
  - rewrite Hg, Hf. simpl. lia.
  - specialize (IH Hin Hg Hf).
    destruct (f a) eqn:Hfa.
    + rewrite (Hsub a Hfa). simpl. lia.
    + destruct (g a); simpl; lia.
Qed.

(** X17: [getPlayerRank] is 0 exactly for an unknown id; among known players
    equal ratings share a rank, a higher rating has a strictly smaller rank,
    and the rank is at most the number of players. *)
Theorem rank_follows_rating db a b pa pb :
  getPlayerById a db = Some pa -> getPlayerById b db = Some pb ->
  1 <= getPlayerRank a db <= Z.of_nat (length (players db)) /\
  (elo pa = elo pb -> getPlayerRank a db = getPlayerRank b db) /\
  (elo pb < elo pa -> getPlayerRank a db < getPlayerRank b db) /\
  (forall c, getPlayerRank c db = 0 <-> getPlayerById c db = None).
Proof.
  intros Ha Hb. unfold getPlayerRank. rewrite Ha, Hb.
  assert (Hina : In pa (players db)) by (apply find_some in Ha; tauto).
  split; [|split; [|split]].
  - split; [lia|].
    pose proof (filter_length_lt (fun q => elo pa <? elo q) (fun _ => true) (players db) pa
                  ltac:(reflexivity) Hina eq_refl (Z.ltb_irrefl _)) as Hlt.
    assert (Hall : List.filter (fun _ : Player => true) (players db) = players db).
    { clear. induction (players db) as [|q l IH]; simpl; [reflexivity | rewrite IH; reflexivity]. }
    rewrite Hall in Hlt. lia.
  - intros ->. reflexivity.
  - intros Hlt.
    pose proof (filter_length_lt (fun q => elo pa <? elo q) (fun q => elo pb <? elo q)
                  (players db) pa) as H.
    assert ((length (List.filter (fun q => (elo pa <? elo q)%Z) (players db)) <
             length (List.filter (fun q => (elo pb <? elo q)%Z) (players db)))%nat); [|lia].
    apply H; try assumption.
    + intros x Hx. apply Z.ltb_lt in Hx. apply Z.ltb_lt. lia.
    + apply Z.ltb_lt. exact Hlt.
    + apply Z.ltb_irrefl.
  - intros c. destruct (getPlayerById c db); split; intros H; try congruence; lia.
Qed.

Lemma rank_follows_rating_witness :
  let ann := Stats.boardPlayer 1 "111" "ann" 1010 true in
  let cy := Stats.boardPlayer 3 "333" "cy" 990 false in
  1 <= getPlayerRank 1 Stats.sampleBoard <= Z.of_nat (length (players Stats.sampleBoard)) /\
  (elo ann = elo cy -> getPlayerRank 1 Stats.sampleBoard = getPlayerRank 3 Stats.sampleBoard) /\
  (elo cy < elo ann -> getPlayerRank 1 Stats.sampleBoard < getPlayerRank 3 Stats.sampleBoard) /\
  (forall c, getPlayerRank c Stats.sampleBoard = 0 <-> getPlayerById c Stats.sampleBoard = None).
Proof.
  apply (rank_follows_rating Stats.sampleBoard 1 3
           (Stats.boardPlayer 1 "111" "ann" 1010 true)
           (Stats.boardPlayer 3 "333" "cy" 990 false)); reflexivity.
Defined.

End Standings.

(** ** The constraints of the schema *)

Section Schema.
Import Js Repo Pipeline.
Import Elo (EloConfig, defaultRating, Participant, playerId, currentElo, guessCount,
            calculatePairwiseElo).
Local Open Scope Z_scope.

(** *** The constraints of the schema are kept *)

Lemma updatePlayer_wellFormed pid set db :
  (forall p, id (set p) = id p /\ discordId (set p) = discordId p) ->
  wellFormed db -> wellFormed (updatePlayer pid set db).
Proof.
  intros Hset [Hids Hseq Hdisc Hgames Hown Hsum].
  assert (Hid : map id (map (fun p => if id p =? pid then set p else p) (players db))
                = map id (players db)).
  { rewrite map_map. apply map_ext. intros p.
    destruct (id p =? pid); [apply Hset | reflexivity]. }
  assert (Hd : map discordId (map (fun p => if id p =? pid then set p else p) (players db))
               = map discordId (players db)).
  { rewrite map_map. apply map_ext. intros p.
    destruct (id p =? pid); [apply Hset | reflexivity]. }
  constructor; simpl; try assumption.
  - rewrite Hid. exact Hids.
  - apply Forall_forall. intros q Hq. apply list_elem_of_In, in_map_iff in Hq.
    destruct Hq as (p & <- & Hp).
    rewrite Forall_forall in Hseq. apply list_elem_of_In, Hseq in Hp.
    destruct (id p =? pid); [|exact Hp]. destruct (Hset p) as [-> _]. exact Hp.
  - rewrite Hd. exact Hdisc.
Qed.

Lemma find_discordId_none d (l : list Player) :
  List.find (fun p => sameString (discordId p) d) l = None -> ~ In d (map discordId l).
Proof.
  intros Hnone Hin. apply in_map_iff in Hin. destruct Hin as (p & <- & Hp).
  pose proof (find_none _ _ Hnone p Hp) as H. simpl in H.
  rewrite sameString_refl in H. discriminate.
Qed.

Lemma getOrCreatePlayer_wellFormed data defaultElo db out db' :
  wellFormed db ->
  getOrCreatePlayer data defaultElo db = (out, db') -> wellFormed db'.
Proof.
  intros Hwf. unfold getOrCreatePlayer.
  destruct (getPlayerByDiscordId (new_discordId data) db) as [existing|] eqn:Hfind.
  - destruct (negb _).
    + unfold bind, updatePlayerUsername, exec, ret. intros [= <- <-].
      apply updatePlayer_wellFormed; [|exact Hwf]. intros p. split; reflexivity.
    + intros [= <- <-]. exact Hwf.
  - unfold createPlayer. rewrite Hfind. intros [= <- <-].
    destruct Hwf as [Hids Hseq Hdisc Hgames Hown Hsum].
    constructor; simpl; try assumption.
    + rewrite map_app. simpl. apply NoDup_app. split; [exact Hids|]. split.
      * intros x Hx Hx'. apply list_elem_of_singleton in Hx'. subst x.
        apply list_elem_of_In, in_map_iff in Hx. destruct Hx as (p & Hp & Hin).
        rewrite Forall_forall in Hseq. apply list_elem_of_In, Hseq in Hin. lia.
      * apply NoDup_singleton.
    + apply Forall_app. split.
      * eapply Forall_impl; [exact Hseq|]. simpl. intros; lia.
      * constructor; [simpl; lia | constructor].
    + rewrite map_app. simpl. apply NoDup_app. split; [exact Hdisc|]. split.
      * intros x Hx Hx'. apply list_elem_of_singleton in Hx'. subst x.
        apply find_discordId_none in Hfind. apply Hfind. apply list_elem_of_In. exact Hx.
      * apply NoDup_singleton.
    + eapply Forall_impl; [exact Hown|]. simpl. intros; lia.
Qed.

Lemma hasGameRecord_false pid date0 db :
  hasGameRecord pid date0 db = false ->
  ~ In (pid, date0) (map (fun g => (game_playerId g, game_gameDate g)) (games db)).
Proof.
  unfold hasGameRecord. intros Hnone Hin.
  apply in_map_iff in Hin. destruct Hin as (g & [= Hp Hd] & Hg).
  assert (H : existsb (fun g => (game_playerId g =? pid) && sameString (game_gameDate g) date0)
                (games db) = true).
  { apply existsb_exists. exists g. split; [exact Hg|].
    rewrite Hp, Hd, Z.eqb_refl, sameString_refl. reflexivity. }
  congruence.
Qed.

Lemma recordGame_wellFormed pid g date0 before after wn db out db' :
  wellFormed db -> pid <= players_seq db ->
  recordGame pid g date0 before after wn db = (out, db') -> wellFormed db'.
Proof.
  intros Hwf Hpid. unfold recordGame.
  destruct (hasGameRecord pid date0 db) eqn:Hrec.
  - intros [= <- <-]. exact Hwf.
  - intros [= <- <-]. destruct Hwf as [Hids Hseq Hdisc Hgames Hown Hsum].
    constructor; simpl; try assumption.
    + rewrite map_app. simpl. apply NoDup_app. split; [exact Hgames|]. split.
      * intros x Hx Hx'. apply list_elem_of_singleton in Hx'. subst x.
        apply hasGameRecord_false in Hrec. apply Hrec. apply list_elem_of_In. exact Hx.
      * apply NoDup_singleton.
    + apply Forall_app. split; [exact Hown|]. constructor; [exact Hpid | constructor].
Qed.

Lemma recordEloHistory_wellFormed pid e date0 db :
  wellFormed db -> wellFormed (snd (recordEloHistory pid e date0 db)).
Proof. intros [? ? ? ? ? ?]. constructor; assumption. Qed.

Lemma NoDup_filter_map {A B} `{EqDecision B} (f : A -> B) (keep : A -> bool) (l : list A) :
  NoDup (map f l) -> NoDup (map f (List.filter keep l)).
Proof.
  induction l as [|a l IH]; simpl; intros Hnd; [constructor|].
  apply NoDup_cons in Hnd. destruct Hnd as [Ha Hnd].
  destruct (keep a); simpl; [|apply IH; exact Hnd].
  apply NoDup_cons. split; [|apply IH; exact Hnd].
  intros Hin. apply Ha. apply list_elem_of_In, in_map_iff in Hin.
  destruct Hin as (b & Hb & Hin). apply filter_In in Hin.
  apply list_elem_of_In, in_map_iff. exists b. tauto.
Qed.

Lemma saveDailySummary_wellFormed date0 count highest lowest wn db :
  wellFormed db -> wellFormed (snd (saveDailySummary date0 count highest lowest wn db)).
Proof.
  intros [Hids Hseq Hdisc Hgames Hown Hsum].
  constructor; simpl; try assumption.
  rewrite map_app. simpl. apply NoDup_app. split; [|split].
  - apply NoDup_filter_map. exact Hsum.
  - intros x Hx Hx'. apply list_elem_of_singleton in Hx'. subst x.
    apply list_elem_of_In, in_map_iff in Hx. destruct Hx as (r & Hr & Hin).
    apply filter_In in Hin. destruct Hin as [_ Hkeep].
    rewrite Hr, sameString_refl in Hkeep. discriminate.
  - apply NoDup_singleton.
Qed.

End Schema.

(** ** The first loop of a round, in detail *)

Section FirstLoop.
Import Js Repo Pipeline.
Import Elo (EloConfig, defaultRating, Participant, playerId, currentElo, guessCount,
            calculatePairwiseElo).
Local Open Scope Z_scope.

Lemma collectParticipants_app config date0 rs1 rs2 ps pm db :
  collectParticipants (rs1 ++ rs2) date0 config ps pm db =
  match collectParticipants rs1 date0 config ps pm db with
  | (Returns (ps', pm'), db1) => collectParticipants rs2 date0 config ps' pm' db1
  | (Throws e, db1) => (Throws e, db1)
  end.
Proof.
  revert ps pm db. induction rs1 as [|r rs1 IH]; intros ps pm db; simpl.
  - reflexivity.
  - unfold bind, query.
    destruct (getOrCreatePlayer _ _ db) as [[player|e] db1]; [|reflexivity].
    destruct (hasGameRecord (id player) date0 db1); apply IH.
Qed.

Lemma grown_row config db db' q :
  grown config db db' -> In q (players db) ->
  exists q', In q' (players db') /\ id q' = id q /\ discordId q' = discordId q.
Proof.
  intros (g & extra & Hp & Hg & _) Hq. exists (g q). split.
  - rewrite Hp. apply in_or_app. left. apply in_map. exact Hq.
  - destruct (Hg q) as [u ->]. split; reflexivity.
Qed.

Lemma grown_games config db db' : grown config db db' -> games db' = games db.
Proof. intros (g & extra & _ & _ & _ & Hgm & _). exact Hgm. Qed.

Lemma hasGameRecord_unowned pid date0 db (n : Z) :
  Forall (fun g => game_playerId g <= n) (games db) -> n < pid ->
  hasGameRecord pid date0 db = false.
Proof.
  intros Hown Hlt. unfold hasGameRecord.
  induction Hown as [|g l Hg _ IH]; simpl; [reflexivity|].
  rewrite IH. destruct (Z.eqb_spec (game_playerId g) pid); [lia | reflexivity].
Qed.

Lemma getOrCreatePlayer_step config d u db out db' :
  wellFormed db ->
  getOrCreatePlayer
    {| new_discordId := d; new_username := u; new_discriminator := lit "0" |}
    (defaultRating config) db = (out, db') ->
  exists player,
    out = Returns player /\
    wellFormed db' /\
    grown config db db' /\
    In player (players db') /\
    discordId player = d /\
    elo player = startRating config db d /\
    (forall q, getPlayerByDiscordId d db = Some q -> id player = id q) /\
    (getPlayerByDiscordId d db = None -> id player = players_seq db + 1) /\
    (forall q', In q' (players db') ->
       (exists q, In q (players db) /\ id q = id q' /\ discordId q = discordId q') \/
       (discordId q' = d /\ id q' = players_seq db + 1)) /\
    players_seq db <= players_seq db'.
Proof.
  intros Hwf Hrun.
  pose proof (getOrCreatePlayer_wellFormed _ _ _ _ _ Hwf Hrun) as Hwf'.
  pose proof Hrun as Hspec. apply (getOrCreatePlayer_spec config) in Hspec.
  destruct Hspec as (player & -> & Helo & Hsame & Hgrown).
  pose proof Hrun as Hfound. apply getOrCreatePlayer_found in Hfound.
  destruct Hfound as (p' & [= <-] & Hfound & Hd & _). simpl in Hfound, Hd.
  exists player. split; [reflexivity|]. do 2 (split; [assumption|]).
  split; [apply find_some in Hfound; tauto|]. do 3 (split; [assumption|]).
  split; [|split].
  - intros Hnone. revert Hrun. unfold getOrCreatePlayer, createPlayer. simpl.
    rewrite Hnone. intros [= <- _]. reflexivity.
  - revert Hrun. unfold getOrCreatePlayer, createPlayer. simpl.
    destruct (getPlayerByDiscordId d db) as [existing|] eqn:Hfind.
    + destruct (negb _).
      * unfold bind, updatePlayerUsername, exec, ret. intros [= _ <-] q' Hq'. left.
        simpl in Hq'. apply in_map_iff in Hq'. destruct Hq' as (q & <- & Hq).
        exists q. split; [exact Hq|]. destruct (id q =? id existing); split; reflexivity.
      * intros [= _ <-] q' Hq'. left. exists q'. tauto.
    + intros [= _ <-] q' Hq'. simpl in Hq'. apply in_app_iff in Hq'.
      destruct Hq' as [Hq'|[<-|[]]]; [left; exists q'; tauto | right; split; reflexivity].
  - revert Hrun. unfold getOrCreatePlayer, createPlayer. simpl.
    destruct (getPlayerByDiscordId d db) as [existing|].
    + destruct (negb _).
      * unfold bind, updatePlayerUsername, exec, ret. intros [= _ <-]. simpl. lia.
      * intros [= _ <-]. lia.
    + intros [= _ <-]. simpl. lia.
Qed.

Lemma Forall2_In_l {A B} (R : A -> B -> Prop) (l : list A) (k : list B) (x : A) :
  Forall2 R l k -> In x l -> exists y, In y k /\ R x y.
Proof.
  induction 1 as [|a b l k Hab _ IH]; intros Hin; [contradiction|].
  destruct Hin as [<-|Hin].
  - exists b. split; [left; reflexivity | exact Hab].
  - destruct (IH Hin) as (y & Hy & Hxy). exists y. split; [right; exact Hy | exact Hxy].
Qed.

Lemma Forall2_impl_In {A B} (R R' : A -> B -> Prop) (l : list A) (k : list B) :
  Forall2 R l k -> (forall x y, In x l -> R x y -> R' x y) -> Forall2 R' l k.
Proof.
  induction 1 as [|a b l k Hab _ IH]; intros Himpl; constructor.
  - apply Himpl; [left; reflexivity | exact Hab].
  - apply IH. intros x y Hx. apply Himpl. right. exact Hx.
Qed.

Lemma filter_snoc {A} (f : A -> bool) (l : list A) (a : A) :
  List.filter f (l ++ [a]) = List.filter f l ++ (if f a then [a] else []).
Proof. rewrite List.filter_app. reflexivity. Qed.

Lemma collectedFrom_grown config db db1 db2 pm p r :
  grown config db1 db2 -> collectedFrom config db db1 pm p r ->
  collectedFrom config db db2 pm p r.
Proof.
  intros Hg (Hgc & Helo & (row & Hrow & Hid & Hd) & Hpm).
  destruct (grown_row _ _ _ _ Hg Hrow) as (row' & Hrow' & Hid' & Hd').
  repeat split; try assumption. exists row'. repeat split; congruence.
Qed.

(** The first loop on a database that meets the constraints of the schema,
    for results with pairwise distinct discord ids: it returns, and the
    participants are the results whose player has no game for the date, in
    the order of the results, under pairwise distinct player ids. *)
Lemma collectParticipants_distinct config date0 rs db :
  wellFormed db -> NoDup (map res_discordId rs) ->
  exists ps pm db',
    collectParticipants rs date0 config [] ∅ db = (Returns (ps, pm), db') /\
    wellFormed db' /\
    grown config db db' /\
    (forall q', In q' (players db') ->
       (exists q, In q (players db) /\ id q = id q' /\ discordId q = discordId q') \/
       In (discordId q') (map res_discordId rs)) /\
    NoDup (map playerId ps) /\
    Forall2 (collectedFrom config db db' pm) ps
      (List.filter (fun r => negb (alreadyRecorded date0 db (res_discordId r))) rs) /\
    Forall (fun p => hasGameRecord (playerId p) date0 db = false) ps.
Proof.
  intros Hwf. induction rs as [|r rs IH] using rev_ind; intros Hnd.
  - exists [], ∅, db. simpl. split; [reflexivity|]. split; [exact Hwf|].
    split; [apply grown_refl|]. split; [intros q' Hq'; left; exists q'; tauto|].
    repeat split; constructor.
  - rewrite map_app in Hnd. apply NoDup_app in Hnd. destruct Hnd as (Hnd & Hnew & _).
    assert (Hfresh : ~ In (res_discordId r) (map res_discordId rs)).
    { intros Hin. apply (Hnew (res_discordId r)).
      - apply list_elem_of_In. exact Hin.
      - simpl. left. }
    destruct (IH Hnd) as (ps & pm & db1 & Hrun & Hwf1 & Hg1 & Hrows1 & Hids & Hps & Hrec).
    rewrite collectParticipants_app, Hrun. simpl.
    unfold bind at 1.
    destruct (getOrCreatePlayer _ _ db1) as [o db2] eqn:Hget.
    apply (getOrCreatePlayer_step config) in Hget; [|exact Hwf1].
    destruct Hget as (player & -> & Hwf2 & Hg2 & Hin2 & Hd2 & Helo2 & Hsame2 & Hcreated2
                      & Hrows2 & Hseq2).
    unfold bind at 1, query at 1.
    assert (Hgames : games db2 = games db).
    { rewrite (grown_games _ _ _ Hg2). apply (grown_games _ _ _ Hg1). }
    assert (Hrecorded : hasGameRecord (id player) date0 db2
                        = alreadyRecorded date0 db (res_discordId r)).
    { unfold alreadyRecorded, hasGameRecord. rewrite Hgames.
      destruct (getPlayerByDiscordId (res_discordId r) db) as [q0|] eqn:Hfind0.
      - destruct (grown_find _ _ _ _ _ Hg1 Hfind0) as [u0 Hfind1].
        rewrite (Hsame2 _ Hfind1). reflexivity.
      - assert (Hnone1 : getPlayerByDiscordId (res_discordId r) db1 = None).
        { destruct (getPlayerByDiscordId (res_discordId r) db1) as [q1|] eqn:Hfind1;
            [|reflexivity].
          exfalso. apply find_some in Hfind1. destruct Hfind1 as [Hq1 Hs1].
          apply sameString_true in Hs1.
          destruct (Hrows1 q1 Hq1) as [(q & Hq & _ & Hqd)|Hdone].
          - apply find_discordId_none in Hfind0. apply Hfind0.
            apply in_map_iff. exists q. split; [congruence | exact Hq].
          - apply Hfresh. rewrite <- Hs1. exact Hdone. }
        rewrite (Hcreated2 Hnone1).
        change (existsb _ (games db)) with (hasGameRecord (players_seq db1 + 1) date0 db).
        apply (hasGameRecord_unowned _ _ _ (players_seq db1)); [|lia].
        rewrite <- (grown_games _ _ _ Hg1). apply (wf_owners _ Hwf1). }
    assert (Hrows : forall q', In q' (players db2) ->
       (exists q, In q (players db) /\ id q = id q' /\ discordId q = discordId q') \/
       In (discordId q') (map res_discordId (rs ++ [r]))).
    { intros q' Hq'. rewrite map_app, in_app_iff. simpl.
      destruct (Hrows2 q' Hq') as [(q1 & Hq1 & Hid1 & Hd1)|[Hd _]];
        [|right; right; left; congruence].
      destruct (Hrows1 q1 Hq1) as [(q & Hq & Hid & Hd)|Hdone].
      - left. exists q. repeat split; congruence.
      - right. left. congruence. }
    assert (Hps2 : Forall2 (collectedFrom config db db2 pm) ps
              (List.filter (fun r => negb (alreadyRecorded date0 db (res_discordId r))) rs)).
    { eapply Forall2_impl; [exact Hps|]. intros p r0. apply collectedFrom_grown. exact Hg2. }
    rewrite Hrecorded, filter_snoc.
    destruct (alreadyRecorded date0 db (res_discordId r)) eqn:Hal; simpl.
    + exists ps, pm, db2. rewrite app_nil_r.
      split; [reflexivity|]. split; [exact Hwf2|].
      split; [eapply grown_trans; eassumption|]. tauto.
    + assert (Hnotin : ~ In (id player) (map playerId ps)).
      { intros Hin. apply in_map_iff in Hin. destruct Hin as (p' & Hp'id & Hp').
        destruct (Forall2_In_l _ _ _ _ Hps2 Hp') as (r' & Hr' & _ & _ & (row & Hrow & Hid & Hd) & _).
        apply filter_In in Hr'. destruct Hr' as [Hr' _].
        assert (Heq : row = player).
        { apply (NoDup_map_eq id (players db2)).
          - apply (wf_ids _ Hwf2).
          - apply list_elem_of_In. exact Hrow.
          - apply list_elem_of_In. exact Hin2.
          - congruence. }
        apply Hfresh. apply in_map_iff. exists r'. split; [congruence | exact Hr']. }
      assert (Hclean : hasGameRecord (id player) date0 db = false).
      { rewrite <- Hrecorded. unfold hasGameRecord. rewrite Hgames. reflexivity. }
      eexists (ps ++ [_]), _, db2.
      split; [reflexivity|]. split; [exact Hwf2|].
      split; [eapply grown_trans; eassumption|]. split; [exact Hrows|].
      split; [|split].
      * rewrite map_app. simpl. apply NoDup_app. split; [exact Hids|]. split.
        -- intros x Hx Hx'. apply list_elem_of_singleton in Hx'. subst x.
           apply Hnotin. apply list_elem_of_In. exact Hx.
        -- apply NoDup_singleton.
      * apply Forall2_app.
        -- eapply Forall2_impl_In; [exact Hps2|].
           intros p' r' Hp' (Hgc & Hel & Hrow & Hpm). repeat split; try assumption.
           rewrite lookup_insert_ne; [exact Hpm|].
           intros Heq. apply Hnotin. apply in_map_iff. exists p'. split; [congruence | exact Hp'].
        -- constructor; [|constructor]. repeat split; simpl.
           ++ rewrite Helo2. apply grown_startRating. exact Hg1.
           ++ exists player. repeat split; assumption.
           ++ apply lookup_insert_eq.
      * apply Forall_app. split; [exact Hrec|]. constructor; [exact Hclean | constructor].
Qed.

End FirstLoop.

(** ** The second loop of a round, in detail *)

Section SecondLoop.
Import Js Repo Pipeline.
Import Elo (EloConfig, defaultRating, Participant, playerId, currentElo, guessCount,
            calculatePairwiseElo).
Local Open Scope Z_scope.

Lemma afterGame_keys g e date0 crown p :
  id (afterGame g e date0 crown p) = id p /\
  discordId (afterGame g e date0 crown p) = discordId p.
Proof. split; reflexivity. Qed.

Lemma playedRow_keys ec date0 ps rs row :
  id (playedRow ec date0 ps rs row) = id row /\
  discordId (playedRow ec date0 ps rs row) = discordId row.
Proof.
  revert rs row. induction ps as [|p ps IH]; intros [|r rs] row; simpl; try tauto.
  destruct (IH rs (if id row =? playerId p
                   then afterGame (res_guessCount r) (newEloOf ec p) date0 (res_hasCrown r) row
                   else row)) as [-> ->].
  destruct (id row =? playerId p); split; reflexivity.
Qed.

Lemma playedRow_other ec date0 ps rs row :
  ~ In (id row) (map playerId ps) -> playedRow ec date0 ps rs row = row.
Proof.
  revert rs row. induction ps as [|p ps IH]; intros [|r rs] row Hnot; simpl; try reflexivity.
  simpl in Hnot. destruct (Z.eqb_spec (id row) (playerId p)) as [Heq|_];
    [exfalso; apply Hnot; left; congruence|].
  apply IH. tauto.
Qed.

Lemma playedRow_participant ec date0 ps rs row p r :
  NoDup (map playerId ps) -> length ps = length rs ->
  In (p, r) (combine ps rs) -> id row = playerId p ->
  playedRow ec date0 ps rs row =
  afterGame (res_guessCount r) (newEloOf ec p) date0 (res_hasCrown r) row.
Proof.
  revert rs row. induction ps as [|p0 ps IH]; intros [|r0 rs] row Hnd Hlen Hin Hid;
    simpl in *; try contradiction.
  apply NoDup_cons in Hnd. destruct Hnd as [Hp0 Hnd].
  destruct Hin as [[= -> ->]|Hin].
  - rewrite Hid, Z.eqb_refl. apply playedRow_other. simpl.
    intros Hin. apply Hp0. apply list_elem_of_In. rewrite <- Hid. exact Hin.
  - destruct (Z.eqb_spec (id row) (playerId p0)) as [Heq|_].
    + exfalso. apply Hp0. rewrite <- Heq, Hid. apply list_elem_of_In, in_map_iff.
      exists p. split; [reflexivity|]. apply in_combine_l in Hin. exact Hin.
    + apply IH; try assumption. lia.
Qed.

(** The second loop for participants with pairwise distinct ids, none of
    which has a game for the date: it returns, with one calculation per
    participant, and has applied [playedRow] to every row of [players]. *)
Lemma applyChanges_distinct config db0 pm ec date0 wn ps rs acc db :
  wellFormed db -> NoDup (map playerId ps) ->
  Forall2 (collectedFrom config db0 db pm) ps rs ->
  Forall (fun p => hasGameRecord (playerId p) date0 db = false) ps ->
  exists db',
    applyChanges ps pm ec date0 wn acc db
      = (Returns (acc ++ zip_with (calculationOf ec) ps rs), db') /\
    wellFormed db' /\
    players db' = map (playedRow ec date0 ps rs) (players db) /\
    daily_summaries db' = daily_summaries db.
Proof.
  intros Hwf Hnd Hps. revert acc db Hwf Hnd Hps.
  assert (Hgen : forall l k, Forall2 (fun (p : Participant) (r : ParsedPlayerResult) =>
            guessCount p = res_guessCount r /\
            pm !! playerId p =
              Some {| data_discordId := res_discordId r;
                      data_guessCount := res_guessCount r;
                      data_previousElo := currentElo p;
                      data_hasCrown := res_hasCrown r |}) l k ->
          forall acc db, wellFormed db -> NoDup (map playerId l) ->
          Forall (fun p => playerId p <= players_seq db) l ->
          Forall (fun p => hasGameRecord (playerId p) date0 db = false) l ->
          exists db',
            applyChanges l pm ec date0 wn acc db
              = (Returns (acc ++ zip_with (calculationOf ec) l k), db') /\
            wellFormed db' /\
            players db' = map (playedRow ec date0 l k) (players db) /\
            daily_summaries db' = daily_summaries db).
  { induction 1 as [|p r l k [Hgc Hpm] _ IH]; intros acc db Hwf Hnd Hseq Hclean.
    - exists db. simpl. rewrite app_nil_r, map_id. tauto.
    - simpl. rewrite Hpm. simpl.
      apply NoDup_cons in Hnd. destruct Hnd as [Hp Hnd].
      apply Forall_cons in Hseq. destruct Hseq as [Hpseq Hseq].
      apply Forall_cons in Hclean. destruct Hclean as [Hpclean Hclean].
      unfold bind at 1, updatePlayerAfterGame at 1, exec at 1.
      set (db1 := updatePlayer (playerId p) _ db).
      assert (Hwf1 : wellFormed db1)
        by (apply updatePlayer_wellFormed; [intros q; apply afterGame_keys | exact Hwf]).
      unfold bind at 1. unfold recordGame at 1.
      change (hasGameRecord (playerId p) date0 db1) with (hasGameRecord (playerId p) date0 db).
      rewrite Hpclean.
      match goal with
      | |- context [bind (recordEloHistory _ _ _) _ ?d] => set (db2 := d)
      end.
      assert (Hwf2 : wellFormed db2).
      { pose proof (recordGame_wellFormed (playerId p) (res_guessCount r) date0 (currentElo p)
                      (currentElo p + default 0 (ec !! playerId p)) wn db1) as H.
        unfold recordGame in H.
        change (hasGameRecord (playerId p) date0 db1)
          with (hasGameRecord (playerId p) date0 db) in H.
        rewrite Hpclean in H. eapply H; [exact Hwf1 | exact Hpseq | reflexivity]. }
      unfold bind at 1, recordEloHistory at 1, exec at 1.
      match goal with
      | |- context [applyChanges l pm ec date0 wn ?a ?d] =>
          destruct (IH a d) as (db' & Hrun & Hwf' & Hplayers & Hsum)
      end.
      + apply (recordEloHistory_wellFormed (playerId p)
                 (currentElo p + default 0 (ec !! playerId p)) date0 db2 Hwf2).
      + exact Hnd.
      + exact Hseq.
      + apply Forall_forall. intros q Hq.
        rewrite Forall_forall in Hclean. specialize (Hclean q Hq).
        unfold hasGameRecord in *. simpl. rewrite existsb_app, Hclean. simpl.
        destruct (Z.eqb_spec (playerId p) (playerId q)) as [Heq|_]; [|reflexivity].
        exfalso. apply Hp. rewrite Heq. apply list_elem_of_fmap_2. exact Hq.
      + exists db'. split; [|split; [exact Hwf'|split]].
        * rewrite Hrun. rewrite <- app_assoc. reflexivity.
        * rewrite Hplayers. simpl. rewrite map_map. reflexivity.
        * rewrite Hsum. reflexivity. }
  intros acc db Hwf Hnd Hps Hclean.
  apply Hgen; try assumption.
  - eapply Forall2_impl; [exact Hps|]. intros p r (Hgc & _ & _ & Hpm). tauto.
  - apply Forall_forall. intros p Hp. apply list_elem_of_In in Hp.
    destruct (Forall2_In_l _ _ _ _ Hps Hp) as (r & _ & _ & _ & (row & Hrow & <- & _) & _).
    pose proof (wf_seq _ Hwf) as Hseq. rewrite Forall_forall in Hseq.
    apply Hseq. apply list_elem_of_In. exact Hrow.
Qed.

End SecondLoop.

(** ** A round for distinct players *)

Section WholeRound.
Import Js Repo Pipeline.
Import Elo (EloConfig, defaultRating, Participant, playerId, currentElo, guessCount,
            calculatePairwiseElo).
Local Open Scope Z_scope.

Lemma find_map_keys (h : Player -> Player) d (l : list Player) :
  (forall q, discordId (h q) = discordId q) ->
  List.find (fun p => sameString (discordId p) d) (map h l) =
  h <$> List.find (fun p => sameString (discordId p) d) l.
Proof.
  intros Hh. induction l as [|q l IH]; simpl; [reflexivity|].
  rewrite Hh. destruct (sameString (discordId q) d); [reflexivity | exact IH].
Qed.

(** A round on a database that meets the constraints of the schema, for
    results with pairwise distinct discord ids. *)
Lemma processDailyResults_distinct config date0 wn rs db :
  wellFormed db -> NoDup (map res_discordId rs) ->
  exists ps pm db1 db',
    collectParticipants rs date0 config [] ∅ db = (Returns (ps, pm), db1) /\
    processDailyResults rs date0 config wn db
      = (Returns (zip_with (calculationOf (calculatePairwiseElo ps config)) ps
                   (List.filter (fun r => negb (alreadyRecorded date0 db (res_discordId r))) rs)),
         db') /\
    wellFormed db1 /\ wellFormed db' /\
    NoDup (map playerId ps) /\
    Forall2 (collectedFrom config db db1 pm) ps
      (List.filter (fun r => negb (alreadyRecorded date0 db (res_discordId r))) rs) /\
    players db' = map (playedRow (calculatePairwiseElo ps config) date0 ps
                         (List.filter (fun r => negb (alreadyRecorded date0 db (res_discordId r))) rs))
                      (players db1) /\
    daily_summaries db' = daily_summaries db.
Proof.
  intros Hwf Hnd.
  destruct (collectParticipants_distinct config date0 rs db Hwf Hnd)
    as (ps & pm & db1 & Hcollect & Hwf1 & Hg & _ & Hids & Hps & Hclean).
  assert (Hsum1 : daily_summaries db1 = daily_summaries db).
  { destruct Hg as (g & extra & _ & _ & _ & _ & _ & Hs). exact Hs. }
  assert (Hclean1 : Forall (fun p => hasGameRecord (playerId p) date0 db1 = false) ps).
  { eapply Forall_impl; [exact Hclean|]. intros p Hp. simpl.
    rewrite (grown_hasGameRecord config db db1) by exact Hg. exact Hp. }
  destruct (applyChanges_distinct config db pm (calculatePairwiseElo ps config) date0 wn
              ps _ [] db1 Hwf1 Hids Hps Hclean1) as (db' & Hrun & Hwf' & Hplayers & Hsum).
  unfold processDailyResults, bind. rewrite Hcollect.
  destruct ps as [|p ps].
  - exists [], pm, db1, db1.
    split; [reflexivity|]. split; [reflexivity|].
    do 4 (split; [assumption|]). split; [|exact Hsum1].
    symmetry. erewrite map_ext; [apply map_id|]. reflexivity.
  - exists (p :: ps), pm, db1, db'. simpl in Hrun.
    split; [reflexivity|]. split; [exact Hrun|].
    do 5 (split; [assumption|]). congruence.
Qed.

Lemma zip_calculations config db db1 pm ec ps rs :
  Forall2 (collectedFrom config db db1 pm) ps rs ->
  map (fun o => (calc_discordId o, calc_guessCount o)) (zip_with (calculationOf ec) ps rs)
    = map (fun r => (res_discordId r, res_guessCount r)) rs /\
  Forall (fun o => previousElo o = startRating config db (calc_discordId o) /\
                   newElo o = previousElo o + eloChange o)
         (zip_with (calculationOf ec) ps rs).
Proof.
  induction 1 as [|p r ps rs (Hgc & Helo & _) _ [IH1 IH2]]; simpl.
  - split; constructor.
  - rewrite IH1. split; [reflexivity|]. constructor; [|exact IH2].
    simpl. split; [exact Helo | reflexivity].
Qed.

(** X19: on a database that meets the constraints of the schema, a round for
    results with pairwise distinct discord ids never throws: it returns one
    calculation for every result whose player has no game for the date yet,
    in the order of the results, each starting from the player's stored
    rating (the default rating for a new player). *)
Theorem round_returns_one_result_per_new_player config date0 wn rs db :
  wellFormed db -> NoDup (map res_discordId rs) ->
  exists out db',
    processDailyResults rs date0 config wn db = (Returns out, db') /\
    map (fun o => (calc_discordId o, calc_guessCount o)) out =
      map (fun r => (res_discordId r, res_guessCount r))
          (List.filter (fun r => negb (alreadyRecorded date0 db (res_discordId r))) rs) /\
    Forall (fun o => previousElo o = startRating config db (calc_discordId o) /\
                     newElo o = previousElo o + eloChange o) out.
Proof.
  intros Hwf Hnd.
  destruct (processDailyResults_distinct config date0 wn rs db Hwf Hnd)
    as (ps & pm & db1 & db' & _ & Hrun & _ & _ & _ & Hps & _).
  eexists _, db'. split; [exact Hrun|].
  apply (zip_calculations config db db1 pm). exact Hps.
Qed.

Lemma round_returns_one_result_per_new_player_witness :
  exists out db',
    processDailyResults nextDay (lit "2024-03-10") Elo.config32 None recordedDb
      = (Returns out, db') /\
    map (fun o => (calc_discordId o, calc_guessCount o)) out =
      map (fun r => (res_discordId r, res_guessCount r))
          (List.filter
             (fun r => negb (alreadyRecorded (lit "2024-03-10") recordedDb (res_discordId r)))
             nextDay) /\
    Forall (fun o => previousElo o = startRating Elo.config32 recordedDb (calc_discordId o) /\
                     newElo o = previousElo o + eloChange o) out.
Proof.
  apply (round_returns_one_result_per_new_player Elo.config32 (lit "2024-03-10") None
           nextDay recordedDb).
  - schema_holds.
  - apply (bool_decide_unpack _). vm_compute. exact I.
Defined.

Lemma Forall_zip_with {A B C} (P : C -> Prop) (f : A -> B -> C) (l : list A) (k : list B) :
  (forall a b, In (a, b) (combine l k) -> P (f a b)) -> Forall P (zip_with f l k).
Proof.
  revert k. induction l as [|a l IH]; intros [|b k] H; simpl; try constructor.
  - apply H. left. reflexivity.
  - apply IH. intros a' b' Hin. apply H. right. exact Hin.
Qed.

Lemma Forall2_combine {A B} (R : A -> B -> Prop) (l : list A) (k : list B) a b :
  Forall2 R l k -> In (a, b) (combine l k) -> R a b.
Proof.
  induction 1 as [|a0 b0 l k Hab _ IH]; simpl; [contradiction|].
  intros [[= <- <-]|Hin]; [exact Hab | apply IH; exact Hin].
Qed.

Lemma find_discordId_unique d (l : list Player) row :
  NoDup (map discordId l) -> In row l -> discordId row = d ->
  List.find (fun p => sameString (discordId p) d) l = Some row.
Proof.
  intros Hnd Hin Hd.
  destruct (List.find (fun p => sameString (discordId p) d) l) as [x|] eqn:Hfind.
  - apply find_some in Hfind. destruct Hfind as [Hx Hs]. apply sameString_true in Hs.
    f_equal. apply (NoDup_map_eq discordId l); try (apply list_elem_of_In; assumption).
    + exact Hnd.
    + congruence.
  - pose proof (find_none _ _ Hfind row Hin) as H. simpl in H.
    rewrite Hd, sameString_refl in H. discriminate.
Qed.

(** X20: after such a round every returned calculation is what the database
    holds: the player found under the discord id of the result has the id
    and the new rating of the result, was last seen on the game date, is
    active with no inactive days, and has a game for the date. *)
Theorem round_results_are_stored config date0 wn rs db out db' :
  wellFormed db -> NoDup (map res_discordId rs) ->
  processDailyResults rs date0 config wn db = (Returns out, db') ->
  Forall (fun o => exists row,
            getPlayerByDiscordId (calc_discordId o) db' = Some row /\
            id row = calc_playerId o /\
            elo row = newElo o /\
            lastPlayed row = Some date0 /\
            isActive row = true /\
            consecutiveInactiveDays row = 0 /\
            hasGameRecord (calc_playerId o) date0 db' = true) out.
Proof.
  intros Hwf Hnd Hrun.
  destruct (processDailyResults_distinct config date0 wn rs db Hwf Hnd)
    as (ps & pm & db1 & db2 & Hcollect & Hrun' & Hwf1 & _ & Hids & Hps & Hplayers & _).
  rewrite Hrun in Hrun'. injection Hrun' as -> ->.
  assert (Hgames : forall o, In o (zip_with (calculationOf (calculatePairwiseElo ps config)) ps
                     (List.filter (fun r => negb (alreadyRecorded date0 db (res_discordId r))) rs)) ->
                   hasGameRecord (calc_playerId o) date0 db2 = true).
  { revert Hrun. unfold processDailyResults, bind. rewrite Hcollect.
    destruct ps as [|p ps]; [intros _ o []|].
    intros Hrun. apply applyChanges_spec in Hrun.
    destruct Hrun as (newRs & newGames & Hout & _ & Hg & Hgs). rewrite app_nil_l in Hout.
    rewrite Hout. intros o Ho.
    destruct (Forall2_In_l _ _ _ _ Hgs Ho) as (g & Hin & Hpid & Hdate & _).
    unfold hasGameRecord. apply existsb_exists. exists g. split.
    - rewrite Hg. apply in_or_app. right. exact Hin.
    - rewrite Hpid, Hdate, Z.eqb_refl, sameString_refl. reflexivity. }
  cut (Forall (fun o =>
         hasGameRecord (calc_playerId o) date0 db2 = true ->
         exists row,
           getPlayerByDiscordId (calc_discordId o) db2 = Some row /\
           id row = calc_playerId o /\
           elo row = newElo o /\
           lastPlayed row = Some date0 /\
           isActive row = true /\
           consecutiveInactiveDays row = 0 /\
           hasGameRecord (calc_playerId o) date0 db2 = true)
         (zip_with (calculationOf (calculatePairwiseElo ps config)) ps
            (List.filter (fun r => negb (alreadyRecorded date0 db (res_discordId r))) rs))).
  { rewrite !Forall_forall. intros Hall o Ho. apply Hall; [exact Ho|].
    apply Hgames. apply list_elem_of_In. exact Ho. }
  apply Forall_zip_with. intros p r Hin Hgame.
  destruct (Forall2_combine _ _ _ _ _ Hps Hin) as (_ & _ & (row & Hrow & Hid & Hd) & _).
  exists (afterGame (res_guessCount r) (newEloOf (calculatePairwiseElo ps config) p) date0
            (res_hasCrown r) row).
  cbn [calculationOf calc_discordId calc_playerId newElo] in *.
  split; [|repeat split; assumption].
  unfold getPlayerByDiscordId. rewrite Hplayers, find_map_keys by (intros q; apply playedRow_keys).
  rewrite (find_discordId_unique _ _ row (wf_discordIds _ Hwf1) Hrow Hd). simpl.
  f_equal. apply playedRow_participant; try assumption.
  apply (Forall2_length _ _ _ Hps).
Qed.

Lemma round_results_are_stored_witness :
  let run := processDailyResults nextDay (lit "2024-03-10") Elo.config32 None recordedDb in
  Forall (fun o => exists row,
            getPlayerByDiscordId (calc_discordId o) (snd run) = Some row /\
            id row = calc_playerId o /\
            elo row = newElo o /\
            lastPlayed row = Some (lit "2024-03-10") /\
            isActive row = true /\
            consecutiveInactiveDays row = 0 /\
            hasGameRecord (calc_playerId o) (lit "2024-03-10") (snd run) = true)
         (match fst run with Returns out => out | Throws _ => [] end).
Proof.
  intros run.
  apply (round_results_are_stored Elo.config32 (lit "2024-03-10") None nextDay recordedDb).
  - schema_holds.
  - apply (bool_decide_unpack _). vm_compute. exact I.
  - subst run. unfold processDailyResults, bind.
    set (collected := collectParticipants _ _ _ _ _ _).
    vm_compute in collected. subst collected. cbv beta iota.
    generalize (calculatePairwiseElo
                  [ {| playerId := 1; currentElo := 1010; guessCount := 2 |};
                    {| playerId := 2; currentElo := 1000; guessCount := 4 |} ]
                  Elo.config32).
    intros eloChanges. vm_compute. reflexivity.
Defined.

End WholeRound.

(** ** A round for any results *)

Section AnyRound.
Import Js Repo Pipeline.
Import Elo (EloConfig, defaultRating, Participant, playerId, currentElo, guessCount,
            calculatePairwiseElo).
Local Open Scope Z_scope.

Lemma onlyTouches_refl ds db : onlyTouches ds db db.
Proof. intros i row Hi _. exact Hi. Qed.

Lemma onlyTouches_trans ds db1 db2 db3 :
  onlyTouches ds db1 db2 -> onlyTouches ds db2 db3 -> onlyTouches ds db1 db3.
Proof. intros H12 H23 i row Hi Hd. apply H23; [apply H12|]; assumption. Qed.

Lemma updatePlayer_onlyTouches ds pid set db :
  wellFormed db -> owned ds db pid -> onlyTouches ds db (updatePlayer pid set db).
Proof.
  intros Hwf (row' & Hrow' & Hid' & Hd') i row Hi Hd.
  unfold updatePlayer, withPlayers. simpl.
  change (map ?f (players db)) with (f <$> players db).
  rewrite list_lookup_fmap, Hi. simpl.
  destruct (Z.eqb_spec (id row) pid) as [Heq|_]; [|reflexivity].
  exfalso. apply Hd.
  assert (row = row'); [|congruence].
  apply (NoDup_map_eq id (players db)).
  - apply (wf_ids _ Hwf).
  - apply list_elem_of_lookup. eauto.
  - apply list_elem_of_In. exact Hrow'.
  - congruence.
Qed.

Lemma updatePlayer_owned ds pid pid' set db :
  (forall p, id (set p) = id p /\ discordId (set p) = discordId p) ->
  owned ds db pid' -> owned ds (updatePlayer pid set db) pid'.
Proof.
  intros Hset (row & Hrow & Hid & Hd).
  exists (if id row =? pid then set row else row). split.
  - unfold updatePlayer, withPlayers. simpl.
    apply (in_map (fun p => if id p =? pid then set p else p)). exact Hrow.
  - destruct (id row =? pid); [|tauto]. destruct (Hset row) as [-> ->]. tauto.
Qed.

Lemma grown_owned config ds db db' pid :
  grown config db db' -> owned ds db pid -> owned ds db' pid.
Proof.
  intros Hg (row & Hrow & Hid & Hd).
  destruct (grown_row _ _ _ _ Hg Hrow) as (row' & Hrow' & Hid' & Hd').
  exists row'. repeat split; congruence.
Qed.

Lemma getOrCreatePlayer_onlyTouches ds data defaultElo db out db' :
  wellFormed db -> In (new_discordId data) ds ->
  getOrCreatePlayer data defaultElo db = (out, db') -> onlyTouches ds db db'.
Proof.
  intros Hwf Hd. unfold getOrCreatePlayer.
  destruct (getPlayerByDiscordId (new_discordId data) db) as [existing|] eqn:Hfind.
  - destruct (negb _).
    + unfold bind, updatePlayerUsername, exec, ret. intros [= _ <-].
      apply updatePlayer_onlyTouches; [exact Hwf|].
      apply find_some in Hfind. destruct Hfind as [Hin Hs]. apply sameString_true in Hs.
      exists existing. repeat split; [exact Hin | congruence].
    + intros [= _ <-]. apply onlyTouches_refl.
  - unfold createPlayer. rewrite Hfind. intros [= _ <-] i row Hi _. simpl.
    apply lookup_app_l_Some. exact Hi.
Qed.

(** The first loop, whatever the results: the constraints of the schema
    are kept, only players named in the results are touched, and every
    participant carries the id of such a player. *)
Lemma collectParticipants_any config ds date0 rs ps pm db out db' :
  wellFormed db ->
  Forall (fun p => owned ds db (playerId p)) ps ->
  (forall r, In r rs -> In (res_discordId r) ds) ->
  collectParticipants rs date0 config ps pm db = (out, db') ->
  wellFormed db' /\ onlyTouches ds db db' /\
  (exists ps' pm', out = Returns (ps', pm') /\
     Forall (fun p => owned ds db' (playerId p)) ps') /\
  players_seq db <= players_seq db' /\
  (forall q', In q' (players db') ->
     (exists q, In q (players db) /\ id q = id q' /\ discordId q = discordId q') \/
     players_seq db < id q').
Proof.
  revert ps pm db. induction rs as [|r rs IH]; intros ps pm db Hwf Hps Hds; simpl.
  - unfold ret. intros [= <- <-]. split; [exact Hwf|]. split; [apply onlyTouches_refl|].
    split; [eauto|]. split; [lia|]. intros q' Hq'. left. exists q'. tauto.
  - unfold bind at 1.
    destruct (getOrCreatePlayer _ _ db) as [o db1] eqn:Hget.
    assert (Htouch : onlyTouches ds db db1).
    { eapply getOrCreatePlayer_onlyTouches; [exact Hwf | | exact Hget].
      simpl. apply Hds. left. reflexivity. }
    apply (getOrCreatePlayer_step config) in Hget; [|exact Hwf].
    destruct Hget as (player & -> & Hwf1 & Hg & Hin & Hd & _ & _ & _ & Hrows1 & Hseq1).
    assert (Hrows : forall db2, players_seq db1 <= players_seq db2 ->
      (forall q', In q' (players db2) ->
         (exists q, In q (players db1) /\ id q = id q' /\ discordId q = discordId q') \/
         players_seq db1 < id q') ->
      players_seq db <= players_seq db2 /\
      forall q', In q' (players db2) ->
         (exists q, In q (players db) /\ id q = id q' /\ discordId q = discordId q') \/
         players_seq db < id q').
    { intros db2 Hseq2 Hrows2. split; [lia|]. intros q' Hq'.
      destruct (Hrows2 q' Hq') as [(q1 & Hq1 & Hid1 & Hd1)|Hnew]; [|right; lia].
      destruct (Hrows1 q1 Hq1) as [(q & Hq & Hid0 & Hd0)|[_ Hcreated]].
      - left. exists q. repeat split; congruence.
      - right. lia. }
    assert (Hps1 : Forall (fun p => owned ds db1 (playerId p)) ps).
    { eapply Forall_impl; [exact Hps|]. intros p. apply (grown_owned config). exact Hg. }
    assert (Hrest : forall r', In r' rs -> In (res_discordId r') ds)
      by (intros r' Hr'; apply Hds; right; exact Hr').
    unfold bind at 1, query at 1.
    destruct (hasGameRecord (id player) date0 db1); intros Hrun.
    + destruct (IH _ _ _ Hwf1 Hps1 Hrest Hrun) as (Hwf' & Ht' & Hout & Hseq' & Hrows').
      split; [exact Hwf'|]. split; [eapply onlyTouches_trans; eassumption|].
      split; [exact Hout | apply Hrows; assumption].
    + apply IH in Hrun; try assumption.
      * destruct Hrun as (Hwf' & Ht' & Hout & Hseq' & Hrows').
        split; [exact Hwf'|]. split; [eapply onlyTouches_trans; eassumption|].
        split; [exact Hout | apply Hrows; assumption].
      * apply Forall_app. split; [exact Hps1|]. constructor; [|constructor].
        simpl. exists player. repeat split; [exact Hin|].
        rewrite Hd. apply Hds. left. reflexivity.
Qed.

(** The second loop, whatever the participants, as long as they carry ids
    of players among [ds]. *)
Lemma applyChanges_any ds pm ec date0 wn ps acc db out db' :
  wellFormed db ->
  Forall (fun p => owned ds db (playerId p)) ps ->
  applyChanges ps pm ec date0 wn acc db = (out, db') ->
  wellFormed db' /\ onlyTouches ds db db' /\
  daily_summaries db' = daily_summaries db.
Proof.
  revert acc db. induction ps as [|p ps IH]; intros acc db Hwf Hps; simpl.
  - unfold ret. intros [= _ <-]. split; [exact Hwf|]. split; [apply onlyTouches_refl | reflexivity].
  - apply Forall_cons in Hps. destruct Hps as [Hp Hps].
    destruct (pm !! playerId p) as [pd|].
    2: { unfold raise. intros [= _ <-].
         split; [exact Hwf|]. split; [apply onlyTouches_refl | reflexivity]. }
    unfold bind at 1, updatePlayerAfterGame at 1, exec at 1.
    set (db1 := updatePlayer (playerId p) _ db).
    assert (Hwf1 : wellFormed db1)
      by (apply updatePlayer_wellFormed; [intros q; apply afterGame_keys | exact Hwf]).
    assert (Ht1 : onlyTouches ds db db1) by (apply updatePlayer_onlyTouches; assumption).
    assert (Hps1 : Forall (fun p => owned ds db1 (playerId p)) ps).
    { eapply Forall_impl; [exact Hps|]. intros q. apply updatePlayer_owned.
      intros q'. apply afterGame_keys. }
    assert (Hseq : playerId p <= players_seq db1).
    { destruct Hp as (row & Hrow & <- & _).
      pose proof (wf_seq _ Hwf) as Hs. rewrite Forall_forall in Hs.
      apply (Hs row). apply list_elem_of_In. exact Hrow. }
    unfold bind at 1.
    destruct (recordGame _ _ _ _ _ _ db1) as [o db2] eqn:Hrec.
    pose proof (recordGame_wellFormed _ _ _ _ _ _ _ _ _ Hwf1 Hseq Hrec) as Hwf2.
    assert (Hsame : players db2 = players db1 /\ daily_summaries db2 = daily_summaries db1).
    { revert Hrec. unfold recordGame. destruct (hasGameRecord _ _ db1);
        intros [= _ <-]; split; reflexivity. }
    destruct Hsame as [Hsame Hsum2].
    destruct o as [row|e].
    2: { intros [= _ <-]. split; [exact Hwf2|]. split; [|exact Hsum2].
         intros i r Hi Hd. rewrite Hsame. apply Ht1; assumption. }
    unfold bind at 1, recordEloHistory at 1, exec at 1.
    intros Hrun. apply IH in Hrun.
    + destruct Hrun as (Hwf' & Ht' & Hsum'). split; [exact Hwf'|]. split.
      * intros i r Hi Hd. apply Ht'; [|exact Hd]. simpl. rewrite Hsame.
        apply Ht1; assumption.
      * rewrite Hsum'. simpl. exact Hsum2.
    + apply (recordEloHistory_wellFormed _ _ _ db2 Hwf2).
    + eapply Forall_impl; [exact Hps1|]. intros q (r & Hr & Hid & Hd).
      exists r. simpl. rewrite Hsame. tauto.
Qed.

Lemma processDailyResults_any config date0 wn rs db out db' :
  wellFormed db ->
  processDailyResults rs date0 config wn db = (out, db') ->
  wellFormed db' /\ onlyTouches (map res_discordId rs) db db' /\
  daily_summaries db' = daily_summaries db.
Proof.
  intros Hwf. unfold processDailyResults, bind.
  destruct (collectParticipants rs date0 config [] ∅ db) as [o db1] eqn:Hcollect.
  pose proof Hcollect as Hg. apply collectParticipants_spec in Hg.
  destruct Hg as (_ & _ & _ & (_ & _ & _ & _ & _ & _ & _ & Hsum1) & _).
  apply (collectParticipants_any config (map res_discordId rs)) in Hcollect;
    [|exact Hwf | constructor | intros r Hr; apply in_map; exact Hr].
  destruct Hcollect as (Hwf1 & Ht1 & (ps & pm & -> & Hps) & _).
  destruct ps as [|p ps].
  - unfold ret. intros [= _ <-]. tauto.
  - intros Hrun. apply (applyChanges_any (map res_discordId rs)) in Hrun; try assumption.
    destruct Hrun as (Hwf' & Ht' & Hsum').
    split; [exact Hwf'|]. split; [eapply onlyTouches_trans; eassumption | congruence].
Qed.

(** X21: whatever the results and however the round ends, it changes no row
    of a player who is not named in the results. *)
Theorem round_touches_only_named_players config date0 wn rs db out db' :
  wellFormed db ->
  processDailyResults rs date0 config wn db = (out, db') ->
  forall (i : nat) row,
    players db !! i = Some row -> ~ In (discordId row) (map res_discordId rs) ->
    players db' !! i = Some row.
Proof.
  intros Hwf Hrun. apply (processDailyResults_any _ _ _ _ _ _ _ Hwf Hrun).
Qed.

Lemma round_touches_only_named_players_witness :
  let run :=
    processDailyResults
      [ {| res_discordId := lit "222"; res_username := lit "bob";
           res_guessCount := 4; res_hasCrown := false |} ]
      (lit "2024-03-10") Elo.config32 None recordedDb in
  players (snd run) !! 0%nat = Some samplePlayer.
Proof.
  intros run.
  apply (round_touches_only_named_players Elo.config32 (lit "2024-03-10") None
           [ {| res_discordId := lit "222"; res_username := lit "bob";
                res_guessCount := 4; res_hasCrown := false |} ]
           recordedDb (fst run) (snd run)).
  - schema_holds.
  - apply surjective_pairing.
  - reflexivity.
  - vm_compute. intros [H|[]]. discriminate.
Defined.

End AnyRound.

(** ** A player named twice *)

Section RepeatedPlayer.
Import Js Repo Pipeline.
Import Elo (EloConfig, defaultRating, Participant, playerId, currentElo, guessCount,
            calculatePairwiseElo).
Local Open Scope Z_scope.

(** The second loop throws as soon as a participant has a game for the
    date, or two participants carry the same id. *)
Lemma applyChanges_throws pm ec date0 wn ps acc db :
  Forall (fun p => is_Some (pm !! playerId p)) ps ->
  Exists (fun p => hasGameRecord (playerId p) date0 db = true) ps \/
    ~ NoDup (map playerId ps) ->
  exists db', applyChanges ps pm ec date0 wn acc db
              = (Throws "SQLITE_CONSTRAINT_UNIQUE", db').
Proof.
  revert acc db. induction ps as [|p ps IH]; intros acc db Hpm Hbad.
  - exfalso. destruct Hbad as [Hex|Hdup]; [inversion Hex | apply Hdup; constructor].
  - apply Forall_cons in Hpm. destruct Hpm as [[pd Hpd] Hpm].
    simpl. rewrite Hpd.
    unfold bind at 1, updatePlayerAfterGame at 1, exec at 1.
    unfold bind at 1, recordGame at 1.
    match goal with
    | |- context [hasGameRecord (playerId p) date0 ?d] =>
        change (hasGameRecord (playerId p) date0 d)
          with (hasGameRecord (playerId p) date0 db)
    end.
    destruct (hasGameRecord (playerId p) date0 db) eqn:Hrec; [eauto|].
    unfold bind at 1, recordEloHistory at 1, exec at 1.
    apply IH; [exact Hpm|].
    destruct (decide (playerId p ∈ map playerId ps)) as [Hin|Hnotin].
    + left. apply list_elem_of_fmap in Hin. destruct Hin as (q & Hq & Hin).
      apply Exists_exists. exists q. split; [exact Hin|].
      unfold hasGameRecord. simpl. rewrite existsb_app. simpl.
      rewrite <- Hq, Z.eqb_refl, sameString_refl. apply orb_true_r.
    + destruct Hbad as [Hex|Hdup].
      * left. apply Exists_cons in Hex. destruct Hex as [Hp|Hex]; [congruence|].
        eapply Exists_impl; [exact Hex|]. intros q Hq.
        unfold hasGameRecord in *. simpl. rewrite existsb_app, Hq. reflexivity.
      * right. intros Hnd. apply Hdup. simpl. apply NoDup_cons. tauto.
Qed.

(** Once the player of [d] is there and has no game for the date, every
    result for [d] adds a participant with the id of that player. *)
Lemma collectParticipants_includes config date0 d rs ps pm db P ps' pm' db' :
  getPlayerByDiscordId d db = Some P ->
  hasGameRecord (id P) date0 db = false ->
  In d (map res_discordId rs) ->
  collectParticipants rs date0 config ps pm db = (Returns (ps', pm'), db') ->
  exists new, ps' = ps ++ new /\ In (id P) (map playerId new).
Proof.
  revert ps pm db P. induction rs as [|r rs IH]; intros ps pm db P Hfind Hclean Hin;
    [contradiction|].
  simpl. unfold bind at 1.
  destruct (getOrCreatePlayer _ _ db) as [o db1] eqn:Hget.
  apply (getOrCreatePlayer_spec config) in Hget.
  destruct Hget as (player & -> & _ & Hsame & Hg).
  destruct (grown_find _ _ _ _ _ Hg Hfind) as [u Hfind1].
  assert (Hclean1 : hasGameRecord (id (setUsername u P)) date0 db1 = false)
    by (rewrite (grown_hasGameRecord config db db1) by exact Hg; exact Hclean).
  unfold bind at 1, query at 1.
  destruct (sameString (res_discordId r) d) eqn:Hd.
  - apply sameString_true in Hd. rewrite Hd in Hsame.
    rewrite (Hsame _ Hfind). change (id (setUsername u P)) with (id P) in Hclean1.
    rewrite Hclean1. intros Hrun. apply collectParticipants_spec in Hrun.
    destruct Hrun as (new & pm1 & [= -> _] & _).
    eexists (_ :: new). rewrite <- app_assoc. split; [reflexivity|]. simpl. left.
    reflexivity.
  - assert (Hin' : In d (map res_discordId rs)).
    { destruct Hin as [Heq|Hin']; [|exact Hin'].
      apply sameString_false in Hd. congruence. }
    destruct (hasGameRecord (id player) date0 db1); intros Hrun.
    + apply (IH _ _ _ _ Hfind1 Hclean1 Hin') in Hrun. exact Hrun.
    + apply (IH _ _ _ _ Hfind1 Hclean1 Hin') in Hrun.
      destruct Hrun as (new & -> & Hnew). eexists (_ :: new).
      rewrite <- app_assoc. split; [reflexivity|]. right. exact Hnew.
Qed.

(** X22: when a discord id occurs twice among the results and its player has
    no game for the date yet, the round throws on the second insert into
    [games]; nothing is rolled back, and no daily summary is written. *)
Theorem repeated_player_fails_the_round config date0 wn l1 r1 l2 db :
  wellFormed db ->
  alreadyRecorded date0 db (res_discordId r1) = false ->
  In (res_discordId r1) (map res_discordId l2) ->
  exists db',
    processDailyResults (l1 ++ r1 :: l2) date0 config wn db
      = (Throws "SQLITE_CONSTRAINT_UNIQUE", db') /\
    daily_summaries db' = daily_summaries db.
Proof.
  intros Hwf Hfresh Hagain.
  set (d := res_discordId r1) in *.
  destruct (collectParticipants (l1 ++ r1 :: l2) date0 config [] ∅ db)
    as [o db3] eqn:Hall.
  pose proof Hall as Hspec. apply collectParticipants_spec in Hspec.
  destruct Hspec as (psAll & pmAll & -> & _ & _ & Hdom). simpl in Hall.
  (* the participants hold the id of the player of [d] twice *)
  assert (Hdup : ~ NoDup (map playerId psAll)).
  { revert Hall. rewrite collectParticipants_app.
    destruct (collectParticipants l1 date0 config [] ∅ db) as [oa dba] eqn:Ha.
    pose proof Ha as Hga. apply collectParticipants_spec in Hga.
    destruct Hga as (psa & pma & -> & Hga & _). simpl.
    apply (collectParticipants_any config (map res_discordId l1)) in Ha;
      [|exact Hwf | constructor | intros r Hr; apply in_map; exact Hr].
    destruct Ha as (Hwfa & _ & _ & Hseqa & Hrowsa).
    unfold bind at 1.
    destruct (getOrCreatePlayer _ _ dba) as [ob dbb] eqn:Hget.
    pose proof Hget as Hfound. apply getOrCreatePlayer_found in Hfound.
    apply (getOrCreatePlayer_step config) in Hget; [|exact Hwfa].
    destruct Hget as (P & -> & Hwfb & Hgb & _ & _ & _ & Hsame & Hcreated & _).
    destruct Hfound as (P' & [= <-] & Hfound & _). simpl in Hfound. fold d in Hfound.
    assert (Hgames : games dbb = games db).
    { rewrite (grown_games _ _ _ Hgb). apply (grown_games _ _ _ Hga). }
    assert (Hclean : hasGameRecord (id P) date0 dbb = false).
    { unfold hasGameRecord. rewrite Hgames.
      change (existsb _ (games db)) with (hasGameRecord (id P) date0 db).
      fold d in Hsame, Hcreated.
      destruct (getPlayerByDiscordId d dba) as [q1|] eqn:Hfinda.
      - rewrite (Hsame q1 eq_refl).
        apply find_some in Hfinda. destruct Hfinda as [Hq1 Hs1].
        apply sameString_true in Hs1.
        destruct (Hrowsa q1 Hq1) as [(q & Hq & Hid & Hd)|Hnew].
        + unfold alreadyRecorded, getPlayerByDiscordId in Hfresh.
          rewrite (find_discordId_unique d _ q (wf_discordIds _ Hwf) Hq) in Hfresh
            by congruence.
          rewrite <- Hid. exact Hfresh.
        + apply (hasGameRecord_unowned _ _ _ (players_seq db)); [apply (wf_owners _ Hwf) | lia].
      - rewrite (Hcreated eq_refl).
        apply (hasGameRecord_unowned _ _ _ (players_seq db)); [apply (wf_owners _ Hwf) | lia]. }
    unfold bind at 1, query at 1. rewrite Hclean.
    intros Hrest.
    apply (collectParticipants_includes config date0 d _ _ _ _ P) in Hrest;
      try assumption.
    destruct Hrest as (new & [= ->] & Hnew).
    rewrite !map_app. simpl. intros Hnd.
    apply NoDup_app in Hnd. destruct Hnd as (_ & Hdisj & _).
    apply (Hdisj (id P)).
    - apply elem_of_app. right. apply list_elem_of_singleton. reflexivity.
    - apply list_elem_of_In. exact Hnew. }
  destruct (processDailyResults (l1 ++ r1 :: l2) date0 config wn db) as [out db'] eqn:Hrun.
  pose proof (processDailyResults_any _ _ _ _ _ _ _ Hwf Hrun) as (_ & _ & Hsum).
  exists db'. split; [|exact Hsum]. f_equal.
  revert Hrun. unfold processDailyResults, bind. rewrite Hall.
  destruct psAll as [|p psAll]; [exfalso; apply Hdup; constructor|].
  intros Hrun.
  destruct (applyChanges_throws pmAll (calculatePairwiseElo (p :: psAll) config) date0 wn
              (p :: psAll) [] db3) as [db'' Hthrow].
  - apply Forall_forall. intros q Hq. apply Hdom. right.
    apply in_map. apply list_elem_of_In. exact Hq.
  - right. exact Hdup.
  - congruence.
Qed.

Lemma repeated_player_fails_the_round_witness :
  exists db',
    processDailyResults ([] ++ recordedAgain :: [recordedAgain]) (lit "2024-03-10")
      Elo.config32 None recordedDb
      = (Throws "SQLITE_CONSTRAINT_UNIQUE", db') /\
    daily_summaries db' = daily_summaries recordedDb.
Proof.
  apply (repeated_player_fails_the_round Elo.config32 (lit "2024-03-10") None
           [] recordedAgain [recordedAgain] recordedDb).
  - schema_holds.
  - vm_compute. reflexivity.
  - left. reflexivity.
Defined.

End RepeatedPlayer.

(** ** The activity update *)

Section Activity.
Import Js Repo Pipeline.
Local Open Scope Z_scope.

Lemma withPlayers_withPlayers f g db :
  withPlayers f (withPlayers g db) = withPlayers (fun l => f (g l)) db.
Proof. reflexivity. Qed.

(** The loop returns, counts the players of the snapshot that it marks and
    the others, and rewrites the table [players] row by row. *)
Lemma activityLoop_spec threshold l marked still db :
  activityLoop l threshold marked still db =
  (Returns
     {| playersMarkedInactive :=
          marked + Z.of_nat (length (List.filter
            (fun p => (threshold <=? consecutiveInactiveDays p + 1) && isActive p) l));
        playersStillActive :=
          still + Z.of_nat (length (List.filter
            (fun p => negb ((threshold <=? consecutiveInactiveDays p + 1) && isActive p)) l)) |},
   withPlayers (map (activityRow threshold l)) db).
Proof.
  revert marked still db. induction l as [|player rest IH]; intros marked still db.
  - simpl. unfold ret. rewrite !Z.add_0_r. f_equal.
    destruct db. unfold withPlayers. simpl. rewrite map_id. reflexivity.
  - simpl activityLoop. unfold bind at 1, incrementInactiveDays at 1, exec at 1.
    cbn [List.filter].
    destruct ((threshold <=? consecutiveInactiveDays player + 1) && isActive player) eqn:Hc.
    + unfold bind at 1, markPlayerInactive at 1, exec at 1. rewrite IH.
      cbn [negb length]. f_equal.
      * do 2 f_equal; lia.
      * unfold updatePlayer. rewrite !withPlayers_withPlayers. unfold withPlayers. simpl.
        f_equal. rewrite !map_map. apply map_ext. intros row. rewrite Hc.
        destruct (Z.eqb_spec (id row) (id player)) as [Heq|Hne]; simpl.
        -- rewrite Heq, Z.eqb_refl. reflexivity.
        -- destruct (Z.eqb_spec (id row) (id player)); [contradiction | reflexivity].
    + rewrite IH. cbn [negb length]. f_equal.
      * do 2 f_equal; lia.
      * unfold updatePlayer. rewrite !withPlayers_withPlayers. unfold withPlayers. simpl.
        f_equal. rewrite !map_map. apply map_ext. intros row. rewrite Hc.
        destruct (Z.eqb_spec (id row) (id player)) as [Heq|Hne]; reflexivity.
Qed.

Lemma activityRow_keeps threshold l row :
  let row' := activityRow threshold l row in
  id row' = id row /\ discordId row' = discordId row /\ username row' = username row /\
  elo row' = elo row /\ totalGames row' = totalGames row /\
  totalWins row' = totalWins row /\ totalCrowns row' = totalCrowns row /\
  totalGuesses row' = totalGuesses row /\ lastPlayed row' = lastPlayed row /\
  (isActive row' = true -> isActive row = true) /\
  consecutiveInactiveDays row <= consecutiveInactiveDays row'.
Proof.
  revert row. induction l as [|player rest IH]; intros row; simpl.
  - repeat split; try tauto. lia.
  - match goal with
    | |- context [activityRow threshold rest ?r] => specialize (IH r)
    end.
    simpl in IH.
    destruct IH as (A1 & A2 & A3 & A4 & A5 & A6 & A7 & A8 & A9 & A10 & A11).
    rewrite A1, A2, A3, A4, A5, A6, A7, A8, A9.
    destruct (id row =? id player); simpl in *; repeat split; try tauto; try lia.
    intros H. apply A10 in H. destruct (_ && _); [discriminate | exact H].
Qed.

Lemma activityRow_other threshold l row :
  ~ In (id row) (map id l) -> activityRow threshold l row = row.
Proof.
  revert row. induction l as [|player rest IH]; intros row Hnot; simpl; [reflexivity|].
  simpl in Hnot.
  destruct (Z.eqb_spec (id row) (id player)) as [Heq|_];
    [exfalso; apply Hnot; left; congruence|].
  apply IH. tauto.
Qed.

Lemma activityRow_member threshold l row :
  NoDup (map id l) -> In row l -> activityRow threshold l row = missedDay threshold row.
Proof.
  revert row. induction l as [|player rest IH]; intros row Hnd Hin; [contradiction|].
  simpl in Hnd. apply NoDup_cons in Hnd. destruct Hnd as [Hfirst Hnd].
  simpl. destruct Hin as [->|Hin].
  - rewrite Z.eqb_refl. rewrite activityRow_other.
    + unfold missedDay. f_equal.
      destruct (threshold <=? consecutiveInactiveDays row + 1), (isActive row); reflexivity.
    + simpl. intros Hin. apply Hfirst. apply list_elem_of_In. exact Hin.
  - destruct (Z.eqb_spec (id row) (id player)) as [Heq|_].
    + exfalso. apply Hfirst. rewrite <- Heq. apply list_elem_of_In, in_map. exact Hin.
    + apply IH; assumption.
Qed.

(** X23: [updatePlayerActivity] always returns; its two counters split the
    players without a game for the date; it writes to [players] only, and
    there it leaves the rows of the players with a game as they are, changes
    nobody's identity, rating or game counters, and reactivates nobody. *)
Theorem activity_update_spares_who_played date0 threshold db :
  exists res db',
    updatePlayerActivity date0 threshold db = (Returns res, db') /\
    playersMarkedInactive res + playersStillActive res
      = Z.of_nat (length (getPlayersWhoDidntPlay date0 db)) /\
    games db' = games db /\ elo_history db' = elo_history db /\
    daily_summaries db' = daily_summaries db /\
    length (players db') = length (players db) /\
    forall (i : nat) row, players db !! i = Some row ->
      exists row', players db' !! i = Some row' /\
        id row' = id row /\ discordId row' = discordId row /\
        username row' = username row /\ elo row' = elo row /\
        totalGames row' = totalGames row /\ totalWins row' = totalWins row /\
        totalCrowns row' = totalCrowns row /\ totalGuesses row' = totalGuesses row /\
        lastPlayed row' = lastPlayed row /\
        (isActive row' = true -> isActive row = true) /\
        (hasGameRecord (id row) date0 db = true -> row' = row).
Proof.
  unfold updatePlayerActivity, bind, query. rewrite activityLoop_spec.
  do 2 eexists. split; [reflexivity|]. simpl.
  split.
  { induction (getPlayersWhoDidntPlay date0 db) as [|p l IH]; simpl; [reflexivity|].
    destruct (_ && _); simpl length; lia. }
  do 3 (split; [reflexivity|]). split; [apply length_map|].
  intros i row Hi.
  exists (activityRow threshold (getPlayersWhoDidntPlay date0 db) row). split.
  { change (map ?f (players db)) with (f <$> players db).
    rewrite list_lookup_fmap, Hi. reflexivity. }
  pose proof (activityRow_keeps threshold (getPlayersWhoDidntPlay date0 db) row) as Hk.
  simpl in Hk. destruct Hk as (A1 & A2 & A3 & A4 & A5 & A6 & A7 & A8 & A9 & A10 & _).
  do 10 (split; [assumption|]).
  intros Hplayed. apply activityRow_other. intros Hin.
  apply in_map_iff in Hin. destruct Hin as (p & Hid & Hp).
  unfold getPlayersWhoDidntPlay in Hp. apply filter_In in Hp. destruct Hp as [_ Hp].
  rewrite Hid, Hplayed in Hp. discriminate.
Qed.

(** X24: when the player ids are distinct, every player without a game for
    the date gets exactly one more inactive day, and is inactive afterwards
    exactly if the player was inactive before or has reached the
    threshold. *)
Theorem activity_update_counts_missed_day date0 threshold db (i : nat) row :
  NoDup (map id (players db)) ->
  players db !! i = Some row ->
  hasGameRecord (id row) date0 db = false ->
  players (snd (updatePlayerActivity date0 threshold db)) !! i
    = Some (missedDay threshold row).
Proof.
  intros Hnd Hi Hmissed.
  unfold updatePlayerActivity, bind, query. rewrite activityLoop_spec. simpl.
  change (map ?f (players db)) with (f <$> players db).
  rewrite list_lookup_fmap, Hi. simpl. f_equal.
  apply activityRow_member.
  - unfold getPlayersWhoDidntPlay. apply NoDup_filter_map. exact Hnd.
  - unfold getPlayersWhoDidntPlay. apply filter_In. split.
    + apply list_elem_of_In, list_elem_of_lookup. eauto.
    + rewrite Hmissed. reflexivity.
Qed.

Lemma activity_update_counts_missed_day_witness :
  players (snd (updatePlayerActivity (lit "2024-03-10") 3 recordedDb)) !! 0%nat
    = Some (missedDay 3 samplePlayer).
Proof.
  apply (activity_update_counts_missed_day (lit "2024-03-10") 3 recordedDb 0 samplePlayer).
  - apply (bool_decide_unpack _). vm_compute. exact I.
  - reflexivity.
  - vm_compute. reflexivity.
Defined.

Lemma updatePlayerActivity_wellFormed date0 threshold db :
  wellFormed db -> wellFormed (snd (updatePlayerActivity date0 threshold db)).
Proof.
  intros [Hids Hseq Hdisc Hgames Hown Hsum].
  unfold updatePlayerActivity, bind, query. rewrite activityLoop_spec. simpl.
  set (f := activityRow threshold (getPlayersWhoDidntPlay date0 db)).
  assert (Hid : map id (map f (players db)) = map id (players db)).
  { rewrite map_map. apply map_ext. intros p. apply (activityRow_keeps threshold _ p). }
  assert (Hd : map discordId (map f (players db)) = map discordId (players db)).
  { rewrite map_map. apply map_ext. intros p. apply (activityRow_keeps threshold _ p). }
  constructor; simpl; try assumption.
  - rewrite Hid. exact Hids.
  - apply Forall_forall. intros q Hq. apply list_elem_of_In, in_map_iff in Hq.
    destruct Hq as (p & <- & Hp).
    rewrite Forall_forall in Hseq. apply list_elem_of_In, Hseq in Hp.
    destruct (activityRow_keeps threshold (getPlayersWhoDidntPlay date0 db) p) as [Hq _].
    fold f in Hq. rewrite Hq. exact Hp.
  - rewrite Hd. exact Hdisc.
Qed.

End Activity.

(** ** The handler *)

Section Handler.
Import Js Repo Pipeline.
Import Elo (EloConfig, defaultRating, Participant, playerId, currentElo, guessCount,
            calculatePairwiseElo).
Local Open Scope Z_scope.

(** The database after the activity update and the summary of a processed
    day. *)
Lemma processAndSummarise_cases config daily reply db :
  processAndSummarise config daily reply db =
  match processDailyResults (results daily) (gameDate daily) (config_elo config)
          (wordleNumber daily) db with
  | (Throws e, db1) => (Throws e, db1)
  | (Returns [], db1) => (Returns NoCalculations, db1)
  | (Returns (r :: out), db1) =>
      let db2 := snd (updatePlayerActivity (gameDate daily) (inactivityThreshold config) db1) in
      (match reply with
       | Returns _ => Returns (Processed (length (r :: out)))
       | Throws e => Throws e
       end,
       snd (saveDailySummary (gameDate daily) (Z.of_nat (length (r :: out)))
              (id <$> head (getHighestEloPlayers db2))
              (id <$> head (getLowestEloPlayers db2))
              (wordleNumber daily) db2))
  end.
Proof.
  unfold processAndSummarise, updatePlayerActivity, outside, bind, query.
  destruct (processDailyResults _ _ _ _ db) as [[[|r out]|e] db1]; try reflexivity.
  rewrite activityLoop_spec. destruct reply; reflexivity.
Qed.

Lemma applyChanges_summaries pm ec date0 wn ps acc db out db' :
  applyChanges ps pm ec date0 wn acc db = (out, db') ->
  daily_summaries db' = daily_summaries db.
Proof.
  revert acc db. induction ps as [|p ps IH]; intros acc db; simpl.
  - unfold ret. intros [= _ <-]. reflexivity.
  - destruct (pm !! playerId p) as [pd|]; [|unfold raise; intros [= _ <-]; reflexivity].
    unfold bind at 1, updatePlayerAfterGame at 1, exec at 1.
    unfold bind at 1, recordGame at 1.
    destruct (hasGameRecord _ _ _); [intros [= _ <-]; reflexivity|].
    unfold bind at 1, recordEloHistory at 1, exec at 1.
    intros Hrun. apply IH in Hrun. exact Hrun.
Qed.

Lemma processDailyResults_summaries config date0 wn rs db out db' :
  processDailyResults rs date0 config wn db = (out, db') ->
  daily_summaries db' = daily_summaries db.
Proof.
  unfold processDailyResults, bind.
  destruct (collectParticipants rs date0 config [] ∅ db) as [o db1] eqn:Hcollect.
  apply collectParticipants_spec in Hcollect.
  destruct Hcollect as (new & pm & -> & (_ & _ & _ & _ & _ & _ & _ & Hsum) & _).
  simpl. destruct new as [|p new].
  - unfold ret. intros [= _ <-]. exact Hsum.
  - intros Hrun. apply applyChanges_summaries in Hrun. congruence.
Qed.

Lemma processDailyResults_games config date0 wn rs db out db' :
  processDailyResults rs date0 config wn db = (Returns out, db') ->
  exists newGames,
    games db' = games db ++ newGames /\ Forall2 (gameOf date0) out newGames.
Proof.
  unfold processDailyResults, bind.
  destruct (collectParticipants rs date0 config [] ∅ db) as [o db1] eqn:Hcollect.
  apply collectParticipants_spec in Hcollect.
  destruct Hcollect as (new & pm & -> & (_ & _ & _ & _ & _ & Hgames & _) & _).
  simpl. destruct new as [|p new].
  - unfold ret. intros [= <- <-]. exists []. rewrite app_nil_r. split; [exact Hgames | constructor].
  - intros Hrun. apply applyChanges_spec in Hrun.
    destruct Hrun as (newRs & newGames & -> & _ & Hg & Hgs). simpl.
    exists newGames. split; [congruence | exact Hgs].
Qed.

Lemma saveDailySummary_processed date0 count highest lowest wn db :
  isDailyResultsProcessed date0 (snd (saveDailySummary date0 count highest lowest wn db))
  = true.
Proof.
  unfold isDailyResultsProcessed, saveDailySummary, exec. simpl.
  rewrite existsb_app. simpl. rewrite sameString_refl. apply orb_true_r.
Qed.

(** What a run that ends in [Processed] has done. *)
Lemma onMessageCreate_processed clientUserId config tz message guild reply db n db' :
  onMessageCreate clientUserId config tz message guild reply db = (Processed n, db') ->
  exists daily r out db1,
    Some (Parser.authorId message) <> clientUserId /\
    Parser.authorId message = wordleBotId config /\
    parseAndResolveWordleMessage tz message guild = Returns (Some daily) /\
    isDailyResultsProcessed (gameDate daily) db = false /\
    processDailyResults (results daily) (gameDate daily) (config_elo config)
      (wordleNumber daily) db = (Returns (r :: out), db1) /\
    n = length (r :: out) /\
    let db2 := snd (updatePlayerActivity (gameDate daily) (inactivityThreshold config) db1) in
    db' = snd (saveDailySummary (gameDate daily) (Z.of_nat n)
                 (id <$> head (getHighestEloPlayers db2))
                 (id <$> head (getLowestEloPlayers db2))
                 (wordleNumber daily) db2).
Proof.
  unfold onMessageCreate.
  destruct (bool_decide _) eqn:Hself; [discriminate|].
  apply bool_decide_eq_false in Hself.
  destruct (sameString _ _) eqn:Hbot; simpl; [|discriminate].
  apply sameString_true in Hbot.
  destruct (parseAndResolveWordleMessage tz message guild) as [[daily|]|e] eqn:Hparse;
    try discriminate.
  destruct (isDailyResultsProcessed (gameDate daily) db) eqn:Hdone; [discriminate|].
  rewrite processAndSummarise_cases.
  destruct (processDailyResults _ _ _ _ db) as [[[|r out]|e] db1] eqn:Hrun; try discriminate.
  cbv zeta. destruct reply as [[]|e]; [|discriminate]. intros [= <- <-].
  exists daily, r, out, db1. repeat split; assumption.
Qed.

(** X25: a run of the handler that ends in [Processed] closes the day: the
    same announcement, handled again on the database that the run has
    left, is skipped and writes nothing. *)
Theorem processed_announcement_is_skipped_next_time
    clientUserId config tz message guild reply reply' db n db' :
  onMessageCreate clientUserId config tz message guild reply db = (Processed n, db') ->
  onMessageCreate clientUserId config tz message guild reply' db' = (Skipped, db').
Proof.
  intros Hrun. apply onMessageCreate_processed in Hrun.
  destruct Hrun as (daily & r & out & db1 & Hself & Hbot & Hparse & _ & _ & _ & Hdb').
  cbv zeta in Hdb'. unfold onMessageCreate.
  rewrite bool_decide_eq_false_2 by exact Hself.
  rewrite (proj2 (sameString_true _ _) Hbot), Hparse. simpl.
  rewrite Hdb', saveDailySummary_processed. reflexivity.
Qed.

Lemma handled_as (run : Handled * Database) (h : Handled) :
  fst run = h -> run = (h, snd run).
Proof. intros <-. apply surjective_pairing. Qed.

Lemma processed_announcement_is_skipped_next_time_witness :
  let run := onMessageCreate (Some (lit "999")) sampleConfig JsDate.utc sampleMessage
               (Some sampleGuild) (Returns tt) recordedDb in
  onMessageCreate (Some (lit "999")) sampleConfig JsDate.utc sampleMessage
    (Some sampleGuild) (Returns tt) (snd run) = (Skipped, snd run).
Proof.
  intros run.
  apply (processed_announcement_is_skipped_next_time (Some (lit "999")) sampleConfig
           JsDate.utc sampleMessage (Some sampleGuild) (Returns tt) (Returns tt)
           recordedDb 3).
  apply handled_as. subst run. sample_run.
Defined.

(** X26: the participant count of the summary that a processed run saves is
    the number of calculations, which is the number of game rows that the
    run has added, all of them for the game date. *)
Theorem processed_run_counts_its_games clientUserId config tz message guild reply db n db' :
  onMessageCreate clientUserId config tz message guild reply db = (Processed n, db') ->
  exists daily newGames,
    parseAndResolveWordleMessage tz message guild = Returns (Some daily) /\
    (0 < n)%nat /\
    games db' = games db ++ newGames /\
    length newGames = n /\
    Forall (fun g => game_gameDate g = gameDate daily) newGames /\
    getParticipantCountForDate (gameDate daily) db'
      = getParticipantCountForDate (gameDate daily) db + Z.of_nat n /\
    exists summary,
      List.filter (fun r => sameString (sum_gameDate r) (gameDate daily))
        (daily_summaries db') = [summary] /\
      sum_participantsCount summary = Z.of_nat n.
Proof.
  intros Hrun. apply onMessageCreate_processed in Hrun.
  destruct Hrun as (daily & r & out & db1 & _ & _ & Hparse & _ & Hround & -> & Hdb').
  cbv zeta in Hdb'.
  apply processDailyResults_games in Hround. destruct Hround as (newGames & Hgames & Hgs).
  assert (Hgames' : games db' = games db ++ newGames).
  { rewrite Hdb'. unfold saveDailySummary, exec, updatePlayerActivity, bind, query.
    rewrite activityLoop_spec. simpl. exact Hgames. }
  assert (Hdates : Forall (fun g => game_gameDate g = gameDate daily) newGames).
  { clear - Hgs. induction Hgs as [|o g l k (_ & Hd & _) _ IH]; constructor; assumption. }
  exists daily, newGames. split; [exact Hparse|]. split; [simpl; lia|].
  split; [exact Hgames'|]. split; [symmetry; apply (Forall2_length _ _ _ Hgs)|].
  split; [exact Hdates|]. split.
  - unfold getParticipantCountForDate. rewrite Hgames', List.filter_app, length_app.
    rewrite Nat2Z.inj_add. f_equal. f_equal.
    transitivity (length newGames); [|symmetry; apply (Forall2_length _ _ _ Hgs)].
    clear - Hdates. induction Hdates as [|g l Hg _ IH]; simpl; [reflexivity|].
    rewrite Hg, sameString_refl. simpl. rewrite IH. reflexivity.
  - eexists. rewrite Hdb'. unfold saveDailySummary, exec. simpl.
    rewrite List.filter_app. simpl. rewrite sameString_refl.
    rewrite (filter_filter_neg (fun r => sameString (sum_gameDate r) (gameDate daily))).
    split; reflexivity.
Qed.

Lemma processed_run_counts_its_games_witness :
  let run := onMessageCreate (Some (lit "999")) sampleConfig JsDate.utc sampleMessage
               (Some sampleGuild) (Returns tt) recordedDb in
  exists daily newGames,
    parseAndResolveWordleMessage JsDate.utc sampleMessage (Some sampleGuild)
      = Returns (Some daily) /\
    (0 < 3)%nat /\
    games (snd run) = games recordedDb ++ newGames /\
    length newGames = 3%nat /\
    Forall (fun g => game_gameDate g = gameDate daily) newGames /\
    getParticipantCountForDate (gameDate daily) (snd run)
      = getParticipantCountForDate (gameDate daily) recordedDb + Z.of_nat 3 /\
    exists summary,
      List.filter (fun r => sameString (sum_gameDate r) (gameDate daily))
        (daily_summaries (snd run)) = [summary] /\
      sum_participantsCount summary = Z.of_nat 3.
Proof.
  intros run.
  apply (processed_run_counts_its_games (Some (lit "999")) sampleConfig
           JsDate.utc sampleMessage (Some sampleGuild) (Returns tt) recordedDb 3).
  apply handled_as. subst run. sample_run.
Defined.

(** X27: a run of the handler that does not end in [Processed] has written
    no daily summary, so the day stays open, with one exception: when the
    reply to the announcement is what throws, the run ends in the [catch]
    after [saveDailySummary], and its database is that of the run in which
    the reply succeeds: the day is closed although the run has failed.  The
    runs that end in an error after part of the round has been written
    leave the day open. *)
Theorem unprocessed_run_leaves_day_open
    clientUserId config tz message guild reply db handled db' :
  onMessageCreate clientUserId config tz message guild reply db = (handled, db') ->
  (forall n, handled <> Processed n) ->
  daily_summaries db' = daily_summaries db \/
  exists e n,
    reply = Throws e /\ handled = Failed e /\
    onMessageCreate clientUserId config tz message guild (Returns tt) db
      = (Processed n, db').
Proof.
  unfold onMessageCreate. intros Hrun Hnot. revert Hrun.
  destruct (bool_decide _); [intros [= _ <-]; left; reflexivity|].
  destruct (negb _); [intros [= _ <-]; left; reflexivity|].
  destruct (parseAndResolveWordleMessage tz message guild) as [[daily|]|e];
    try (intros [= _ <-]; left; reflexivity).
  destruct (isDailyResultsProcessed _ db); [intros [= _ <-]; left; reflexivity|].
  rewrite !processAndSummarise_cases.
  destruct (processDailyResults _ _ _ _ db) as [[[|r out]|e] db1] eqn:Hround.
  - intros [= _ <-]. left. apply (processDailyResults_summaries _ _ _ _ _ _ _ Hround).
  - cbv zeta. destruct reply as [[]|e].
    + intros [= <- _]. exfalso. apply (Hnot (length (r :: out))). reflexivity.
    + intros [= <- <-]. right. exists e, (length (r :: out)). repeat split.
  - intros [= _ <-]. left. apply (processDailyResults_summaries _ _ _ _ _ _ _ Hround).
Qed.

Lemma unprocessed_run_leaves_day_open_witness :
  let run := onMessageCreate (Some (lit "999")) sampleConfig JsDate.utc sampleMessage
               (Some sampleGuild) (Throws "DiscordAPIError") recordedDb in
  daily_summaries (snd run) = daily_summaries recordedDb \/
  exists e n,
    @Throws unit "DiscordAPIError" = Throws e /\ Failed "DiscordAPIError" = Failed e /\
    onMessageCreate (Some (lit "999")) sampleConfig JsDate.utc sampleMessage
      (Some sampleGuild) (Returns tt) recordedDb = (Processed n, snd run).
Proof.
  intros run.
  apply (unprocessed_run_leaves_day_open (Some (lit "999")) sampleConfig JsDate.utc
           sampleMessage (Some sampleGuild) (Throws "DiscordAPIError") recordedDb
           (Failed "DiscordAPIError") (snd run)).
  - apply handled_as. subst run. sample_run.
  - intros n. discriminate.
Defined.

(** X28: the handler keeps the constraints of the schema, whatever the
    message and however the run ends. *)
Theorem handler_keeps_schema clientUserId config tz message guild reply db :
  wellFormed db ->
  wellFormed (snd (onMessageCreate clientUserId config tz message guild reply db)).
Proof.
  intros Hwf. unfold onMessageCreate.
  destruct (bool_decide _); [exact Hwf|].
  destruct (negb _); [exact Hwf|].
  destruct (parseAndResolveWordleMessage tz message guild) as [[daily|]|e]; try exact Hwf.
  destruct (isDailyResultsProcessed _ db); [exact Hwf|].
  rewrite processAndSummarise_cases.
  destruct (processDailyResults _ _ _ _ db) as [o db1] eqn:Hround.
  apply processDailyResults_any in Hround; [|exact Hwf].
  destruct Hround as (Hwf1 & _).
  destruct o as [[|r out]|e]; try exact Hwf1.
  cbv zeta.
  assert (Hwf2 : wellFormed
    (snd (saveDailySummary (gameDate daily) (Z.of_nat (length (r :: out)))
            (id <$> head (getHighestEloPlayers
               (snd (updatePlayerActivity (gameDate daily) (inactivityThreshold config) db1))))
            (id <$> head (getLowestEloPlayers
               (snd (updatePlayerActivity (gameDate daily) (inactivityThreshold config) db1))))
            (wordleNumber daily)
            (snd (updatePlayerActivity (gameDate daily) (inactivityThreshold config) db1)))))
    by (apply saveDailySummary_wellFormed, updatePlayerActivity_wellFormed; exact Hwf1).
  destruct reply; exact Hwf2.
Qed.

Lemma handler_keeps_schema_witness :
  wellFormed (snd (onMessageCreate (Some (lit "999")) sampleConfig JsDate.utc sampleMessage
                     (Some sampleGuild) (Returns tt) recordedDb)).
Proof.
  apply (handler_keeps_schema (Some (lit "999")) sampleConfig JsDate.utc sampleMessage
           (Some sampleGuild) (Returns tt) recordedDb).
  schema_holds.
Defined.

End Handler.

(** ** Crowns *)

Section Crowns.
Import Js Repo Pipeline.
Import Elo (EloConfig, defaultRating, Participant, playerId, currentElo, guessCount,
            calculatePairwiseElo).
Local Open Scope Z_scope.

Lemma crowns_updatePlayer pid set db :
  (forall p, totalCrowns (set p) = totalCrowns p) ->
  map totalCrowns (players (updatePlayer pid set db)) = map totalCrowns (players db).
Proof.
  intros Hset. unfold updatePlayer, withPlayers. simpl. rewrite map_map.
  apply map_ext. intros p. destruct (id p =? pid); [apply Hset | reflexivity].
Qed.

Lemma crowns_getOrCreatePlayer data defaultElo db out db' :
  getOrCreatePlayer data defaultElo db = (out, db') ->
  exists k, map totalCrowns (players db')
            = map totalCrowns (players db) ++ replicate k 0.
Proof.
  unfold getOrCreatePlayer.
  destruct (getPlayerByDiscordId (new_discordId data) db) as [existing|].
  - destruct (negb _).
    + unfold bind, updatePlayerUsername, exec, ret. intros [= _ <-]. exists 0%nat.
      rewrite crowns_updatePlayer by reflexivity. simpl. rewrite app_nil_r. reflexivity.
    + intros [= _ <-]. exists 0%nat. simpl. rewrite app_nil_r. reflexivity.
  - unfold createPlayer.
    destruct (getPlayerByDiscordId (new_discordId data) db).
    + intros [= _ <-]. exists 0%nat. simpl. rewrite app_nil_r. reflexivity.
    + intros [= _ <-]. exists 1%nat. simpl. rewrite map_app. reflexivity.
Qed.

Lemma crowns_collectParticipants config date0 rs ps pm db out db' :
  Forall (fun r => res_hasCrown r = false) rs ->
  map_Forall (fun _ data => data_hasCrown data = false) pm ->
  collectParticipants rs date0 config ps pm db = (out, db') ->
  (exists k, map totalCrowns (players db')
             = map totalCrowns (players db) ++ replicate k 0) /\
  forall ps' pm', out = Returns (ps', pm') ->
    map_Forall (fun _ data => data_hasCrown data = false) pm'.
Proof.
  revert ps pm db. induction rs as [|r rs IH]; intros ps pm db Hrs Hpm; simpl.
  - unfold ret. intros [= <- <-]. split.
    + exists 0%nat. simpl. rewrite app_nil_r. reflexivity.
    + intros ps' pm' [= _ <-]. exact Hpm.
  - apply Forall_cons in Hrs. destruct Hrs as [Hr Hrs].
    unfold bind at 1.
    destruct (getOrCreatePlayer _ _ db) as [o db1] eqn:Hget.
    pose proof (crowns_getOrCreatePlayer _ _ _ _ _ Hget) as [k1 Hk1].
    apply (getOrCreatePlayer_spec config) in Hget. destruct Hget as (player & -> & _).
    unfold bind at 1, query at 1.
    assert (Hjoin : forall db2 (P : Prop),
      (exists k, map totalCrowns (players db2)
                 = map totalCrowns (players db1) ++ replicate k 0) /\ P ->
      (exists k, map totalCrowns (players db2)
                 = map totalCrowns (players db) ++ replicate k 0) /\ P).
    { intros db2 P [[k2 Hk2] HP]. split; [|exact HP]. exists (k1 + k2)%nat.
      rewrite Hk2, Hk1, <- app_assoc, replicate_add. reflexivity. }
    destruct (hasGameRecord (id player) date0 db1); intros Hrun; apply Hjoin.
    + eapply IH; eassumption.
    + eapply IH; [exact Hrs | | exact Hrun].
      apply map_Forall_insert_2; [exact Hr | exact Hpm].
Qed.

Lemma crowns_applyChanges pm ec date0 wn ps acc db out db' :
  map_Forall (fun _ data => data_hasCrown data = false) pm ->
  applyChanges ps pm ec date0 wn acc db = (out, db') ->
  map totalCrowns (players db') = map totalCrowns (players db).
Proof.
  intros Hpm. revert acc db. induction ps as [|p ps IH]; intros acc db; simpl.
  - unfold ret. intros [= _ <-]. reflexivity.
  - destruct (pm !! playerId p) as [pd|] eqn:Hpd;
      [|unfold raise; intros [= _ <-]; reflexivity].
    pose proof (Hpm _ _ Hpd) as Hcrown. simpl in Hcrown.
    unfold bind at 1, updatePlayerAfterGame at 1, exec at 1.
    set (db1 := updatePlayer (playerId p) _ db).
    assert (H1 : map totalCrowns (players db1) = map totalCrowns (players db)).
    { apply crowns_updatePlayer. intros q. simpl. rewrite Hcrown. lia. }
    unfold bind at 1, recordGame at 1.
    destruct (hasGameRecord _ _ db1); [intros [= _ <-]; exact H1|].
    unfold bind at 1, recordEloHistory at 1, exec at 1.
    intros Hrun. apply IH in Hrun. rewrite Hrun. exact H1.
Qed.

Lemma crowns_processDailyResults config date0 wn rs db out db' :
  Forall (fun r => res_hasCrown r = false) rs ->
  processDailyResults rs date0 config wn db = (out, db') ->
  exists k, map totalCrowns (players db')
            = map totalCrowns (players db) ++ replicate k 0.
Proof.
  intros Hrs. unfold processDailyResults, bind.
  destruct (collectParticipants rs date0 config [] ∅ db) as [o db1] eqn:Hcollect.
  pose proof Hcollect as Hspec. apply collectParticipants_spec in Hspec.
  destruct Hspec as (new & pm & -> & _).
  apply crowns_collectParticipants in Hcollect; [|exact Hrs | apply map_Forall_empty].
  destruct Hcollect as [[k Hk] Hpm]. specialize (Hpm _ _ eq_refl).
  simpl. destruct new as [|p new].
  - unfold ret. intros [= _ <-]. eauto.
  - intros Hrun. apply (crowns_applyChanges _ _ _ _ _ _ _ _ _ Hpm) in Hrun.
    exists k. congruence.
Qed.

Lemma resolveUsernames_no_crown rs guild :
  Forall (fun r => res_hasCrown r = false) (resolveUsernames rs guild).
Proof.
  unfold resolveUsernames. destruct guild as [g|]; [|constructor].
  destruct (fetchMembers g); [|constructor].
  apply Forall_forall. intros r Hr. apply list_elem_of_In, in_concat in Hr.
  destruct Hr as (l & Hl & Hr). apply in_map_iff in Hl. destruct Hl as (u & <- & _).
  revert Hr. unfold resolveOne.
  destruct (Parser.u_discordId u) as [[|c cs]|].
  - destruct (Parser.u_username u) as [|c0 name]; [intros []|].
    destruct (findMember g _); [intros [<-|[]]; reflexivity | intros []].
  - destruct (fetchMember g _); [intros [<-|[]]; reflexivity | intros []].
  - destruct (Parser.u_username u) as [|c0 name]; [intros []|].
    destruct (findMember g _); [intros [<-|[]]; reflexivity | intros []].
Qed.

(** X11: the handler never counts a crown: whatever the announcement, the
    crown counter of every player is what it was, and a player that the
    run creates has none.  ([resolveUsernames] builds its results without
    [hasCrown].) *)
Theorem crowns_are_never_counted clientUserId config tz message guild reply db :
  exists k,
    map totalCrowns
      (players (snd (onMessageCreate clientUserId config tz message guild reply db)))
    = map totalCrowns (players db) ++ replicate k 0.
Proof.
  assert (Hsame : exists k, map totalCrowns (players db)
                            = map totalCrowns (players db) ++ replicate k 0)
    by (exists 0%nat; simpl; rewrite app_nil_r; reflexivity).
  unfold onMessageCreate.
  destruct (bool_decide _); [exact Hsame|].
  destruct (negb _); [exact Hsame|].
  destruct (parseAndResolveWordleMessage tz message guild) as [[daily|]|e] eqn:Hparse;
    try exact Hsame.
  destruct (isDailyResultsProcessed _ db); [exact Hsame|].
  assert (Hresults : Forall (fun r => res_hasCrown r = false) (results daily)).
  { revert Hparse. unfold parseAndResolveWordleMessage.
    destruct (Parser.parseWordleMessage tz message) as [[parsed|]|]; try discriminate.
    pose proof (resolveUsernames_no_crown (Parser.u_results parsed) guild) as Hall.
    destruct (resolveUsernames _ _) as [|r rs]; [discriminate|].
    intros [= <-]. exact Hall. }
  rewrite processAndSummarise_cases.
  destruct (processDailyResults _ _ _ _ db) as [o db1] eqn:Hround.
  apply crowns_processDailyResults in Hround; [|exact Hresults].
  destruct o as [[|r out]|e]; try exact Hround.
  cbv zeta. destruct Hround as [k Hk]. exists k.
  destruct reply; simpl;
    unfold updatePlayerActivity, bind, query; rewrite activityLoop_spec; simpl;
    rewrite <- Hk, map_map; apply map_ext; intros p;
    apply (activityRow_keeps (inactivityThreshold config) _ p).
Qed.

End Crowns.

(** ** Simulating a round *)

Section Simulation.
Import Js Repo Pipeline.
Import Elo (EloConfig, defaultRating, Participant, playerId, currentElo, guessCount,
            calculatePairwiseElo, simulateEloCalculation, sim_playerId, sim_currentElo,
            sim_newElo, sim_change).
Local Open Scope Z_scope.

(** X8: a round that returns has computed what [simulateEloCalculation]
    predicts for the participants that its first loop collects: the same
    players in the same order, with the same previous rating, change and
    new rating. *)
Theorem simulation_predicts_the_round config date0 wn rs db ps pm db1 out db' :
  collectParticipants rs date0 config [] ∅ db = (Returns (ps, pm), db1) ->
  processDailyResults rs date0 config wn db = (Returns out, db') ->
  map (fun o => (calc_playerId o, previousElo o, eloChange o, newElo o)) out =
  map (fun s => (sim_playerId s, sim_currentElo s, sim_change s, sim_newElo s))
      (simulateEloCalculation ps config).
Proof.
  intros Hcollect. unfold processDailyResults, bind. rewrite Hcollect.
  unfold simulateEloCalculation. rewrite map_map.
  destruct ps as [|p ps].
  - unfold ret. intros [= <- _]. reflexivity.
  - intros Hrun. apply applyChanges_spec in Hrun.
    destruct Hrun as (newRs & newGames & -> & Hrs & _). rewrite app_nil_l.
    revert Hrs. generalize (calculatePairwiseElo (p :: ps) config) as ec.
    generalize (p :: ps) as l. clear. intros l ec Hrs.
    induction Hrs as [|q r l rs (Hid & Hprev & Hch & Hnew) _ IH]; simpl; [reflexivity|].
    rewrite IH, Hnew, Hprev, Hch, Hid. reflexivity.
Qed.

Lemma simulation_predicts_the_round_witness :
  let run := processDailyResults nextDay (lit "2024-03-10") Elo.config32 None recordedDb in
  map (fun o => (calc_playerId o, previousElo o, eloChange o, newElo o))
      (match fst run with Returns out => out | Throws _ => [] end) =
  map (fun s => (sim_playerId s, sim_currentElo s, sim_change s, sim_newElo s))
      (simulateEloCalculation
         [ {| playerId := 1; currentElo := 1010; guessCount := 2 |};
           {| playerId := 2; currentElo := 1000; guessCount := 4 |} ]
         Elo.config32).
Proof.
  intros run.
  apply (simulation_predicts_the_round Elo.config32 (lit "2024-03-10") None nextDay recordedDb
           _ (snd (match fst (collectParticipants nextDay (lit "2024-03-10") Elo.config32 [] ∅
                                recordedDb) with
                   | Returns c => c | Throws _ => ([], ∅) end))
           (snd (collectParticipants nextDay (lit "2024-03-10") Elo.config32 [] ∅ recordedDb))
           _ (snd run)).
  - vm_compute. reflexivity.
  - subst run. unfold processDailyResults, bind.
    set (collected := collectParticipants _ _ _ _ _ _).
    vm_compute in collected. subst collected. cbv beta iota.
    generalize (calculatePairwiseElo
                  [ {| playerId := 1; currentElo := 1010; guessCount := 2 |};
                    {| playerId := 2; currentElo := 1000; guessCount := 4 |} ]
                  Elo.config32).
    intros eloChanges. vm_compute. reflexivity.
Defined.

End Simulation.

(** ** The parsed results *)

Section ParsedResults.
Import Js Parser.

Lemma guessCountOf_range c : isGuessChar c = true -> (1 <= guessCountOf c <= 7)%Z.
Proof.
  intros Hc. destruct (eqChar_i 120 c) eqn:Hx.
  - unfold guessCountOf. rewrite Hx. lia.
  - pose proof (guessCountOf_numeric c Hc Hx). lia.
Qed.

Lemma extractPlayers_shape section player :
  In player (extractPlayers section) ->
  (exists ds, ref_discordId player = Some ds /\ ds <> [] /\
              forallb isDigit ds = true /\ ref_username player = []) \/
  (ref_discordId player = None /\ ref_username player <> [] /\
   forallb isWord (ref_username player) = true).
Proof.
  unfold extractPlayers. rewrite in_app_iff, !in_map_iff.
  intros [(m & <- & Hm)|(u & <- & Hu)].
  - left. unfold mentionsOf in Hm. apply execAll_sound in Hm.
    destruct Hm as (k & len & _ & Hmatch & _).
    apply matchMention_shape in Hmatch. destruct Hmatch as (bang & rest & _ & _ & Hne & Hds).
    exists (m_group m). simpl. tauto.
  - right. apply filter_In in Hu. destruct Hu as [Hu _].
    unfold usernamesOf in Hu. apply execAll_sound in Hu.
    destruct Hu as (k & len & _ & Hmatch & _).
    apply matchUsername_shape in Hmatch. destruct Hmatch as (rest & _ & _ & Hne & Hws).
    simpl. tauto.
Qed.

(** X9: every result that [parseResultRows] returns has a guess count from
    1 to 7, and is either a mention, with a non-empty id of digits and no
    user name, or a plain name, with a non-empty name of word characters
    and no id. *)
Theorem parsed_results_are_well_formed content r :
  In r (parseResultRows content) ->
  (1 <= u_guessCount r <= 7)%Z /\
  ((exists ds, u_discordId r = Some ds /\ ds <> [] /\
               forallb isDigit ds = true /\ u_username r = []) \/
   (u_discordId r = None /\ u_username r <> [] /\
    forallb isWord (u_username r) = true)).
Proof.
  unfold parseResultRows. rewrite in_concat.
  intros (rows & Hrows & Hr). apply in_map_iff in Hrows.
  destruct Hrows as (line & <- & _). revert Hr. unfold parseLine.
  destruct (trim line) as [|c0 t] eqn:Htrim; [intros []|].
  destruct (anywhere matchStreakLine (c0 :: t)); [intros []|].
  destruct (negb _); [intros []|].
  destruct (parseResultRow (c0 :: t)) as [parsedRow|] eqn:Hrow; [|intros []].
  rewrite in_map_iff. intros (player & <- & Hplayer). simpl.
  revert Hrow. unfold parseResultRow.
  destruct (matchRow (c0 :: t)) as [[c section]|] eqn:Hmatch; [|discriminate].
  destruct (extractPlayers section) as [|p0 ps] eqn:Hplayers; [discriminate|].
  intros [= <-]. simpl in *. split.
  - apply guessCountOf_range. eapply matchRow_guessChar. exact Hmatch.
  - apply (extractPlayers_shape section). rewrite Hplayers. exact Hplayer.
Qed.

Lemma parsed_results_are_well_formed_witness :
  let r := {| u_discordId := Some (lit "123456789"); u_username := [];
              u_guessCount := 7 |} in
  (1 <= u_guessCount r <= 7)%Z /\
  ((exists ds, u_discordId r = Some ds /\ ds <> [] /\
               forallb isDigit ds = true /\ u_username r = []) \/
   (u_discordId r = None /\ u_username r <> [] /\
    forallb isWord (u_username r) = true)).
Proof.
  apply (parsed_results_are_well_formed Pipeline.sampleContent).
  vm_compute. do 3 right. left. reflexivity.
Defined.

(** *** The crown *)

Lemma isGuessChar_not_space c : isGuessChar c = true -> isSpace c = false.
Proof.
  unfold isGuessChar, eqChar_i. change (upper 120) with 88%N.
  unfold upper, inRange. intros H.
  assert (Hc : (c = 49 \/ c = 50 \/ c = 51 \/ c = 52 \/ c = 53 \/ c = 54 \/
                c = 120 \/ c = 88)%N).
  { apply orb_true_iff in H. destruct H as [H|H].
    - apply andb_true_iff in H. destruct H as [H1 H2]. apply N.leb_le in H1, H2. lia.
    - destruct ((97 <=? c)%N && (c <=? 122)%N) eqn:Hlow; apply N.eqb_eq in H.
      + apply andb_true_iff in Hlow. destruct Hlow as [H1 H2]. apply N.leb_le in H1, H2. lia.
      + lia. }
  clear H. repeat (destruct Hc as [->|Hc]; [reflexivity|]). subst c. reflexivity.
Qed.

Lemma dropWhile_spaces (ws rest : jsstring) c :
  forallb isSpace ws = true -> isSpace c = false ->
  dropWhile isSpace (ws ++ c :: rest) = c :: rest.
Proof.
  intros Hws Hc. induction ws as [|w ws IH]; simpl in *.
  - rewrite Hc. reflexivity.
  - apply andb_true_iff in Hws. destruct Hws as [Hw Hws]. rewrite Hw. apply IH. exact Hws.
Qed.

(** X10: the crown and the white space in front of a result row are
    matched and dropped: the row is parsed exactly as the row without
    them. *)
Theorem crown_is_dropped (ws rest : jsstring) (c : N) :
  forallb isSpace ws = true -> isGuessChar c = true ->
  parseResultRow ([55357%N; 56401%N] ++ ws ++ c :: rest) = parseResultRow (c :: rest).
Proof.
  intros Hws Hc. unfold parseResultRow, matchRow.
  assert (Hcrowned : afterCrown ([55357%N; 56401%N] ++ ws ++ c :: rest) = c :: rest).
  { simpl. apply dropWhile_spaces; [exact Hws | apply isGuessChar_not_space; exact Hc]. }
  assert (Hplain : afterCrown (c :: rest) = c :: rest).
  { unfold afterCrown. destruct rest as [|c1 rest]; [reflexivity|].
    destruct (N.eqb_spec c 55357) as [->|]; [discriminate Hc | reflexivity]. }
  rewrite Hcrowned, Hplain. reflexivity.
Qed.

Lemma crown_is_dropped_witness :
  parseResultRow ([55357%N; 56401%N] ++ [32%N] ++ 50%N :: lit "/6: @brollen")
  = parseResultRow (50%N :: lit "/6: @brollen").
Proof. apply (crown_is_dropped [32%N] (lit "/6: @brollen") 50%N); reflexivity. Defined.

End ParsedResults.

(** ** Dates, days back *)

Section Dates.
Import Js JsDate DateUtil.
Import Parser (Outcome, Returns, Throws).
Local Open Scope Z_scope.

(** *** Going back by whole days *)

Lemma setDate_back offset t days :
  setDate (fixedZone offset) t (getDate (fixedZone offset) t - days)
  = TimeClip (t - days * msPerDay).
Proof.
  unfold setDate, getDate, LocalTime, UTC, fixedZone. simpl.
  set (lt := t + offset). f_equal.
  unfold MakeDate, MakeDay, DateFromTime, MonthFromTime.
  pose proof (monthOfDay_range (DayWithinYear lt) (InLeapYear lt)) as Hm.
  set (m := monthOfDay (DayWithinYear lt) (InLeapYear lt)) in *.
  replace (m / 12) with 0 by (Z.div_mod_to_equations; lia).
  replace (m mod 12) with m by (Z.div_mod_to_equations; lia).
  rewrite Z.add_0_r. fold (InLeapYear lt).
  unfold DayWithinYear, TimeWithinDay, Day, msPerDay.
  Z.div_mod_to_equations; lia.
Qed.

Lemma civil_back (n : nat) t :
  civil (t - Z.of_nat n * msPerDay) = Nat.iter n previousDay (civil t).
Proof.
  induction n as [|n IH].
  - simpl. f_equal. lia.
  - rewrite Nat2Z.inj_succ. simpl Nat.iter. rewrite <- IH, <- civil_previous.
    f_equal. lia.
Qed.

(** X29: on a host whose zone keeps one offset, [getDaysAgo(n)] is the UTC
    calendar date of the current time, [n] days back. *)
Theorem getDaysAgo_in_fixed_zone offset now (n : nat) :
  Z.abs (now - Z.of_nat n * msPerDay) <= 8640000000000000 ->
  getDaysAgo (fixedZone offset) now (Z.of_nat n)
  = Returns (JsDate.formatDate (Nat.iter n previousDay (civil now))).
Proof.
  intros Hrange. unfold getDaysAgo. rewrite setDate_back.
  unfold TimeClip.
  destruct (Z.leb_spec (Z.abs (now - Z.of_nat n * msPerDay)) 8640000000000000); [|lia].
  unfold DateUtil.formatDate.
  destruct (toISOString_date (now - Z.of_nat n * msPerDay)) as [time ->].
  rewrite <- civil_back. reflexivity.
Qed.

Lemma getDaysAgo_in_fixed_zone_witness :
  getDaysAgo (fixedZone 0) 1709251200000 (Z.of_nat 1)
  = Returns (JsDate.formatDate (Nat.iter 1 previousDay (civil 1709251200000))).
Proof. apply (getDaysAgo_in_fixed_zone 0 1709251200000 1). vm_compute. discriminate. Defined.

End Dates.

(** ** Dates as strings *)

Section DateStrings.
Import Js JsDate DateUtil.
Import Parser (Outcome, Returns, Throws, validateFreshResults).
Import Pipeline (needsActivityUpdate).
Local Open Scope Z_scope.

(** *** Comparing strings of the same length *)

Lemma ltString_irrefl (a : jsstring) : ltString a a = false.
Proof.
  induction a as [|x a IH]; simpl; [reflexivity|].
  rewrite N.ltb_irrefl. exact IH.
Qed.

Lemma ltString_app (a a' b b' : jsstring) :
  length a = length a' ->
  ltString (a ++ b) (a' ++ b') =
  if bool_decide (a = a') then ltString b b' else ltString a a'.
Proof.
  revert a'. induction a as [|x a IH]; intros [|y a'] Hlen; simpl in Hlen; try lia.
  - reflexivity.
  - simpl. destruct (N.ltb_spec x y) as [Hxy|Hxy].
    + rewrite bool_decide_eq_false_2; [reflexivity|]. intros [= -> _]. lia.
    + destruct (N.ltb_spec y x) as [Hyx|Hyx].
      * rewrite bool_decide_eq_false_2; [reflexivity|]. intros [= -> _]. lia.
      * assert (x = y) by lia. subst y. rewrite IH by lia.
        destruct (decide (a = a')) as [->|Hne].
        -- rewrite !bool_decide_eq_true_2 by reflexivity. reflexivity.
        -- rewrite !bool_decide_eq_false_2; [reflexivity | congruence | exact Hne].
Qed.

Lemma digits_length width n : length (digits width n) = width.
Proof.
  revert n. induction width as [|width IH]; intros n; simpl; [reflexivity|].
  rewrite length_app, IH. simpl. lia.
Qed.

(** Numbers in [width] digits compare as their strings do. *)
Lemma digits_compare width m n :
  0 <= m < 10 ^ Z.of_nat width -> 0 <= n < 10 ^ Z.of_nat width ->
  (digits width m = digits width n <-> m = n) /\
  ltString (digits width m) (digits width n) = (m <? n).
Proof.
  revert m n. induction width as [|width IH]; intros m n Hm Hn.
  - simpl in *. assert (m = 0) by lia. assert (n = 0) by lia. subst. split; [tauto | reflexivity].
  - rewrite Nat2Z.inj_succ, Z.pow_succ_r in Hm, Hn by lia.
    assert (Hm' : 0 <= m / 10 < 10 ^ Z.of_nat width) by (Z.div_mod_to_equations; lia).
    assert (Hn' : 0 <= n / 10 < 10 ^ Z.of_nat width) by (Z.div_mod_to_equations; lia).
    destruct (IH (m / 10) (n / 10) Hm' Hn') as [Heq Hlt].
    pose proof (Z.mod_pos_bound m 10 ltac:(lia)) as Hmd.
    pose proof (Z.mod_pos_bound n 10 ltac:(lia)) as Hnd.
    simpl digits. split.
    + split; [|intros ->; reflexivity].
      intros H. apply app_inj_tail in H. destruct H as [H1 H2].
      apply Heq in H1.
      assert (m mod 10 = n mod 10) by lia.
      Z.div_mod_to_equations; lia.
    + rewrite ltString_app by (rewrite !digits_length; reflexivity).
      destruct (decide (digits width (m / 10) = digits width (n / 10))) as [Hd|Hd].
      * rewrite bool_decide_eq_true_2 by exact Hd. apply Heq in Hd. simpl.
        destruct (N.ltb_spec (Z.to_N (48 + m mod 10)) (Z.to_N (48 + n mod 10)));
          destruct (Z.ltb_spec m n); try reflexivity;
          try (destruct (_ <? _)%N; reflexivity); exfalso;
          Z.div_mod_to_equations; lia.
      * rewrite bool_decide_eq_false_2 by exact Hd. rewrite Hlt.
        assert (m / 10 <> n / 10) by (intros H; apply Hd, Heq, H).
        destruct (Z.ltb_spec (m / 10) (n / 10)); destruct (Z.ltb_spec m n);
          try reflexivity; exfalso; Z.div_mod_to_equations; lia.
Qed.

Lemma formatDate_parts d :
  0 <= year d <= 9999 ->
  JsDate.formatDate d
  = digits 4 (year d) ++ ([45%N] ++ digits 2 (month d) ++ ([45%N] ++ digits 2 (day d))).
Proof.
  intros Hy. unfold JsDate.formatDate, isoYear.
  destruct (Z.leb_spec 0 (year d)); [|lia].
  destruct (Z.leb_spec (year d) 9999); [|lia]. reflexivity.
Qed.

Lemma formatDate_compare a b :
  plain a -> plain b ->
  ltString (JsDate.formatDate b) (JsDate.formatDate a) = true <-> earlier b a.
Proof.
  intros (Hya & Hma & Hda) (Hyb & Hmb & Hdb).
  rewrite !formatDate_parts by assumption.
  destruct (digits_compare 4 (year b) (year a)) as [Hyeq Hylt]; [simpl; lia | simpl; lia|].
  destruct (digits_compare 2 (month b) (month a)) as [Hmeq Hmlt]; [simpl; lia | simpl; lia|].
  destruct (digits_compare 2 (day b) (day a)) as [Hdeq Hdlt]; [simpl; lia | simpl; lia|].
  rewrite ltString_app by (rewrite !digits_length; reflexivity).
  unfold earlier.
  destruct (decide (digits 4 (year b) = digits 4 (year a))) as [Hy|Hy].
  - rewrite bool_decide_eq_true_2 by exact Hy. apply Hyeq in Hy.
    rewrite (ltString_app [45%N] [45%N]) by reflexivity.
    rewrite bool_decide_eq_true_2 by reflexivity.
    rewrite ltString_app by (rewrite !digits_length; reflexivity).
    destruct (decide (digits 2 (month b) = digits 2 (month a))) as [Hm|Hm].
    + rewrite bool_decide_eq_true_2 by exact Hm. apply Hmeq in Hm.
      rewrite (ltString_app [45%N] [45%N]) by reflexivity.
      rewrite bool_decide_eq_true_2 by reflexivity.
      rewrite Hdlt, Z.ltb_lt. lia.
    + rewrite bool_decide_eq_false_2 by exact Hm.
      assert (month b <> month a) by (intros H; apply Hm, Hmeq, H).
      rewrite Hmlt, Z.ltb_lt. lia.
  - rewrite bool_decide_eq_false_2 by exact Hy.
    assert (year b <> year a) by (intros H; apply Hy, Hyeq, H).
    rewrite Hylt, Z.ltb_lt. lia.
Qed.

Lemma formatDate_nonempty d : JsDate.formatDate d <> [].
Proof.
  unfold JsDate.formatDate. intros H. apply (f_equal (@length N)) in H.
  rewrite !length_app in H. simpl in H. lia.
Qed.

(** *** The calendar fields of a time value *)

Lemma civil_ranges t : 1 <= month (civil t) <= 12 /\ 1 <= day (civil t) <= 31.
Proof.
  unfold civil, DateFromTime, MonthFromTime. simpl.
  pose proof (YearFromTime_spec t) as HY.
  pose proof (DayFromYear_step (YearFromTime t)) as Hstep.
  pose proof (monthOfDay_range (DayWithinYear t) (InLeapYear t)) as Hm.
  split; [lia|].
  assert (Hleap : InLeapYear t = DaysInYear (YearFromTime t) - 365).
  { unfold InLeapYear. destruct (DaysInYear_cases (YearFromTime t)) as [-> | ->]; reflexivity. }
  assert (Hw : 0 <= DayWithinYear t < 365 + InLeapYear t)
    by (unfold DayWithinYear; lia).
  assert (Hl : InLeapYear t = 0 \/ InLeapYear t = 1)
    by (destruct (DaysInYear_cases (YearFromTime t)); lia).
  revert Hw Hl. generalize (DayWithinYear t) (InLeapYear t). clear. intros w leap Hw Hl.
  unfold monthOfDay.
  repeat match goal with
         | |- context [?a <? ?b] => destruct (Z.ltb_spec a b)
         end; simpl; lia.
Qed.

(** X30: [validateFreshResults] and [needsActivityUpdate] compare dates as
    strings, and for dates in the form [YYYY-MM-DD] with a year from 0 to
    9999 the string order is the calendar order: results are fresh exactly
    if their date is later than the last processed one, and an update is
    needed exactly if the last one is from before today (in UTC). *)
Theorem date_strings_compare_as_dates a b now :
  plain a -> plain b -> 0 <= YearFromTime now <= 9999 ->
  (validateFreshResults (JsDate.formatDate a) (Some (JsDate.formatDate b)) = true
   <-> earlier b a) /\
  (needsActivityUpdate (Some (JsDate.formatDate b)) now = true
   <-> earlier b (civil now)).
Proof.
  intros Ha Hb Hnow. split.
  - unfold validateFreshResults.
    destruct (JsDate.formatDate b) as [|c s] eqn:Hfb;
      [exfalso; apply (formatDate_nonempty b); exact Hfb|].
    rewrite <- Hfb. apply formatDate_compare; assumption.
  - unfold needsActivityUpdate, getTodayDate.
    destruct (toISOString_date now) as [time ->].
    destruct (JsDate.formatDate b) as [|c s] eqn:Hfb;
      [exfalso; apply (formatDate_nonempty b); exact Hfb|].
    rewrite <- Hfb. change (isoDate now) with (JsDate.formatDate (civil now)).
    apply formatDate_compare; [|exact Hb].
    pose proof (civil_ranges now). unfold plain. simpl in *. lia.
Qed.

Lemma date_strings_compare_as_dates_witness :
  (validateFreshResults
     (JsDate.formatDate {| year := 2024; month := 3; day := 10 |})
     (Some (JsDate.formatDate {| year := 2024; month := 3; day := 9 |})) = true
   <-> earlier {| year := 2024; month := 3; day := 9 |}
               {| year := 2024; month := 3; day := 10 |}) /\
  (needsActivityUpdate
     (Some (JsDate.formatDate {| year := 2024; month := 3; day := 9 |})) 1710057600000 = true
   <-> earlier {| year := 2024; month := 3; day := 9 |} (civil 1710057600000)).
Proof.
  apply (date_strings_compare_as_dates
           {| year := 2024; month := 3; day := 10 |}
           {| year := 2024; month := 3; day := 9 |} 1710057600000).
  - unfold plain. simpl. lia.
  - unfold plain. simpl. lia.
  - vm_compute. split; discriminate.
Defined.

End DateStrings.

(** ** The leaderboard *)

Section Leaderboard.
Import Js Repo Stats.
Local Open Scope Z_scope.

Lemma above_app e l1 l2 : above e (l1 ++ l2) = above e l1 + above e l2.
Proof. unfold above. rewrite List.filter_app, length_app. lia. Qed.

Lemma above_all e (l : list Player) :
  (forall q, In q l -> e < elo q) -> above e l = Z.of_nat (length l).
Proof.
  unfold above. induction l as [|q l IH]; intros H; simpl; [reflexivity|].
  destruct (Z.ltb_spec e (elo q)) as [_|Hle].
  - simpl. rewrite !Nat2Z.inj_succ, IH; [reflexivity|]. intros q' Hq'. apply H. right. exact Hq'.
  - specialize (H q ltac:(left; reflexivity)). lia.
Qed.

Lemma above_none e (l : list Player) :
  (forall q, In q l -> elo q <= e) -> above e l = 0.
Proof.
  unfold above. induction l as [|q l IH]; intros H; simpl; [reflexivity|].
  destruct (Z.ltb_spec e (elo q)) as [Hlt|_].
  - specialize (H q ltac:(left; reflexivity)). lia.
  - apply IH. intros q' Hq'. apply H. right. exact Hq'.
Qed.

Lemma above_perm e (l l' : list Player) : l ≡ₚ l' -> above e l = above e l'.
Proof.
  unfold above. induction 1 as [|q l l' _ IH|q q' l|l1 l2 l3 _ IH1 _ IH2]; simpl.
  - reflexivity.
  - destruct (e <? elo q); simpl; lia.
  - destruct (e <? elo q), (e <? elo q'); simpl; lia.
  - lia.
Qed.

Lemma descending_app_l (l1 l2 : list Player) : descending (l1 ++ l2) -> descending l1.
Proof.
  intros H i j p q Hij Hi Hj. apply (H i j); [exact Hij | |];
    apply lookup_app_l_Some; assumption.
Qed.

(** In a descending list, the players above the rating of an element are
    in front of it. *)
Lemma above_in_front (pre rest : list Player) p :
  descending (pre ++ p :: rest) ->
  above (elo p) (pre ++ p :: rest) = above (elo p) pre.
Proof.
  intros Hd. rewrite above_app.
  rewrite (above_none (elo p) (p :: rest)); [lia|].
  intros q Hq. apply list_elem_of_In, list_elem_of_lookup in Hq. destruct Hq as [j Hj].
  apply (Hd (length pre) (length pre + j)%nat p q); [lia | |].
  - rewrite lookup_app_r by lia. rewrite Nat.sub_diag. reflexivity.
  - rewrite lookup_app_r by lia.
    replace (length pre + j - length pre)%nat with j by lia. exact Hj.
Qed.

(** The loop on a descending list [pre ++ rest], having passed [pre]. *)
Lemma rankEntries_ranks (pre rest : list Player) currentRank previousElo :
  descending (pre ++ rest) ->
  match last pre with
  | Some p => previousElo = Some (elo p) /\ currentRank = 1 + above (elo p) (pre ++ rest)
  | None => previousElo = None
  end ->
  Forall2 (fun player entry =>
             entry_discordId entry = discordId player /\
             entry_username entry = username player /\
             entry_elo entry = elo player /\
             entry_isActive entry = isActive player /\
             entry_rank entry = 1 + above (elo player) (pre ++ rest))
          rest
          (rankEntries rest (Z.of_nat (length pre)) currentRank previousElo).
Proof.
  revert pre currentRank previousElo.
  induction rest as [|player rest IH]; intros pre currentRank previousElo Hd Hprev; simpl.
  - constructor.
  - assert (Hrank :
      match previousElo with
      | Some previous =>
          if elo player =? previous then currentRank else Z.of_nat (length pre) + 1
      | None => Z.of_nat (length pre) + 1
      end = 1 + above (elo player) (pre ++ player :: rest)).
    { rewrite above_in_front by exact Hd.
      destruct (last pre) as [p|] eqn:Hlast.
      - destruct Hprev as [-> ->].
        apply last_Some in Hlast. destruct Hlast as [pre' ->].
        destruct (Z.eqb_spec (elo player) (elo p)) as [Heq|Hne].
        + rewrite <- Heq, <- app_assoc. simpl.
          rewrite <- app_assoc in Hd. simpl in Hd.
          rewrite (above_app (elo player) pre' (p :: player :: rest)).
          rewrite (above_none (elo player) (p :: player :: rest)).
          * rewrite above_app, (above_none (elo player) [p]); [lia|].
            intros q [<-|[]]. lia.
          * intros q Hq. rewrite Heq.
            apply list_elem_of_In, list_elem_of_lookup in Hq. destruct Hq as [j Hj].
            apply (Hd (length pre') (length pre' + j)%nat p q); [lia | |].
            -- rewrite lookup_app_r by lia. rewrite Nat.sub_diag. reflexivity.
            -- rewrite lookup_app_r by lia.
               replace (length pre' + j - length pre')%nat with j by lia. exact Hj.
        + rewrite above_all; [lia|].
          intros q Hq.
          assert (Hlt : elo player < elo p).
          { assert (elo player <= elo p); [|lia].
            apply (Hd (length pre') (length (pre' ++ [p])) p player).
            - rewrite length_app. simpl. lia.
            - rewrite <- app_assoc. rewrite lookup_app_r by lia.
              rewrite Nat.sub_diag. reflexivity.
            - rewrite lookup_app_r by lia. rewrite Nat.sub_diag. reflexivity. }
          assert (elo p <= elo q); [|lia].
          apply list_elem_of_In, list_elem_of_lookup in Hq. destruct Hq as [i Hi].
          pose proof (lookup_lt_Some _ _ _ Hi) as Hlen.
          rewrite length_app in Hlen. simpl in Hlen.
          apply (Hd i (length pre') q p); [lia | |].
          * apply lookup_app_l_Some. exact Hi.
          * rewrite <- app_assoc. rewrite lookup_app_r by lia.
            rewrite Nat.sub_diag. reflexivity.
      - rewrite Hprev. apply last_None in Hlast. subst pre. reflexivity. }
    constructor.
    + simpl. repeat split. exact Hrank.
    + specialize (IH (pre ++ [player])
                    (match previousElo with
                     | Some previous =>
                         if elo player =? previous then currentRank
                         else Z.of_nat (length pre) + 1
                     | None => Z.of_nat (length pre) + 1
                     end) (Some (elo player))).
      rewrite length_app, Nat2Z.inj_add in IH. simpl in IH.
      rewrite <- app_assoc in IH. simpl in IH.
      apply IH; [exact Hd|].
      rewrite last_snoc. split; [reflexivity | exact Hrank].
Qed.

Lemma descending_take (l : list Player) n : descending l -> descending (take n l).
Proof.
  intros Hd. rewrite <- (take_drop n l) in Hd. apply descending_app_l in Hd. exact Hd.
Qed.

Lemma above_take (l : list Player) n (i : nat) p :
  descending l -> take n l !! i = Some p -> above (elo p) (take n l) = above (elo p) l.
Proof.
  intros Hd Hi. rewrite <- (take_drop n l) at 2. rewrite above_app.
  rewrite (above_none (elo p) (drop n l)); [lia|].
  intros q Hq. apply list_elem_of_In, list_elem_of_lookup in Hq. destruct Hq as [j Hj].
  rewrite lookup_drop in Hj. rewrite lookup_take_Some in Hi. destruct Hi as [Hi Hin].
  apply (Hd i (n + j)%nat p q); [lia | exact Hi | exact Hj].
Qed.

(** X18: when [ORDER BY elo DESC] returns the players in descending order of
    rating, the rank of a leaderboard entry is one more than the number of
    players of the board (the active ones, or all) with a strictly higher
    rating, whatever the limit: equal ratings share a rank and the next
    rank skips.  With the inactive players on the board it is the rank
    that [getPlayerRank] gives a player of that rating. *)
Theorem leaderboard_rank_counts_higher_ratings
    orderByEloDesc limit (activeOnly : bool) (db : Database) (i : nat) entry :
  let board := if activeOnly then List.filter isActive (players db) else players db in
  orderByEloDesc board ≡ₚ board ->
  descending (orderByEloDesc board) ->
  getLeaderboard orderByEloDesc limit activeOnly db !! i = Some entry ->
  entry_rank entry = 1 + above (entry_elo entry) board /\
  (activeOnly = false ->
   forall pid p, getPlayerById pid db = Some p -> elo p = entry_elo entry ->
                 getPlayerRank pid db = entry_rank entry).
Proof.
  intros board Hperm Hdesc Hentry.
  assert (Hlist : getLeaderboard orderByEloDesc limit activeOnly db
                  = rankEntries (slice0 (orderByEloDesc board) limit) 0 1 None).
  { unfold getLeaderboard, getActivePlayersByElo, getAllPlayersByElo, board.
    destruct activeOnly; reflexivity. }
  rewrite Hlist in Hentry. clear Hlist.
  assert (Hslice : exists n, slice0 (orderByEloDesc board) limit = take n (orderByEloDesc board)).
  { unfold slice0. destruct (limit <? 0); eauto. }
  destruct Hslice as [n Hslice]. rewrite Hslice in Hentry.
  pose proof (rankEntries_ranks [] (take n (orderByEloDesc board)) 1 None) as Hranks.
  simpl in Hranks. specialize (Hranks (descending_take _ n Hdesc) eq_refl).
  destruct (Forall2_lookup_r _ _ _ _ _ Hranks Hentry) as (player & Hplayer & _ & _ & Helo & _ & Hrank).
  assert (Hcount : entry_rank entry = 1 + above (entry_elo entry) board).
  { rewrite Hrank, Helo, (above_take _ n i player Hdesc Hplayer). f_equal.
    apply above_perm. exact Hperm. }
  split; [exact Hcount|].
  intros -> pid p Hp Hpe. unfold getPlayerRank. rewrite Hp, Hcount, Hpe.
  unfold above, board. lia.
Qed.

Lemma leaderboard_rank_counts_higher_ratings_witness :
  let entry :=
    {| entry_rank := 3; entry_discordId := lit "333"; entry_username := lit "cy";
       entry_elo := 990; entry_totalGames := 0;
       entry_winRate := (IZR (Elo.Math_round (0 * 100)) / 100)%R;
       entry_isActive := false |} in
  entry_rank entry = 1 + above (entry_elo entry) (players sampleBoard) /\
  (false = false ->
   forall pid p, getPlayerById pid sampleBoard = Some p -> elo p = entry_elo entry ->
                 getPlayerRank pid sampleBoard = entry_rank entry).
Proof.
  apply (leaderboard_rank_counts_higher_ratings (fun l => l) 10 false sampleBoard 2).
  - reflexivity.
  - intros [|[|[|i]]] [|[|[|j]]] p q Hij Hi Hj; simpl in Hi, Hj;
      try discriminate; try lia;
      injection Hi as <-; injection Hj as <-; simpl; lia.
  - reflexivity.
Defined.

End Leaderboard.
